(** * Mixture of Diffusers: tiled latent fusion

    A shallow embedding of [methods/mixtureofdiffusers.py]
    (class [MixtureOfDiffusers]) and the properties of its weight
    generator, weight setup, per-step fusion and hook management.

    Conventions of the embedding.
    - Python floats and tensor elements are real numbers: rounding,
      overflow, underflow, infinities and NaN are not represented.
    - Python ints are [Z]; list and tensor indices are [nat].
    - Tensors live in a store; a Python tensor value is a reference made of
      a storage cell and a view, so that slices alias the tensor they were
      taken from and in-place operators write through them.
    - Exceptions are values of [Exn]; a pure operation that can raise
      returns in [Res], and a method returns a [Run]: its value or its
      exception, with the state it leaves behind. *)

From Stdlib Require Import ZArith List Reals Lra Lia Bool.
From stdpp Require Import base option list gmap strings.

Local Open Scope Z_scope.
Local Open Scope nat_scope.

(** ** Exceptions and results *)

Inductive Exn :=
| ZeroDivisionError
| AttributeError
| AssertionError
| RuntimeError
| IndexError
| KeyError
| TypeError
| ValueError.

Inductive Res (A : Type) :=
| Ok (a : A)
| Raise (e : Exn).
Arguments Ok {A} a.
Arguments Raise {A} e.

Definition res_bind {A B} (m : Res A) (k : A -> Res B) : Res B :=
  match m with
  | Ok a => k a
  | Raise e => Raise e
  end.

(** The outcome of running a method on a state: a value or an exception,
    and in both cases the state that is left. *)
Inductive Run (S A : Type) :=
| Done (a : A) (s : S)
| Fail (e : Exn) (s : S).
Arguments Done {S A} a s.
Arguments Fail {S A} e s.

Definition final {S A} (o : Run S A) : S :=
  match o with
  | Done _ s => s
  | Fail _ s => s
  end.

Fixpoint res_mapM {A B} (g : A -> Res B) (l : list A) : Res (list B) :=
  match l with
  | [] => Ok []
  | a :: l' =>
      res_bind (g a) (fun b => res_bind (res_mapM g l') (fun bs => Ok (b :: bs)))
  end.

(** ** Tensors, views and the store *)

Inductive dtype := float16 | bfloat16 | float32 | float64.

Abbreviation device := nat (only parsing).

(** Contents of one storage cell: an n-dimensional array. [t_data] is only
    meaningful at indices inside [t_shape]. *)
Record tensor := Tensor {
  t_shape : list nat;
  t_device : device;
  t_dtype : dtype;
  t_data : list nat -> R
}.

(** Storage cells are named by their position in the store. *)
Abbreviation loc := nat (only parsing).

(** One dimension of a view.  [VSlice off len] shows [len] entries of a
    storage dimension from [off]; [VNew len] is a dimension of the view
    with no storage dimension behind it ([unsqueeze], and slices of it);
    [VFix i] pins a storage dimension at [i] (integer indexing). *)
Inductive vdim :=
| VSlice (off len : nat)
| VNew (len : nat)
| VFix (i : nat).

Record tref := TRef { base : loc; view : list vdim }.

Fixpoint view_shape (v : list vdim) : list nat :=
  match v with
  | [] => []
  | VSlice _ len :: v' => len :: view_shape v'
  | VNew len :: v' => len :: view_shape v'
  | VFix _ :: v' => view_shape v'
  end.

(** [t.shape] *)
Definition ref_shape (r : tref) : list nat := view_shape (view r).

(** Storage index addressed by a view index. *)
Fixpoint to_base (v : list vdim) (idx : list nat) : list nat :=
  match v with
  | [] => []
  | VSlice off _ :: v' =>
      match idx with
      | i :: idx' => (off + i) :: to_base v' idx'
      | [] => []
      end
  | VNew _ :: v' =>
      match idx with
      | _ :: idx' => to_base v' idx'
      | [] => []
      end
  | VFix i :: v' => i :: to_base v' idx
  end.

(** Is a storage index shown by the view, and at which view index. *)
Fixpoint in_view (v : list vdim) (bidx : list nat) : bool :=
  match v with
  | [] => match bidx with [] => true | _ => false end
  | VSlice off len :: v' =>
      match bidx with
      | b :: bs => (off <=? b) && (b <? off + len) && in_view v' bs
      | [] => false
      end
  | VNew len :: v' => (0 <? len) && in_view v' bidx
  | VFix i :: v' =>
      match bidx with
      | b :: bs => (b =? i) && in_view v' bs
      | [] => false
      end
  end.

Fixpoint of_base (v : list vdim) (bidx : list nat) : list nat :=
  match v with
  | [] => []
  | VSlice off _ :: v' =>
      match bidx with
      | b :: bs => (b - off) :: of_base v' bs
      | [] => []
      end
  | VNew _ :: v' => 0 :: of_base v' bidx
  | VFix _ :: v' =>
      match bidx with
      | _ :: bs => of_base v' bs
      | [] => []
      end
  end.

Abbreviation heap := (list tensor) (only parsing).

(** The reference to a whole freshly made tensor. *)
Definition whole (l : loc) (shp : list nat) : tref :=
  TRef l (map (VSlice 0) shp).

Definition tread (h : heap) (r : tref) (idx : list nat) : R :=
  match h !! base r with
  | Some t => t_data t (to_base (view r) idx)
  | None => 0%R
  end.

Definition ref_device (h : heap) (r : tref) : device :=
  from_option t_device 0 (h !! base r).

Definition ref_dtype (h : heap) (r : tref) : dtype :=
  from_option t_dtype float32 (h !! base r).

(** An index lies inside a shape. *)
Definition in_shape (idx shp : list nat) : Prop := Forall2 lt idx shp.

(** ** Python slicing and indexing on views *)

(** Normalisation of one bound of a slice over a dimension of size [d]:
    negative bounds count from the end, and the result is clamped. *)
Definition norm_index (d : nat) (a : Z) : nat :=
  let a' := if (a <? 0)%Z then (a + Z.of_nat d)%Z else a in
  Z.to_nat (Z.min (Z.max a' 0) (Z.of_nat d)).

(** Start and length of [a:b] over a dimension of size [d]. *)
Definition slice_bounds (d : nat) (a b : Z) : nat * nat :=
  let s := norm_index d a in
  let e := norm_index d b in
  (s, e - s).

(** [t[..., a:b, ...]] with the slice at dimension [k] of the view. *)
Fixpoint slice_view (k : nat) (a b : Z) (v : list vdim) : Res (list vdim) :=
  match v with
  | [] => Raise IndexError
  | VFix i :: v' =>
      res_bind (slice_view k a b v') (fun v'' => Ok (VFix i :: v''))
  | VSlice off len :: v' =>
      match k with
      | O => let '(s, n) := slice_bounds len a b in Ok (VSlice (off + s) n :: v')
      | S k' =>
          res_bind (slice_view k' a b v') (fun v'' => Ok (VSlice off len :: v''))
      end
  | VNew len :: v' =>
      match k with
      | O => let '(_, n) := slice_bounds len a b in Ok (VNew n :: v')
      | S k' =>
          res_bind (slice_view k' a b v') (fun v'' => Ok (VNew len :: v''))
      end
  end.

(** Bounding boxes are the lists [[x0, y0, x1, y1]] of the tiling layer;
    [b0 .. b3] are [bbox[0] .. bbox[3]]. *)
Record bbox := BBox { b0 : Z; b1 : Z; b2 : Z; b3 : Z }.

(** [t[:, :, bbox[1]:bbox[3], bbox[0]:bbox[2]]] *)
Definition slice_bbox (r : tref) (bb : bbox) : Res tref :=
  res_bind (slice_view 2 (b1 bb) (b3 bb) (view r)) (fun v1 =>
  res_bind (slice_view 3 (b0 bb) (b2 bb) v1) (fun v2 =>
  Ok (TRef (base r) v2))).

(** [t[a:b, :, :, :]] *)
Definition slice_batch (r : tref) (a b : Z) : Res tref :=
  if length (ref_shape r) <? 4 then Raise IndexError
  else res_bind (slice_view 0 a b (view r)) (fun v => Ok (TRef (base r) v)).

(** [t[i]] for a tensor [t] and a non-negative int [i]. *)
Fixpoint select_view (i : nat) (v : list vdim) : Res (list vdim) :=
  match v with
  | [] => Raise IndexError
  | VFix j :: v' => res_bind (select_view i v') (fun v'' => Ok (VFix j :: v''))
  | VSlice off len :: v' =>
      if i <? len then Ok (VFix (off + i) :: v') else Raise IndexError
  | VNew len :: v' =>
      if i <? len then Ok v' else Raise IndexError
  end.

Definition select (r : tref) (i : nat) : Res tref :=
  res_bind (select_view i (view r)) (fun v => Ok (TRef (base r) v)).

(** [t.unsqueeze(0)] *)
Definition unsqueeze0 (r : tref) : tref := TRef (base r) (VNew 1 :: view r).

(** ** Broadcasting *)

Definition bdim (x y : nat) : option nat :=
  if x =? y then Some x
  else if x =? 1 then Some y
  else if y =? 1 then Some x
  else None.

(** Shapes are aligned at their last dimension. *)
Fixpoint bshape_rev (a b : list nat) : option (list nat) :=
  match a, b with
  | [], _ => Some b
  | _, [] => Some a
  | x :: a', y :: b' =>
      match bdim x y, bshape_rev a' b' with
      | Some d, Some s => Some (d :: s)
      | _, _ => None
      end
  end.

Definition broadcast_shapes (a b : list nat) : option (list nat) :=
  option_map (@rev nat) (bshape_rev (rev a) (rev b)).

(** Index into an operand of shape [shp] for an index of the result. *)
Definition bcast_index (shp idx : list nat) : list nat :=
  zip_with (fun d i => if d =? 1 then 0 else i) shp
           (drop (length idx - length shp) idx).

(** Type promotion among the floating types. *)
Definition dtype_rank (d : dtype) : nat :=
  match d with float16 => 1 | bfloat16 => 1 | float32 => 2 | float64 => 3 end.

Definition dtype_eqb (a b : dtype) : bool :=
  match a, b with
  | float16, float16 | bfloat16, bfloat16
  | float32, float32 | float64, float64 => true
  | _, _ => false
  end.

Definition promote (a b : dtype) : dtype :=
  if dtype_eqb a b then a
  else if dtype_rank a <? dtype_rank b then b
  else if dtype_rank b <? dtype_rank a then a
  else float32.

(** ** Conditioning values *)

Inductive CondVal :=
| CTensor (t : tref)
| CList (ts : list tref).

(** A Python dict with string keys, in insertion order. *)
Definition CondDict := list (string * CondVal).

Fixpoint dict_get (d : CondDict) (k : string) : Res CondVal :=
  match d with
  | [] => Raise KeyError
  | (k', v) :: d' => if String.eqb k k' then Ok v else dict_get d' k
  end.

Fixpoint dict_set (d : CondDict) (k : string) (v : CondVal) : CondDict :=
  match d with
  | [] => [(k, v)]
  | (k', v') :: d' =>
      if String.eqb k k' then (k, v) :: d' else (k', v') :: dict_set d' k v
  end.

(** The [cond] argument of [apply_model]: [None], a dict, or anything else
    (a plain tensor for samplers that do not use dicts). *)
Inductive PyCond :=
| PNone
| PDict (d : CondDict)
| POther (t : tref).

(** ** The world of the program *)

(** Types owned by the collaborators of this file. *)
Class Externals := {
  (** Python callables that can be stored on [shared.sd_model] *)
  Callable : Type;
  (** the [cond] and [uncond] entries of a custom region *)
  RegionCond : Type;
  (** [bbox_control_states], as produced by the UI layer *)
  ControlStates : Type;
  (** state owned by the collaborators: ControlNet tensors, the progress
      bar, the interruption flag [shared.state.interrupted], ... *)
  ExtState : Type
}.

Section Model.
Context `{X : Externals}.

(** A custom region [(bbox, cond, uncond, multiplier)]. *)
Definition Region : Type := bbox * RegionCond * RegionCond * R.

(** The attributes of a [MixtureOfDiffusers] instance that this file reads
    or writes.  [per_tile_weights] and [rescale_factor] are tested with
    [hasattr]; [weights] and [x_buffer] are created by the base class. *)
Record Self := MkSelf {
  tile_w : Z;
  tile_h : Z;
  self_w : Z;
  self_h : Z;
  is_kdiff : bool;
  global_multiplier : R;
  batched_bboxes : list (list bbox);
  custom_bboxes : list Region;
  weights : option tref;
  x_buffer : option tref;
  custom_weights : list tref;
  per_tile_weights : option tref;
  rescale_factor : option tref
}.

Definition set_x_buffer (v : option tref) (s : Self) : Self :=
  MkSelf (tile_w s) (tile_h s) (self_w s) (self_h s) (is_kdiff s)
    (global_multiplier s) (batched_bboxes s) (custom_bboxes s) (weights s)
    v (custom_weights s) (per_tile_weights s) (rescale_factor s).

Definition set_custom_weights (v : list tref) (s : Self) : Self :=
  MkSelf (tile_w s) (tile_h s) (self_w s) (self_h s) (is_kdiff s)
    (global_multiplier s) (batched_bboxes s) (custom_bboxes s) (weights s)
    (x_buffer s) v (per_tile_weights s) (rescale_factor s).

Definition set_per_tile_weights (v : option tref) (s : Self) : Self :=
  MkSelf (tile_w s) (tile_h s) (self_w s) (self_h s) (is_kdiff s)
    (global_multiplier s) (batched_bboxes s) (custom_bboxes s) (weights s)
    (x_buffer s) (custom_weights s) v (rescale_factor s).

Definition set_rescale_factor (v : option tref) (s : Self) : Self :=
  MkSelf (tile_w s) (tile_h s) (self_w s) (self_h s) (is_kdiff s)
    (global_multiplier s) (batched_bboxes s) (custom_bboxes s) (weights s)
    (x_buffer s) (custom_weights s) (per_tile_weights s) v.

(** A Python object as far as attribute access goes: the instance
    dictionary, and what the class provides. *)
Record PyObj := MkObj {
  inst : gmap string Callable;
  cls : gmap string Callable
}.

Definition getattr (o : PyObj) (name : string) : Res Callable :=
  match inst o !! name with
  | Some v => Ok v
  | None =>
      match cls o !! name with
      | Some v => Ok v
      | None => Raise AttributeError
      end
  end.

Definition hasattr (o : PyObj) (name : string) : bool :=
  match getattr o name with Ok _ => true | Raise _ => false end.

Definition setattr (o : PyObj) (name : string) (v : Callable) : PyObj :=
  MkObj (<[name := v]> (inst o)) (cls o).

(** [del o.name] only looks at the instance dictionary. *)
Definition delattr (o : PyObj) (name : string) : Res PyObj :=
  match inst o !! name with
  | Some _ => Ok (MkObj (delete name (inst o)) (cls o))
  | None => Raise AttributeError
  end.

(** Functions registered with [modules.script_callbacks]. *)
Inductive Callback :=
| CbRemoveHook     (** the closure [remove_hook] made by [hook] *)
| CbUnhook         (** [MixtureOfDiffusers.unhook] itself *)
| CbOther (n : nat).

Record World := MkWorld {
  store : heap;
  self : Self;
  sd_model : PyObj;               (** [shared.sd_model] *)
  before_image_saved : list Callback;
  ext : ExtState
}.

Definition with_store (h : heap) (wd : World) : World :=
  MkWorld h (self wd) (sd_model wd) (before_image_saved wd) (ext wd).
Definition with_self (s : Self) (wd : World) : World :=
  MkWorld (store wd) s (sd_model wd) (before_image_saved wd) (ext wd).
Definition with_sd_model (o : PyObj) (wd : World) : World :=
  MkWorld (store wd) (self wd) o (before_image_saved wd) (ext wd).
Definition with_callbacks (c : list Callback) (wd : World) : World :=
  MkWorld (store wd) (self wd) (sd_model wd) c (ext wd).

(** ** The monad of methods: state and exceptions *)

Definition M (A : Type) : Type := World -> Run World A.

Definition ret {A} (a : A) : M A := fun wd => Done a wd.

Definition bind {A B} (m : M A) (k : A -> M B) : M B :=
  fun wd =>
    match m wd with
    | Done a wd' => k a wd'
    | Fail e wd' => Fail e wd'
    end.

Definition raise {A} (e : Exn) : M A := fun wd => Fail e wd.

Definition lift {A} (r : Res A) : M A :=
  fun wd => match r with Ok a => Done a wd | Raise e => Fail e wd end.

Definition get_self : M Self := fun wd => Done (self wd) wd.
Definition get_store : M heap := fun wd => Done (store wd) wd.
Definition modify_self (g : Self -> Self) : M unit :=
  fun wd => Done tt (with_self (g (self wd)) wd).

(** Reading an attribute that may be missing. *)
Definition attr {A} (o : option A) : M A :=
  match o with Some a => ret a | None => raise AttributeError end.

(** Collaborators run against the tensor store and their own state; they
    do not rebind the attributes of [Self] or of [shared.sd_model]. *)
Definition Ext (A : Type) : Type :=
  heap -> ExtState -> Run (heap * ExtState) A.

Definition call_ext {A} (m : Ext A) : M A :=
  fun wd =>
    match m (store wd) (ext wd) with
    | Done a (h, e) =>
        Done a (MkWorld h (self wd) (sd_model wd) (before_image_saved wd) e)
    | Fail x (h, e) =>
        Fail x (MkWorld h (self wd) (sd_model wd) (before_image_saved wd) e)
    end.

End Model.

Notation "'let*' x ':=' m 'in' k" := (bind m (fun x => k))
  (at level 10, x pattern, m at level 100, k at level 200).

(** ** Tensor operations on the store *)

Section TensorOps.
Context `{X : Externals}.

Definition set_store (h : heap) : M unit :=
  fun wd => Done tt (with_store h wd).

(** Operations on the store alone. *)
Definition St (A : Type) : Type := heap -> Run heap A.

Definition st {A} (m : St A) : M A :=
  fun wd =>
    match m (store wd) with
    | Done a h => Done a (with_store h wd)
    | Fail e h => Fail e (with_store h wd)
    end.

(** A new tensor: a new storage cell and the reference to all of it. *)
Definition alloc_h (t : tensor) : St tref :=
  fun h => Done (whole (length h) (t_shape t)) (h ++ [t]).

Definition alloc (t : tensor) : M tref := st (alloc_h t).

(** Writing through a view: every element the view shows is replaced by
    [g] of its view index and old value; the rest of the cell is kept. *)
Definition update_view (r : tref) (g : list nat -> R -> R) (h : heap) : heap :=
  match h !! base r with
  | Some t =>
      <[base r := Tensor (t_shape t) (t_device t) (t_dtype t)
          (fun bidx =>
             if in_view (view r) bidx
             then g (of_base (view r) bidx) (t_data t bidx)
             else t_data t bidx)]> h
  | None => h
  end.

(** [a op b] for two tensors: a new tensor of the broadcast shape.  Torch
    refuses operands on different devices and shapes that do not
    broadcast. *)
Definition binop (op : R -> R -> R) (a b : tref) : M tref :=
  let* h := get_store in
  if negb (ref_device h a =? ref_device h b) then raise RuntimeError
  else
    match broadcast_shapes (ref_shape a) (ref_shape b) with
    | None => raise RuntimeError
    | Some shp =>
        alloc (Tensor shp (ref_device h a)
                 (promote (ref_dtype h a) (ref_dtype h b))
                 (fun idx =>
                    op (tread h a (bcast_index (ref_shape a) idx))
                       (tread h b (bcast_index (ref_shape b) idx))))
    end.

(** [a op= b]: in place, through the view [a]; the broadcast shape must be
    the shape of [a]. *)
Definition iop (op : R -> R -> R) (a b : tref) : M unit :=
  let* h := get_store in
  if negb (ref_device h a =? ref_device h b) then raise RuntimeError
  else
    match broadcast_shapes (ref_shape a) (ref_shape b) with
    | None => raise RuntimeError
    | Some shp =>
        if bool_decide (shp = ref_shape a)
        then set_store
               (update_view a
                  (fun idx old => op old (tread h b (bcast_index (ref_shape b) idx)))
                  h)
        else raise RuntimeError
    end.

(** [a * m] for a Python float [m] *)
Definition mul_scalar (a : tref) (m : R) : M tref :=
  let* h := get_store in
  alloc (Tensor (ref_shape a) (ref_device h a) (ref_dtype h a)
           (fun idx => (tread h a idx * m)%R)).

(** [c / a] for a Python number [c].  Where [a] is zero torch gives an
    infinity; the real-number model gives [c * / 0]. *)
Definition rdiv_scalar (c : R) (a : tref) : M tref :=
  let* h := get_store in
  alloc (Tensor (ref_shape a) (ref_device h a) (ref_dtype h a)
           (fun idx => (c / tread h a idx)%R)).

(** [a *= m] for a Python float [m] *)
Definition imul_scalar (a : tref) (m : R) : M unit :=
  let* h := get_store in
  set_store (update_view a (fun _ old => (old * m)%R) h).

(** [torch.zeros_like(x)] *)
Definition zeros_like (x : tref) : M tref :=
  let* h := get_store in
  alloc (Tensor (ref_shape x) (ref_device h x) (ref_dtype h x) (fun _ => 0%R)).

(** [r.to(device, dtype)]: the tensor itself when it already has that
    device and dtype, a converted copy otherwise.  Floats being reals here,
    the copy holds the same values: the rounding to a narrower dtype, which
    can take a small value to zero, is left out. *)
Definition to_ (r : tref) (dev : device) (dt : dtype) : M tref :=
  let* h := get_store in
  if (ref_device h r =? dev) && dtype_eqb (ref_dtype h r) dt then ret r
  else alloc (Tensor (ref_shape r) dev dt (fun idx => tread h r idx)).

Fixpoint cat_data (h : heap) (rs : list tref) (i : nat) (idx : list nat) : R :=
  match rs with
  | [] => 0%R
  | r :: rs' =>
      let d := hd 0 (ref_shape r) in
      if i <? d then tread h r (i :: idx) else cat_data h rs' (i - d) idx
  end.

(** [torch.cat(rs, dim=0)]: always a new tensor.  An empty list is refused;
    the class of that exception depends on the version of torch, and
    [RuntimeError] stands for it.  (The legacy exemption of tensors of shape
    [(0,)] from the shape check is not modelled.) *)
Definition cat_h (rs : list tref) : St tref :=
  fun h =>
  match rs with
  | [] => Fail RuntimeError h
  | r0 :: _ =>
      match ref_shape r0 with
      | [] => Fail RuntimeError h
      | _ :: rest =>
          if forallb
               (fun r =>
                  match ref_shape r with
                  | [] => false
                  | _ :: rest' => bool_decide (rest' = rest)
                  end && (ref_device h r =? ref_device h r0))
               rs
          then
            alloc_h (Tensor
                     (sum_list (map (fun r => hd 0 (ref_shape r)) rs) :: rest)
                     (ref_device h r0)
                     (foldr (fun r d => promote (ref_dtype h r) d)
                            (ref_dtype h r0) rs)
                     (fun idx =>
                        match idx with
                        | i :: idx' => cat_data h rs i idx'
                        | [] => 0%R
                        end)) h
          else Fail RuntimeError h
      end
  end.

Definition cat (rs : list tref) : M tref := st (cat_h rs).

(** [l[i]] on a Python list *)
Definition list_get {A} (l : list A) (i : nat) : Res A :=
  match l !! i with
  | Some a => Ok a
  | None => Raise IndexError
  end.

End TensorOps.

(** ** Collaborators *)

(** What this file calls and does not define: the stored model callable,
    the base class [TiledDiffusion] (methods/abstractdiffusion.py) and the
    host application's modules. *)
Class Collaborators `{X : Externals} := {
  (** [modules.devices.device] *)
  devices_device : device;
  (** calling a callable read from [shared.sd_model]: [f(x, t, c)] *)
  invoke : Callable -> tref -> tref -> CondDict -> Ext tref;
  (** the bound method [self.apply_model] as a Python value *)
  self_apply_model : Callable;
  (** [shared.state.interrupted] *)
  interrupted : ExtState -> bool;
  (** [TiledDiffusion.init_custom_bbox] *)
  super_init_custom_bbox : R -> ControlStates -> M unit;
  (** [TiledDiffusion.update_pbar] *)
  update_pbar : Ext unit;
  (** [TiledDiffusion.switch_controlnet_tensors(batch_id, N, len, is_denoise)] *)
  switch_controlnet_tensors : nat -> nat -> nat -> bool -> Ext unit;
  (** [TiledDiffusion.set_control_tensor(bbox_id, repeat_size)] *)
  set_control_tensor : nat -> nat -> Ext unit;
  (** [TiledDiffusion.kdiff_custom_forward(x_tile, original_cond, cond,
      uncond, bbox_id, bbox, sigma_in, forward_func)] *)
  kdiff_custom_forward :
    tref -> PyCond -> RegionCond -> RegionCond -> nat -> bbox -> tref ->
    Callable -> Ext tref;
  (** [TiledDiffusion.ddim_custom_forward(x, cond_in, cond, uncond, bbox,
      ts, forward_func)]; [forward_func] takes
      [(x, c, ts, unconditional_conditioning)] *)
  ddim_custom_forward :
    tref -> PyCond -> RegionCond -> RegionCond -> bbox -> tref ->
    (tref -> CondDict -> tref -> CondDict -> Ext tref) -> Ext tref
}.

Section ExtMonad.
Context `{X : Externals}.

Definition ext_ret {A} (a : A) : Ext A := fun h e => Done a (h, e).

Definition ext_bind {A B} (m : Ext A) (k : A -> Ext B) : Ext B :=
  fun h e =>
    match m h e with
    | Done a (h', e') => k a h' e'
    | Fail x s => Fail x s
    end.

Definition ext_lift {A} (r : Res A) : Ext A :=
  fun h e => match r with Ok a => Done a (h, e) | Raise x => Fail x (h, e) end.

Definition ext_st {A} (m : St A) : Ext A :=
  fun h e =>
    match m h with
    | Done a h' => Done a (h', e)
    | Fail x h' => Fail x (h', e)
    end.

Fixpoint ext_mapM {A B} (g : A -> Ext B) (l : list A) : Ext (list B) :=
  match l with
  | [] => ext_ret []
  | a :: l' =>
      ext_bind (g a) (fun b =>
      ext_bind (ext_mapM g l') (fun bs => ext_ret (b :: bs)))
  end.

End ExtMonad.

Notation "'let+' x ':=' m 'in' k" := (ext_bind m (fun x => k))
  (at level 10, x pattern, m at level 100, k at level 200).

(** ** class MixtureOfDiffusers *)

Section Program.
Context `{C : Collaborators}.

Definition get_sd_model : M PyObj := fun wd => Done (sd_model wd) wd.
Definition set_sd_model (o : PyObj) : M unit :=
  fun wd => Done tt (with_sd_model o wd).
Definition modify_callbacks (g : list Callback -> list Callback) : M unit :=
  fun wd => Done tt (with_callbacks (g (before_image_saved wd)) wd).
Definition get_ext : M ExtState := fun wd => Done (ext wd) wd.

(** *** _gaussian_weights *)

(** [range(n)] *)
Definition range (n : Z) : list Z := map Z.of_nat (seq 0 (Z.to_nat n)).

(** The default of the lambda's parameter [var]; it is the only value the
    lambda is called with. *)
Definition var_default : R := (1 / 100)%R.

(** [f = lambda x, midpoint, var=0.01:
       exp(-(x-midpoint)*(x-midpoint) / (tile_w*tile_w) / (2*var))
       / sqrt(2*pi*var)].
    The operand divided by [tile_w*tile_w] is a Python float and the divisor
    a Python int: a zero divisor raises. *)
Definition f (tile_w : Z) (x : Z) (midpoint : R) (var : R) : Res R :=
  if (tile_w * tile_w =? 0)%Z then Raise ZeroDivisionError
  else
    Ok (exp (- (IZR x - midpoint) * (IZR x - midpoint)
             / IZR (tile_w * tile_w) / (2 * var))
        / sqrt (2 * PI * var))%R.

(** The value of [f(x, midpoint)] when it does not raise. *)
Definition f_value (tile_w x : Z) (midpoint : R) : R :=
  (exp (- (IZR x - midpoint) * (IZR x - midpoint)
        / IZR (tile_w * tile_w) / (2 * var_default))
   / sqrt (2 * PI * var_default))%R.

(** [x_probs = [f(x, (tile_w - 1) / 2) for x in range(tile_w)]] *)
Definition x_probs (tile_w : Z) : Res (list R) :=
  res_mapM (fun x => f tile_w x (IZR (tile_w - 1) / 2)%R var_default)
           (range tile_w).

(** [y_probs = [f(y, tile_h / 2) for y in range(tile_h)]] *)
Definition y_probs (tile_w tile_h : Z) : Res (list R) :=
  res_mapM (fun y => f tile_w y (IZR tile_h / 2)%R var_default)
           (range tile_h).

(** [np.outer(a, b)]: entry [(i, j)] is [a[i] * b[j]]. *)
Definition outer (a b : list R) : tensor :=
  Tensor [length a; length b] 0 float64
    (fun idx =>
       match idx with
       | [i; j] => (nth i a 0 * nth j b 0)%R
       | _ => 0%R
       end).

(** The array [w] of the method, before it is handed to torch. *)
Definition gaussian_array (tile_w tile_h : Z) : Res tensor :=
  res_bind (x_probs tile_w) (fun xs =>
  res_bind (y_probs tile_w tile_h) (fun ys =>
  Ok (outer ys xs))).

(** [torch.from_numpy(w).to(devices.device, dtype=torch.float32)]:
    [from_numpy] gives a float64 tensor on the CPU (device 0). *)
Definition _gaussian_weights (arg_w arg_h : option Z) : M tref :=
  let* s := get_self in
  let tile_w := default (tile_w s) arg_w in
  let tile_h := default (tile_h s) arg_h in
  let* w := lift (gaussian_array tile_w tile_h) in
  let* t := alloc w in
  to_ t devices_device float32.

(** *** get_global_weights *)

Definition get_global_weights : M tref :=
  let* s := get_self in
  match per_tile_weights s with
  | Some r => ret r
  | None =>
      let* r := _gaussian_weights None None in
      let* _ := modify_self (set_per_tile_weights (Some r)) in
      ret r
  end.

(** *** init *)

(** Modelled from the spec: [TiledDiffusion.init] of
    methods/abstractdiffusion.py, which is not among the sources.  The spec
    has the output accumulation buffer [x_buffer] canvas-shaped, recreated
    and zero-initialised on every denoising step. *)
Definition super_init (x_in : tref) : M unit :=
  let* xb := zeros_like x_in in
  modify_self (set_x_buffer (Some xb)).

(** The body of the loop [for bbox_id, (bbox, _, _, _) in
    enumerate(self.custom_bboxes)] of [init]:
    [self.custom_weights[bbox_id] =
       self.custom_weights[bbox_id].to(device=x_in.device, dtype=x_in.dtype)]
    [self.custom_weights[bbox_id] *=
       self.rescale_factor[:, :, bbox[1]:bbox[3], bbox[0]:bbox[2]]] *)
Definition init_rescale_body (x_in : tref) (bbox_id : nat) (region : Region)
    : M unit :=
  let '(bb, _, _, _) := region in
  let* s := get_self in
  let* cw := lift (list_get (custom_weights s) bbox_id) in
  let* h := get_store in
  let* cw' := to_ cw (ref_device h x_in) (ref_dtype h x_in) in
  let* _ := modify_self (fun s =>
              set_custom_weights (<[bbox_id := cw']> (custom_weights s)) s) in
  let* s := get_self in
  let* cw2 := lift (list_get (custom_weights s) bbox_id) in
  let* rf := attr (rescale_factor s) in
  let* sl := lift (slice_bbox rf bb) in
  iop Rmult cw2 sl.

(** The loop, from index [bbox_id]. *)
Fixpoint init_rescale_loop (x_in : tref) (bbox_id : nat)
    (regions : list Region) : M unit :=
  match regions with
  | [] => ret tt
  | region :: rest =>
      let* _ := init_rescale_body x_in bbox_id region in
      init_rescale_loop x_in (S bbox_id) rest
  end.

Definition init (x_in : tref) : M unit :=
  let* _ := super_init x_in in
  let* s := get_self in
  match rescale_factor s with
  | Some _ => ret tt
  | None =>
      let* wt := attr (weights s) in
      let* rf := rdiv_scalar 1 wt in
      let* _ := modify_self (set_rescale_factor (Some rf)) in
      let* s := get_self in
      init_rescale_loop x_in 0 (custom_bboxes s)
  end.

(** *** init_custom_bbox *)

(** The body of the loop [for bbox, _, _, m in self.custom_bboxes]. *)
Definition init_custom_bbox_body (region : Region) : M unit :=
  let '(bb, _, _, m) := region in
  let* g := _gaussian_weights (Some (b2 bb - b0 bb)%Z)
                              (Some (b3 bb - b1 bb)%Z) in
  let* gaussian_weights := mul_scalar g m in
  let* s := get_self in
  let* wt := attr (weights s) in
  let* sl := lift (slice_bbox wt bb) in
  let* _ := iop Rplus sl gaussian_weights in
  modify_self (fun s =>
    set_custom_weights
      (custom_weights s ++ [unsqueeze0 (unsqueeze0 gaussian_weights)]) s).

Fixpoint init_custom_bbox_loop (regions : list Region) : M unit :=
  match regions with
  | [] => ret tt
  | region :: rest =>
      let* _ := init_custom_bbox_body region in
      init_custom_bbox_loop rest
  end.

Definition init_custom_bbox (global_multiplier : R)
    (bbox_control_states : ControlStates) : M unit :=
  let* _ := super_init_custom_bbox global_multiplier bbox_control_states in
  let* s := get_self in
  init_custom_bbox_loop (custom_bboxes s).

(** *** hook and unhook *)

(** The host application is not among the sources.  Its registry of
    callbacks is stood for by a list, which [before_image_saved_callback]
    extends; nothing is proved about that list. *)
Definition before_image_saved_callback (cb : Callback) : M unit :=
  modify_callbacks (fun cbs => cbs ++ [cb]).

Definition callback_eqb (a b : Callback) : bool :=
  match a, b with
  | CbRemoveHook, CbRemoveHook => true
  | CbUnhook, CbUnhook => true
  | CbOther n, CbOther m => n =? m
  | _, _ => false
  end.

(** [remove_callbacks_for_function] of the host application, on the same
    list. *)
Definition remove_callbacks_for_function (cb : Callback) : M unit :=
  modify_callbacks (List.filter (fun c => negb (callback_eqb c cb))).

Definition hook : M unit :=
  let* sd := get_sd_model in
  let* _ :=
    (if hasattr sd "md_org_apply_model" then ret tt
     else
       let* org := lift (getattr sd "apply_model") in
       let* _ := set_sd_model (setattr sd "md_org_apply_model" org) in
       let* sd := get_sd_model in
       set_sd_model (setattr sd "apply_model" self_apply_model)) in
  before_image_saved_callback CbRemoveHook.

Definition unhook : M unit :=
  let* sd := get_sd_model in
  if hasattr sd "md_org_apply_model" then
    let* org := lift (getattr sd "md_org_apply_model") in
    let* _ := set_sd_model (setattr sd "apply_model" org) in
    let* sd := get_sd_model in
    let* sd := lift (delattr sd "md_org_apply_model") in
    set_sd_model sd
  else ret tt.

(** The closure [remove_hook(_)] defined in [hook]. *)
Definition remove_hook : M unit :=
  let* _ := unhook in
  remove_callbacks_for_function CbUnhook.

End Program.

Section ApplyModel.
Context `{C : Collaborators}.

(** *** custom_apply_model *)

(** [v[i]] for a dict value that is a list or a tensor. *)
Definition cond_index (v : CondVal) (i : nat) : Res tref :=
  match v with
  | CList ts => list_get ts i
  | CTensor t => select t i
  end.

(** One entry [c_in[k]] of the dict built by [forward_func]. *)
Definition forward_entry (unconditional_conditioning : CondDict)
    (k : string) (ck : CondVal) : Ext CondVal :=
  match ck with
  | CList cs =>
      let+ l :=
        ext_mapM
          (fun '(i, ci) =>
             let+ u := ext_lift
                         (res_bind (dict_get unconditional_conditioning k)
                                   (fun uk => cond_index uk i)) in
             ext_st (cat_h [u; ci]))
          (imap pair cs) in
      ext_ret (CList l)
  | CTensor ct =>
      let+ uk := ext_lift (dict_get unconditional_conditioning k) in
      match uk with
      | CTensor ut => let+ r := ext_st (cat_h [ut; ct]) in ext_ret (CTensor r)
      | CList _ => ext_lift (Raise TypeError)
      end
  end.

(** The loop [for k in c] of [forward_func], over the entries still to
    visit, with the dict [c_in] built so far. *)
Fixpoint forward_entries (unconditional_conditioning : CondDict)
    (todo : CondDict) (c_in : CondDict) : Ext CondDict :=
  match todo with
  | [] => ext_ret c_in
  | (k, ck) :: rest =>
      let+ v := forward_entry unconditional_conditioning k ck in
      forward_entries unconditional_conditioning rest (dict_set c_in k v)
  end.

(** The closure [forward_func] of the DDIM branch.  It captures [self],
    [bbox_id] and the module [shared], whose [sd_model] is [sd]. *)
Definition forward_func (sd : PyObj) (bbox_id : nat)
    (x : tref) (c : CondDict) (ts : tref)
    (unconditional_conditioning : CondDict) : Ext tref :=
  let+ c_in := forward_entries unconditional_conditioning c [] in
  let+ n := ext_lift (list_get (ref_shape x) 0) in
  let+ _ := set_control_tensor bbox_id n in
  let+ org := ext_lift (getattr sd "md_org_apply_model") in
  invoke org x ts c_in.

Definition custom_apply_model (x_in t_in : tref) (c_in : PyCond)
    (bbox_id : nat) (bb : bbox) (cond uncond : RegionCond) : M tref :=
  let* s := get_self in
  let* sd := get_sd_model in
  if is_kdiff s then
    let* org := lift (getattr sd "md_org_apply_model") in
    call_ext (kdiff_custom_forward x_in c_in cond uncond bbox_id bb t_in org)
  else
    call_ext (ddim_custom_forward x_in c_in cond uncond bb t_in
                                  (forward_func sd bbox_id)).

(** *** apply_model *)

(** [N, C, H, W = x_in.shape] *)
Definition unpack4 (shp : list nat) : Res (nat * nat * nat * nat) :=
  match shp with
  | [n; c; h; w] => Ok (n, c, h, w)
  | _ => Raise ValueError
  end.

(** The four lists filled by the loop [for bbox in bboxes]. *)
Record TileLists := MkTileLists {
  x_tile_list : list tref;
  t_tile_list : list tref;
  attn_tile_list : list tref;
  image_cond_list : list tref
}.

(** [cond[k][0]] *)
Definition cond_first (d : CondDict) (k : string) : Res tref :=
  res_bind (dict_get d k) (fun v => cond_index v 0).

(** One round of [for bbox in bboxes]: slices are views, nothing is
    allocated or written. *)
Definition gather_tile (s : Self) (x_in t_in : tref) (cond : PyCond)
    (bb : bbox) (l : TileLists) : Res TileLists :=
  res_bind (slice_bbox x_in bb) (fun x_tile =>
  let xs := x_tile_list l ++ [x_tile] in
  let ts := t_tile_list l ++ [t_in] in
  match cond with
  | PDict d =>
      res_bind (cond_first d "c_concat") (fun image_cond =>
      res_bind (list_get (ref_shape image_cond) 2) (fun d2 =>
      res_bind
        (if (Z.of_nat d2 =? self_h s)%Z then
           res_bind (list_get (ref_shape image_cond) 3) (fun d3 =>
           if (Z.of_nat d3 =? self_w s)%Z
           then slice_bbox image_cond bb
           else Ok image_cond)
         else Ok image_cond) (fun image_cond =>
      res_bind (cond_first d "c_crossattn") (fun attn_tile =>
      Ok (MkTileLists xs ts (attn_tile_list l ++ [attn_tile])
                      (image_cond_list l ++ [image_cond]))))))
  | _ => Ok (MkTileLists xs ts (attn_tile_list l) (image_cond_list l))
  end).

Fixpoint gather_tiles (s : Self) (x_in t_in : tref) (cond : PyCond)
    (bboxes : list bbox) (l : TileLists) : Res TileLists :=
  match bboxes with
  | [] => Ok l
  | bb :: rest =>
      res_bind (gather_tile s x_in t_in cond bb l)
               (fun l' => gather_tiles s x_in t_in cond rest l')
  end.

(** The body of [for i, bbox in enumerate(bboxes)]:
    [w = self.per_tile_weights * self.rescale_factor[:, :, y0:y1, x0:x1]]
    [self.x_buffer[:, :, y0:y1, x0:x1] += x_tile_out[i*N:(i+1)*N, :, :, :] * w] *)
Definition fuse_tile (N : nat) (x_tile_out : tref) (i : nat) (bb : bbox)
    : M unit :=
  let* s := get_self in
  let* ptw := attr (per_tile_weights s) in
  let* rf := attr (rescale_factor s) in
  let* rsl := lift (slice_bbox rf bb) in
  let* w := binop Rmult ptw rsl in
  let* s := get_self in
  let* xb := attr (x_buffer s) in
  let* xsl := lift (slice_bbox xb bb) in
  let* osl := lift (slice_batch x_tile_out (Z.of_nat (i * N))
                                (Z.of_nat ((i + 1) * N))) in
  let* contribution := binop Rmult osl w in
  iop Rplus xsl contribution.

Fixpoint fuse_tiles (N : nat) (x_tile_out : tref) (i : nat)
    (bboxes : list bbox) : M unit :=
  match bboxes with
  | [] => ret tt
  | bb :: rest =>
      let* _ := fuse_tile N x_tile_out i bb in
      fuse_tiles N x_tile_out (S i) rest
  end.

(** The body of [for batch_id, bboxes in enumerate(self.batched_bboxes)]
    after the interruption check. *)
Definition process_batch (x_in t_in : tref) (cond : PyCond) (N : nat)
    (batch_id : nat) (bboxes : list bbox) : M unit :=
  let* s := get_self in
  let* l := lift (gather_tiles s x_in t_in cond bboxes
                               (MkTileLists [] [] [] [])) in
  let* x_tile := cat (x_tile_list l) in
  let* t_tile := cat (t_tile_list l) in
  let* attn_tile := cat (attn_tile_list l) in
  let* image_cond_tile := cat (image_cond_list l) in
  let c_tile := [("c_concat", CList [image_cond_tile]);
                 ("c_crossattn", CList [attn_tile])] in
  let* _ := call_ext (switch_controlnet_tensors batch_id N (length bboxes) true) in
  let* sd := get_sd_model in
  let* org := lift (getattr sd "md_org_apply_model") in
  let* x_tile_out := call_ext (invoke org x_tile t_tile c_tile) in
  let* _ := fuse_tiles N x_tile_out 0 bboxes in
  call_ext update_pbar.

(** The loop over the batches; [Some x_in] is the early [return x_in]. *)
Fixpoint global_sampling (x_in t_in : tref) (cond : PyCond) (N : nat)
    (batch_id : nat) (batches : list (list bbox)) : M (option tref) :=
  match batches with
  | [] => ret None
  | bboxes :: rest =>
      let* e := get_ext in
      if interrupted e then ret (Some x_in)
      else
        let* _ := process_batch x_in t_in cond N batch_id bboxes in
        global_sampling x_in t_in cond N (S batch_id) rest
  end.

(** The loop [for bbox_id, (bbox, cond, uncond, _) in
    enumerate(self.custom_bboxes)]. *)
Fixpoint custom_sampling (x_in t_in : tref) (c_in : PyCond) (bbox_id : nat)
    (regions : list Region) : M unit :=
  match regions with
  | [] => ret tt
  | (bb, cond, uncond, _) :: rest =>
      let* x_tile := lift (slice_bbox x_in bb) in
      let* x_tile_out :=
        custom_apply_model x_tile t_in c_in bbox_id bb cond uncond in
      let* s := get_self in
      let* cw := lift (list_get (custom_weights s) bbox_id) in
      let* _ := iop Rmult x_tile_out cw in
      let* s := get_self in
      let* xb := attr (x_buffer s) in
      let* xsl := lift (slice_bbox xb bb) in
      let* _ := iop Rplus xsl x_tile_out in
      let* _ := call_ext update_pbar in
      custom_sampling x_in t_in c_in (S bbox_id) rest
  end.

(** [1e-6] *)
Definition eps : R := (1 / 1000000)%R.

(** [if self.global_multiplier > 0 and abs(self.global_multiplier - 1.0) > 1e-6:
       self.x_buffer *= self.global_multiplier] *)
Definition rescale_buffer : M unit :=
  let* s := get_self in
  if Rlt_dec 0 (global_multiplier s) then
    if Rlt_dec eps (Rabs (global_multiplier s - 1)) then
      let* xb := attr (x_buffer s) in
      imul_scalar xb (global_multiplier s)
    else ret tt
  else ret tt.

(** The block under [# Custom region sampling]. *)
Definition custom_phase (x_in t_in : tref) (c_in : PyCond) : M unit :=
  let* s := get_self in
  if 0 <? length (custom_bboxes s) then
    let* _ := rescale_buffer in
    let* s := get_self in
    custom_sampling x_in t_in c_in 0 (custom_bboxes s)
  else ret tt.

(** The block under [# Global sampling]; [Some x_in] is the early
    [return x_in]. *)
Definition global_phase (x_in t_in : tref) (cond : PyCond) (N : nat)
    : M (option tref) :=
  let* s := get_self in
  if Rlt_dec 0 (global_multiplier s)
  then global_sampling x_in t_in cond N 0 (batched_bboxes s)
  else ret None.

Definition apply_model (x_in t_in : tref) (cond : PyCond) : M tref :=
  let c_in := cond in
  let* (N, _, H, W) := lift (unpack4 (ref_shape x_in)) in
  let* s := get_self in
  if negb ((Z.of_nat H =? self_h s)%Z && (Z.of_nat W =? self_w s)%Z)
  then raise AssertionError
  else
    let* _ := init x_in in
    let* early := global_phase x_in t_in cond N in
    match early with
    | Some r => ret r
    | None =>
        let* _ := custom_phase x_in t_in c_in in
        let* s := get_self in
        attr (x_buffer s)
    end.

End ApplyModel.

(** ** The formulas of the specification *)

(** One factor of the kernel as the specification writes it:
    [exp(-(x-mid)^2 / (w^2 * 2*0.01)) / sqrt(2*pi*0.01)]. *)
Definition g_spec (w : Z) (x mid : R) : R :=
  (exp (- (x - mid) ^ 2 / (IZR w ^ 2 * (2 * (1 / 100))))
   / sqrt (2 * PI * (1 / 100)))%R.

(** ** Vocabulary of the properties *)

(** A bounding box inside a canvas of height [hh] and width [ww]: the
    invariant of the data model, [0 <= x0 <= x1 <= width] and
    [0 <= y0 <= y1 <= height]. *)
Definition bbox_in (bb : bbox) (hh ww : nat) : Prop :=
  (0 <= b0 bb <= b2 bb)%Z /\ (b2 bb <= Z.of_nat ww)%Z /\
  (0 <= b1 bb <= b3 bb)%Z /\ (b3 bb <= Z.of_nat hh)%Z.

(** Row [y], column [x] of the canvas lies in the bounding box. *)
Definition in_bbox (bb : bbox) (y x : nat) : bool :=
  (Z.to_nat (b1 bb) <=? y) && (y <? Z.to_nat (b3 bb)) &&
  ((Z.to_nat (b0 bb) <=? x) && (x <? Z.to_nat (b2 bb))).

Section Behaviour.
Context `{C : Collaborators}.

(** The entry of the kernel of a region that falls on row [y], column [x]
    of the canvas. *)
Definition kernel_at (bb : bbox) (y x : nat) : R :=
  let bw := (b2 bb - b0 bb)%Z in
  let bh := (b3 bb - b1 bb)%Z in
  (f_value bw (Z.of_nat (y - Z.to_nat (b1 bb))) (IZR bh / 2)
   * f_value bw (Z.of_nat (x - Z.to_nat (b0 bb))) (IZR (bw - 1) / 2))%R.

(** What one custom region adds to the weight sum at [(y, x)]. *)
Definition region_term (region : Region) (y x : nat) : R :=
  let '(bb, _, _, m) := region in
  if in_bbox bb y x then (kernel_at bb y x * m)%R else 0%R.

(** The weight sum at [(y, x)] after the regions have been added, in
    order, to the value [v]. *)
Definition add_regions (regions : list Region) (v : R) (y x : nat) : R :=
  fold_left (fun acc region => (acc + region_term region y x)%R) regions v.

(** What the round of the fusion loop for tile number [i] of a batch, with
    bounding box [bb], adds to element [(n, c, y, x)] of the buffer: nothing
    outside the box, and inside it the prediction for that tile (rows
    [i*N .. (i+1)*N) of the batched output [x_tile_out]) times the kernel
    [ptw] of a tile times the rescale factor [rf] at that place of the
    canvas, broadcast over the batch and the channels. *)
Definition tile_term (h : heap) (N : nat) (x_tile_out ptw rf : tref)
    (n c y x : nat) (i : nat) (bb : bbox) : R :=
  if in_bbox bb y x then
    (tread h x_tile_out
       [i * N + n; c; y - Z.to_nat (b1 bb); x - Z.to_nat (b0 bb)]%nat
     * (tread h ptw [y - Z.to_nat (b1 bb); x - Z.to_nat (b0 bb)]%nat
        * tread h rf (bcast_index (ref_shape rf) [n; c; y; x])))%R
  else 0%R.

(** The value [v] after the terms of the tiles [bboxes], numbered from [i]
    as [enumerate] numbers them, have been added to it in order. *)
Fixpoint add_tiles (term : nat -> bbox -> R) (i : nat) (bboxes : list bbox)
    (v : R) : R :=
  match bboxes with
  | [] => v
  | bb :: rest => add_tiles term (S i) rest (v + term i bb)%R
  end.

(** The invariant of the data model for the bounding box of a region:
    inside the canvas and not empty. *)
Definition region_in (hh ww : nat) (region : Region) : Prop :=
  let '(bb, _, _, _) := region in
  bbox_in bb hh ww /\ (b0 bb < b2 bb)%Z /\ (b1 bb < b3 bb)%Z.

(** A view whose added dimensions all have size one, as [unsqueeze] makes
    them: distinct indices of the view are distinct elements. *)
Definition unit_new (v : list vdim) : Prop :=
  Forall (fun d => match d with VNew len => len = 1 | _ => True end) v.

(** A cached weight for a region: a tensor of shape [(1, 1, bh, bw)] for
    the size of the region's bounding box. *)
Definition weight_for (cw : tref) (region : Region) : Prop :=
  let '(bb, _, _, _) := region in
  ref_shape cw = [1; 1; Z.to_nat (b3 bb - b1 bb); Z.to_nat (b2 bb - b0 bb)] /\
  unit_new (view cw).

(** Steps that only allocate: [self] and [shared.sd_model] are the same
    afterwards, and the store has grown at its end. *)
Definition allocating {A} (m : M A) : Prop :=
  forall wd,
    self (final (m wd)) = self wd /\
    sd_model (final (m wd)) = sd_model wd /\
    exists k, store (final (m wd)) = store wd ++ k.

(** The world after [xb *= m]. *)
Definition scaled (xb : tref) (m : R) (wd : World) : World :=
  with_store (update_view xb (fun _ old => (old * m)%R) (store wd)) wd.

(** A collaborator that leaves every tensor it finds as it is: whether it
    returns or raises, the store it leaves is the one it was given,
    followed by what it allocated. *)
Definition only_allocates {A} (m : Ext A) : Prop :=
  forall h e, exists k, (final (m h e)).1 = h ++ k.

(** A collaborator whose result is a tensor it allocated. *)
Definition fresh_result (m : Ext tref) : Prop :=
  forall h e r s, m h e = Done r s -> length h <= base r.

(** The collaborators behave as functions on tensors: the model and the
    forward adapters return new tensors and write to none that exists;
    the ControlNet and progress hooks write to none either.  The DDIM
    adapter is given a function to call, and is only asked to behave
    when that function does. *)
Record functional_collaborators : Prop := {
  invoke_allocates :
    forall g x t c, only_allocates (invoke g x t c);
  invoke_fresh :
    forall g x t c, fresh_result (invoke g x t c);
  update_pbar_allocates : only_allocates update_pbar;
  switch_allocates :
    forall i n k d, only_allocates (switch_controlnet_tensors i n k d);
  set_control_allocates :
    forall i n, only_allocates (set_control_tensor i n);
  kdiff_allocates :
    forall x c cd ucd i bb sg g,
      only_allocates (kdiff_custom_forward x c cd ucd i bb sg g);
  kdiff_fresh :
    forall x c cd ucd i bb sg g,
      fresh_result (kdiff_custom_forward x c cd ucd i bb sg g);
  ddim_allocates :
    forall x c cd ucd bb ts fwd,
      (forall x' c' ts' uc', only_allocates (fwd x' c' ts' uc')) ->
      only_allocates (ddim_custom_forward x c cd ucd bb ts fwd);
  ddim_fresh :
    forall x c cd ucd bb ts fwd,
      (forall x' c' ts' uc', only_allocates (fwd x' c' ts' uc')) ->
      (forall x' c' ts' uc', fresh_result (fwd x' c' ts' uc')) ->
      fresh_result (ddim_custom_forward x c cd ucd bb ts fwd)
}.

(** No tensor that [self] writes to shares the storage cell [l]. *)
Definition safe_self (l : nat) (s : Self) : Prop :=
  (forall xb, x_buffer s = Some xb -> base xb <> l) /\
  Forall (fun r => base r <> l) (custom_weights s).

(** The cell [l] exists and [self] does not write to it. *)
Definition guarded (l : nat) (wd : World) : Prop :=
  l < length (store wd) /\ safe_self l (self wd).

(** The cell [l] has been left as it was, and is still guarded. *)
Definition keeps (l : nat) (wd wd' : World) : Prop :=
  store wd' !! l = store wd !! l /\
  length (store wd) <= length (store wd') /\
  guarded l wd'.

End Behaviour.

(** ** Vocabulary of the further properties *)

Section Invariants.
Context `{C : Collaborators}.

(** Every run of [m], whether it returns or raises, takes a world to one
    related to it by [R]. *)
Definition steps (R : World -> World -> Prop) {A} (m : M A) : Prop :=
  forall wd, R wd (final (m wd)).

(** A relation between the worlds before and after that can be followed
    along a run: it is a preorder, and blind to the contents of the tensor
    store. *)
Record frame_rel (Rel : World -> World -> Prop) : Prop := {
  fr_refl : forall wd, Rel wd wd;
  fr_trans : forall a b c, Rel a b -> Rel b c -> Rel a c;
  fr_store : forall wd h, Rel wd (with_store h wd)
}.

(** What a denoising step must leave alone: the attributes of
    [shared.sd_model], the registered callbacks, the tiling and region
    configuration of [self], the tensors [weights] and [per_tile_weights]
    as references, the number of cached custom weights, and a rescale
    factor that exists. *)
Definition same_setup (wd wd' : World) : Prop :=
  sd_model wd' = sd_model wd /\
  before_image_saved wd' = before_image_saved wd /\
  tile_w (self wd') = tile_w (self wd) /\
  tile_h (self wd') = tile_h (self wd) /\
  self_w (self wd') = self_w (self wd) /\
  self_h (self wd') = self_h (self wd) /\
  is_kdiff (self wd') = is_kdiff (self wd) /\
  global_multiplier (self wd') = global_multiplier (self wd) /\
  batched_bboxes (self wd') = batched_bboxes (self wd) /\
  custom_bboxes (self wd') = custom_bboxes (self wd) /\
  weights (self wd') = weights (self wd) /\
  per_tile_weights (self wd') = per_tile_weights (self wd) /\
  length (custom_weights (self wd')) = length (custom_weights (self wd)) /\
  (is_Some (rescale_factor (self wd)) ->
   rescale_factor (self wd') = rescale_factor (self wd)).

(** The same, and the collaborators have not been called. *)
Definition quiet (wd wd' : World) : Prop :=
  same_setup wd wd' /\ ext wd' = ext wd.

(** The tensor [r] holds the rows of [u] followed by the rows of [c], as
    [torch.cat([u, c])] makes it; all three are tensors of the store. *)
Definition rows_of (h : list tensor) (u c r : tref) : Prop :=
  base u < length h /\ base c < length h /\ base r < length h /\
  exists nu nc rest,
    ref_shape u = nu :: rest /\ ref_shape c = nc :: rest /\
    ref_shape r = (nu + nc) :: rest /\
    forall i idx, i < nu + nc -> length idx = length rest ->
      tread h r (i :: idx) =
        if i <? nu then tread h u (i :: idx) else tread h c ((i - nu) :: idx).

(** The tensors of a conditioning value exist in the store. *)
Definition cond_valid (h : list tensor) (v : CondVal) : Prop :=
  match v with
  | CTensor t => base t < length h
  | CList ts => Forall (fun t => base t < length h) ts
  end.

(** The entry [rv] that [forward_func] builds for the entry [cv] of [c]
    under the key [k]: of the same kind, a tensor or a list of the same
    length, and each tensor in it is the matching tensor of the
    unconditional dict [uc] followed by that of [c]. *)
Definition entry_rows (h : list tensor) (uc : CondDict) (k : string)
    (cv rv : CondVal) : Prop :=
  match cv with
  | CTensor ct =>
      exists ut r,
        dict_get uc k = Ok (CTensor ut) /\ rv = CTensor r /\
        rows_of h ut ct r
  | CList cs =>
      exists rs,
        rv = CList rs /\ length rs = length cs /\
        forall j cj, cs !! j = Some cj ->
          exists uk uj rj,
            dict_get uc k = Ok uk /\ cond_index uk j = Ok uj /\
            rs !! j = Some rj /\ rows_of h uj cj rj
  end.

End Invariants.

(** ** A concrete set of collaborators

    A small instance of the collaborators, used to run the methods on
    concrete inputs: the stored model returns a new tensor holding its
    input plus one, and the interruption flag is raised once the model has
    been called a given number of times. *)

Module Example.

Record ExState := MkExState {
  model_calls : nat;
  interrupt_after : option nat;
  progress : nat
}.

#[export] Instance ex_externals : Externals := {|
  Callable := nat;
  RegionCond := unit;
  ControlStates := list (bbox * R);
  ExtState := ExState
|}.

Definition ex_invoke (_ : nat) (x _ : tref) (_ : CondDict) : Ext tref :=
  fun h e =>
    Done (whole (length h) (ref_shape x))
         (h ++ [Tensor (ref_shape x) (ref_device h x) (ref_dtype h x)
                  (fun idx => (tread h x idx + 1)%R)],
          MkExState (S (model_calls e)) (interrupt_after e) (progress e)).

Definition ex_interrupted (e : ExState) : bool :=
  match interrupt_after e with
  | Some k => k <=? model_calls e
  | None => false
  end.

Definition ex_super_init_custom_bbox (gm : R) (states : list (bbox * R))
    : M unit :=
  modify_self (fun s =>
    MkSelf (tile_w s) (tile_h s) (self_w s) (self_h s) (is_kdiff s) gm
      (batched_bboxes s)
      (custom_bboxes s ++ map (fun '(bb, m) => (bb, tt, tt, m)) states)
      (weights s) (x_buffer s) (custom_weights s) (per_tile_weights s)
      (rescale_factor s)).

Definition ex_update_pbar : Ext unit :=
  fun h e =>
    Done tt (h, MkExState (model_calls e) (interrupt_after e) (S (progress e))).

#[export] Instance ex_collaborators : Collaborators := {|
  devices_device := 0;
  invoke := ex_invoke;
  self_apply_model := 0;
  interrupted := ex_interrupted;
  super_init_custom_bbox := ex_super_init_custom_bbox;
  update_pbar := ex_update_pbar;
  switch_controlnet_tensors := fun _ _ _ _ => ext_ret tt;
  set_control_tensor := fun _ _ => ext_ret tt;
  kdiff_custom_forward := fun x _ _ _ _ _ sigma org => ex_invoke org x sigma [];
  ddim_custom_forward := fun x _ _ _ _ ts fwd => fwd x [] ts []
|}.

(** An instance with nothing set up, and the world around it. *)
Definition self0 : Self :=
  MkSelf 2 2 2 2 true 1%R [] [] None None [] None None.

Definition world0 : World :=
  MkWorld [] self0 (MkObj ∅ ∅) [] (MkExState 0 None 0).

(** A canvas of one row and three columns, tiled by three 1-by-1 tiles in
    three batches.  Cells of the store: 0 the canvas [x_in], 1 the
    timestep, 2 the spatial conditioning, 3 the cross-attention
    conditioning, 4 the weight sums, 5 the kernel of a tile.  Every tile
    kernel has the one entry [k], and one tile covers each column, so the
    weight sums are [k] everywhere. *)

(** The one entry of the 1-by-1 kernel of the weight generator. *)
Definition kernel11 : R :=
  (f_value 1 0 (IZR 1 / 2) * f_value 1 0 (IZR (1 - 1) / 2))%R.

Definition canvas_store (k : R) : list tensor :=
  [ Tensor [1; 1; 1; 3] 0 float32
      (fun idx => match idx with [_; _; _; x] => INR x | _ => 0%R end);
    Tensor [1] 0 float32 (fun _ => 1%R);
    Tensor [1; 4; 1; 3] 0 float32 (fun _ => 0%R);
    Tensor [1; 2; 2] 0 float32 (fun _ => 0%R);
    Tensor [1; 1; 1; 3] 0 float32 (fun _ => k);
    Tensor [1; 1] 0 float32 (fun _ => k) ].

Definition x_in0 : tref := whole 0 [1; 1; 1; 3].
Definition t_in0 : tref := whole 1 [1].
Definition cond0 : PyCond :=
  PDict [("c_concat", CList [whole 2 [1; 4; 1; 3]]);
         ("c_crossattn", CList [whole 3 [1; 2; 2]])].

Definition three_batches : list (list bbox) :=
  [[BBox 0 0 1 1]; [BBox 1 0 2 1]; [BBox 2 0 3 1]].

Definition canvas_self (gm : R) (regions : list Region) (cw : list tref)
    : Self :=
  MkSelf 1 1 3 1 true gm three_batches regions
    (Some (whole 4 [1; 1; 1; 3])) None cw (Some (whole 5 [1; 1])) None.

Definition hooked_model : PyObj :=
  MkObj {["apply_model" := 0; "md_org_apply_model" := 7]} ∅.

(** The world at the first denoising step: multiplier [gm], no custom
    region, and the interruption flag raised after [stop] model calls. *)
Definition canvas_world (k gm : R) (stop : option nat) : World :=
  MkWorld (canvas_store k) (canvas_self gm [] []) hooked_model []
    (MkExState 0 stop 0).

(** The same canvas before [init_custom_bbox] has run. *)
Definition setup_world (k : R) : World :=
  MkWorld (canvas_store k) (canvas_self 1 [] []) hooked_model []
    (MkExState 0 None 0).

(** One custom region over the two left columns, with multiplier 3. *)
Definition one_region : list (bbox * R) := [(BBox 0 0 2 1, 3%R)].

(** The world in the middle of a step, after the model has been called on
    a batch of two tiles, the two left columns: cell 6 is [x_buffer], cell
    7 the rescale factor, and cell 8 the output of the model for the batch,
    row [i] for tile [i]. *)
Definition weights4 : tref := whole 4 [1; 1; 1; 3].
Definition kernel5 : tref := whole 5 [1; 1].
Definition buffer6 : tref := whole 6 [1; 1; 1; 3].
Definition rescale7 : tref := whole 7 [1; 1; 1; 3].
Definition output2 : tref := whole 8 [2; 1; 1; 1].

Definition batch_world (k : R) : World :=
  MkWorld
    (canvas_store k ++
     [ Tensor [1; 1; 1; 3] 0 float32 (fun _ => 0%R);
       Tensor [1; 1; 1; 3] 0 float32 (fun _ => (1 / k)%R);
       Tensor [2; 1; 1; 1] 0 float32
         (fun idx => match idx with i :: _ => (5 + INR i)%R | [] => 0%R end) ])
    (MkSelf 1 1 3 1 true 1 [[BBox 0 0 1 1; BBox 1 0 2 1]; [BBox 2 0 3 1]] []
       (Some weights4) (Some buffer6) [] (Some kernel5) (Some rescale7))
    hooked_model [] (MkExState 0 None 0).

(** A canvas whose instance has a custom region but no cached weight for
    it, as if the region had been added without [init_custom_bbox]. *)
Definition unprepared_world : World :=
  MkWorld (canvas_store kernel11)
    (canvas_self 1 [(BBox 0 0 2 1, tt, tt, 3%R)] []) hooked_model []
    (MkExState 0 None 0).

(** The canvas before [get_global_weights] has been called. *)
Definition kernelless_world : World :=
  MkWorld (canvas_store kernel11)
    (MkSelf 1 1 3 1 true 1 three_batches [] (Some weights4) None [] None None)
    hooked_model [] (MkExState 0 None 0).

(** Collaborators whose k-diffusion adapter hands back the tile it was
    given instead of a new tensor. *)
Definition echo_collaborators : Collaborators := {|
  devices_device := 0;
  invoke := ex_invoke;
  self_apply_model := 0;
  interrupted := ex_interrupted;
  super_init_custom_bbox := ex_super_init_custom_bbox;
  update_pbar := ex_update_pbar;
  switch_controlnet_tensors := fun _ _ _ _ => ext_ret tt;
  set_control_tensor := fun _ _ => ext_ret tt;
  kdiff_custom_forward := fun x _ _ _ _ _ _ _ => ext_ret x;
  ddim_custom_forward := fun x _ _ _ _ ts fwd => fwd x [] ts []
|}.

(** The canvas at a later step, with a multiplier of zero for the tiles and
    the custom region over the two left columns: cell 6 is the cached
    weight of the region, 2 everywhere, and cell 7 the rescale factor. *)
Definition echo_world : World :=
  MkWorld
    (canvas_store 1 ++
     [ Tensor [1; 1; 1; 2] 0 float32 (fun _ => 2%R);
       Tensor [1; 1; 1; 3] 0 float32 (fun _ => 1%R) ])
    (MkSelf 1 1 3 1 true 0 three_batches [(BBox 0 0 2 1, tt, tt, 3%R)]
       (Some weights4) None [whole 6 [1; 1; 1; 2]] (Some kernel5)
       (Some rescale7))
    hooked_model [] (MkExState 0 None 0).

(** The canvas with a custom region set up by [init_custom_bbox], and the
    same after the first [init]. *)
Definition region_world : World :=
  final (init_custom_bbox 2%R one_region (setup_world kernel11)).

Definition stepped_world : World := final (init x_in0 region_world).

End Example.

(** * Properties *)

(** ** The weight generator *)

Section GaussianFacts.
Context `{C : Collaborators}.

Lemma res_mapM_ok {A B} (g : A -> Res B) (g' : A -> B) (l : list A) :
  (forall a, g a = Ok (g' a)) -> res_mapM g l = Ok (map g' l).
Proof.
  intros Hg. induction l as [|a l IH]; simpl; [reflexivity|].
  rewrite Hg, IH. reflexivity.
Qed.

Lemma length_range (n : Z) : length (range n) = Z.to_nat n.
Proof. unfold range. rewrite length_map, length_seq. reflexivity. Qed.

Lemma nth_range_map (g : Z -> R) (n : Z) (i : nat) :
  i < Z.to_nat n -> nth i (map g (range n)) 0%R = g (Z.of_nat i).
Proof.
  intros Hi. unfold range. rewrite map_map.
  rewrite (nth_indep _ 0%R (g (Z.of_nat 0))) by (rewrite length_map, length_seq; lia).
  rewrite (map_nth (fun k => g (Z.of_nat k)) (seq 0 (Z.to_nat n)) 0 i).
  rewrite seq_nth by lia. reflexivity.
Qed.

End GaussianFacts.

(** ** Facts about views and the store *)

Section StoreFacts.
Context `{X : Externals}.

Lemma view_shape_whole (shp : list nat) : view_shape (map (VSlice 0) shp) = shp.
Proof. induction shp as [|d shp IH]; simpl; congruence. Qed.

Lemma ref_shape_whole (l : loc) (shp : list nat) : ref_shape (whole l shp) = shp.
Proof. apply view_shape_whole. Qed.

Lemma to_base_whole (shp idx : list nat) :
  length idx = length shp -> to_base (map (VSlice 0) shp) idx = idx.
Proof.
  revert idx. induction shp as [|d shp IH]; intros [|i idx] Hl; simpl in *;
    try discriminate; try reflexivity.
  rewrite IH by lia. reflexivity.
Qed.

Lemma to_base_view_whole (l : nat) (shp idx : list nat) :
  length idx = length shp -> to_base (view (whole l shp)) idx = idx.
Proof. apply to_base_whole. Qed.

Lemma tread_alloc_new (h : heap) (t : tensor) (shp idx : list nat) :
  length idx = length shp ->
  tread (h ++ [t]) (whole (length h) shp) idx = t_data t idx.
Proof.
  intros Hl. unfold tread, whole. cbn [base view].
  rewrite list_lookup_middle by reflexivity.
  rewrite to_base_whole by assumption. reflexivity.
Qed.

Lemma tread_app_old (h k : heap) (r : tref) (idx : list nat) :
  base r < length h -> tread (h ++ k) r idx = tread h r idx.
Proof.
  intros Hb. unfold tread. rewrite lookup_app_l by assumption. reflexivity.
Qed.

Lemma ref_device_new (h : heap) (t : tensor) shp :
  ref_device (h ++ [t]) (whole (length h) shp) = t_device t.
Proof.
  unfold ref_device, whole. cbn [base].
  rewrite list_lookup_middle by reflexivity. reflexivity.
Qed.

Lemma ref_dtype_new (h : heap) (t : tensor) shp :
  ref_dtype (h ++ [t]) (whole (length h) shp) = t_dtype t.
Proof.
  unfold ref_dtype, whole. cbn [base].
  rewrite list_lookup_middle by reflexivity. reflexivity.
Qed.

End StoreFacts.

Section GaussianRun.
Context `{C : Collaborators}.

(** What a call of the method does to the world, given the array. *)
Lemma gaussian_weights_run (wd : World) (aw ah : option Z) (w : tensor) :
  gaussian_array (default (tile_w (self wd)) aw) (default (tile_h (self wd)) ah)
    = Ok w ->
  t_dtype w = float64 ->
  _gaussian_weights aw ah wd =
    Done (whole (length (store wd ++ [w])) (t_shape w))
         (with_store
            ((store wd ++ [w]) ++
             [Tensor (t_shape w) devices_device float32
                   (fun idx => tread (store wd ++ [w])
                                 (whole (length (store wd)) (t_shape w)) idx)])
            wd).
Proof.
  intros Hw Hdt.
  unfold _gaussian_weights, bind, get_self, lift. rewrite Hw.
  unfold alloc, st, alloc_h, to_, bind, get_store. cbn [store with_store].
  rewrite ref_dtype_new, Hdt.
  rewrite andb_false_r. unfold alloc, st, alloc_h. cbn [store with_store t_shape].
  rewrite ref_shape_whole. reflexivity.
Qed.

Lemma gaussian_weights_raise (wd : World) (aw ah : option Z) (e : Exn) :
  gaussian_array (default (tile_w (self wd)) aw) (default (tile_h (self wd)) ah)
    = Raise e ->
  _gaussian_weights aw ah wd = Fail e wd.
Proof.
  intros Hw. unfold _gaussian_weights, bind, get_self, lift. rewrite Hw.
  reflexivity.
Qed.

Lemma f_nonzero (tile_w x : Z) (midpoint : R) :
  tile_w <> 0%Z -> f tile_w x midpoint var_default = Ok (f_value tile_w x midpoint).
Proof.
  intros Hw. unfold f.
  destruct (Z.eqb_spec (tile_w * tile_w) 0) as [E|E]; [nia|reflexivity].
Qed.

Lemma x_probs_nonzero (tile_w : Z) :
  tile_w <> 0%Z ->
  x_probs tile_w =
    Ok (map (fun x => f_value tile_w x (IZR (tile_w - 1) / 2)) (range tile_w)).
Proof.
  intros Hw. unfold x_probs. apply res_mapM_ok.
  intros a. apply f_nonzero, Hw.
Qed.

Lemma y_probs_nonzero (tile_w tile_h : Z) :
  tile_w <> 0%Z ->
  y_probs tile_w tile_h =
    Ok (map (fun y => f_value tile_w y (IZR tile_h / 2)) (range tile_h)).
Proof.
  intros Hw. unfold y_probs. apply res_mapM_ok.
  intros a. apply f_nonzero, Hw.
Qed.

Lemma gaussian_array_nonzero (tile_w tile_h : Z) :
  tile_w <> 0%Z ->
  gaussian_array tile_w tile_h =
    Ok (outer (map (fun y => f_value tile_w y (IZR tile_h / 2)) (range tile_h))
              (map (fun x => f_value tile_w x (IZR (tile_w - 1) / 2))
                   (range tile_w))).
Proof.
  intros Hw. unfold gaussian_array.
  rewrite x_probs_nonzero, y_probs_nonzero by assumption. reflexivity.
Qed.

Lemma f_value_spec (w : Z) (x : nat) (mid : R) :
  w <> 0%Z -> f_value w (Z.of_nat x) mid = g_spec w (INR x) mid.
Proof.
  intros Hw. unfold f_value, g_spec, var_default.
  rewrite <- INR_IZR_INZ, mult_IZR.
  assert (IZR w <> 0%R) by (apply not_0_IZR; assumption).
  f_equal. f_equal. field. assumption.
Qed.

(** Entry [(y, x)] of the tensor returned for a width other than zero. *)
Lemma gaussian_weights_entries (wd : World) (w h : Z) :
  w <> 0%Z ->
  exists r wd',
    _gaussian_weights (Some w) (Some h) wd = Done r wd' /\
    ref_shape r = [Z.to_nat h; Z.to_nat w] /\
    base r = S (length (store wd)) /\
    length (store wd') = S (S (length (store wd))) /\
    forall y x, y < Z.to_nat h -> x < Z.to_nat w ->
      tread (store wd') r [y; x] =
        (f_value w (Z.of_nat y) (IZR h / 2)
         * f_value w (Z.of_nat x) (IZR (w - 1) / 2))%R.
Proof.
  intros Hw.
  pose proof (gaussian_array_nonzero w h Hw) as Ha.
  eexists _, _. split.
  { apply (gaussian_weights_run wd (Some w) (Some h) _ Ha). reflexivity. }
  cbn [store with_store outer t_shape].
  rewrite ref_shape_whole, !length_map, !length_range.
  split; [reflexivity|]. split.
  { cbn [whole base]. rewrite length_app. simpl. lia. }
  split.
  { rewrite !length_app. simpl. lia. }
  intros y x Hy Hx.
  rewrite tread_alloc_new by reflexivity.
  cbn [t_data].
  rewrite tread_alloc_new by reflexivity.
  cbn [t_data outer].
  rewrite !nth_range_map by assumption. reflexivity.
Qed.

(** C1.  For positive integers [w] and [h] the weight generator returns an
    [h]-by-[w] tensor whose entry [(y, x)] is [g(y, h/2) * g(x, (w-1)/2)]
    with [g(x, mid) = exp(-(x-mid)^2 / (w^2 * 2*0.01)) / sqrt(2*pi*0.01)]:
    the vertical factor has midpoint [h/2], the horizontal one [(w-1)/2],
    both are scaled by [w^2], and the kernel is their outer product. *)
Theorem gaussian_weights_formula (wd : World) (w h : Z) :
  (0 < w)%Z -> (0 < h)%Z ->
  exists r wd',
    _gaussian_weights (Some w) (Some h) wd = Done r wd' /\
    ref_shape r = [Z.to_nat h; Z.to_nat w] /\
    forall y x, y < Z.to_nat h -> x < Z.to_nat w ->
      tread (store wd') r [y; x] =
        (g_spec w (INR y) (IZR h / 2) * g_spec w (INR x) (IZR (w - 1) / 2))%R.
Proof.
  intros Hw Hh.
  destruct (gaussian_weights_entries wd w h) as (r & wd' & Hrun & Hshp & _ & _ & Hval);
    [lia|].
  exists r, wd'. split; [assumption|]. split; [assumption|].
  intros y x Hy Hx. rewrite (Hval y x Hy Hx).
  rewrite !f_value_spec by lia. reflexivity.
Qed.

(** *** Size of the entries *)

Lemma sqrt_var_pos : (0 < sqrt (2 * PI * var_default))%R.
Proof.
  apply sqrt_lt_R0. unfold var_default. pose proof PI_RGT_0. lra.
Qed.

Lemma f_value_pos (w x : Z) (mid : R) : (0 < f_value w x mid)%R.
Proof.
  unfold f_value. apply Rdiv_lt_0_compat; [apply exp_pos | apply sqrt_var_pos].
Qed.

Lemma IZR_square_pos (w : Z) : w <> 0%Z -> (0 < IZR (w * w))%R.
Proof. intros Hw. apply IZR_lt. nia. Qed.

(** The exponent, with its positive scale factored out. *)
Lemma exponent_scale (w : Z) (a : R) :
  (- a * a / IZR (w * w) / (2 * var_default)
   = - (a * a * (/ IZR (w * w) * / (2 * var_default))))%R.
Proof. unfold Rdiv. ring. Qed.

Lemma scale_pos (w : Z) :
  w <> 0%Z -> (0 < / IZR (w * w) * / (2 * var_default))%R.
Proof.
  intros Hw. apply Rmult_lt_0_compat; apply Rinv_0_lt_compat.
  - apply IZR_square_pos, Hw.
  - unfold var_default. lra.
Qed.

Lemma exp_le_compat (a b : R) : (a <= b)%R -> (exp a <= exp b)%R.
Proof.
  intros [Hlt|Heq].
  - left. apply exp_increasing. exact Hlt.
  - rewrite Heq. right. reflexivity.
Qed.

Lemma f_value_le (w x : Z) (mid : R) :
  w <> 0%Z -> (f_value w x mid <= / sqrt (2 * PI * var_default))%R.
Proof.
  intros Hw. unfold f_value.
  pose proof sqrt_var_pos as Hs. pose proof (scale_pos w Hw) as Hk.
  rewrite exponent_scale. unfold Rdiv.
  rewrite <- (Rmult_1_l (/ sqrt (2 * PI * var_default))) at 2.
  apply Rmult_le_compat_r; [left; apply Rinv_0_lt_compat; exact Hs|].
  rewrite <- exp_0 at 1. apply exp_le_compat.
  pose proof (Rle_0_sqr (IZR x - mid)) as Hsq. unfold Rsqr in Hsq.
  assert (0 <= (IZR x - mid) * (IZR x - mid)
               * (/ IZR (w * w) * / (2 * var_default)))%R
    by (apply Rmult_le_pos; [exact Hsq | left; exact Hk]).
  lra.
Qed.

(** An index nearer to the midpoint has the larger factor. *)
Lemma f_value_mono (w x x' : Z) (mid : R) :
  w <> 0%Z ->
  (Rabs (IZR x - mid) <= Rabs (IZR x' - mid))%R ->
  (f_value w x' mid <= f_value w x mid)%R.
Proof.
  intros Hw Hd. unfold f_value.
  pose proof sqrt_var_pos as Hs. pose proof (scale_pos w Hw) as Hk.
  rewrite !exponent_scale. unfold Rdiv.
  apply Rmult_le_compat_r; [left; apply Rinv_0_lt_compat; exact Hs|].
  apply exp_le_compat. apply Ropp_le_contravar.
  apply Rmult_le_compat_r; [left; exact Hk|].
  apply Rsqr_le_abs_1 in Hd. exact Hd.
Qed.

(** On its midpoint a factor has its largest value. *)
Lemma f_value_at_midpoint (w x : Z) (mid : R) :
  IZR x = mid -> f_value w x mid = (/ sqrt (2 * PI * var_default))%R.
Proof.
  intros <-. unfold f_value. rewrite exponent_scale.
  replace (- ((IZR x - IZR x) * (IZR x - IZR x)
              * (/ IZR (w * w) * / (2 * var_default))))%R with 0%R by ring.
  rewrite exp_0. unfold Rdiv. ring.
Qed.

Lemma inv_sqrt_var_square :
  (/ sqrt (2 * PI * var_default) * / sqrt (2 * PI * var_default)
   = / (2 * PI * var_default))%R.
Proof.
  pose proof sqrt_var_pos as Hs.
  rewrite <- Rinv_mult. rewrite sqrt_sqrt; [reflexivity|].
  unfold var_default. pose proof PI_RGT_0. lra.
Qed.

(** C8, as amended.  For positive integers [w] and [h] every entry of the
    kernel is non-negative and at most [1/(2*pi*0.01)] (about 15.9), and an
    entry is at least as large as any entry that is no nearer to the
    midpoints [h/2] and [(w-1)/2] on both axes: the maximum is at the
    centre. (The exact values are positive; the conversion to float32,
    whose rounding the model leaves out, can take a small one to zero.) *)
Theorem gaussian_weights_bounds (wd : World) (w h : Z) :
  (0 < w)%Z -> (0 < h)%Z ->
  exists r wd',
    _gaussian_weights (Some w) (Some h) wd = Done r wd' /\
    ref_shape r = [Z.to_nat h; Z.to_nat w] /\
    (forall y x, y < Z.to_nat h -> x < Z.to_nat w ->
       (0 <= tread (store wd') r [y; x] <= / (2 * PI * (1 / 100)))%R) /\
    (forall y x y' x',
       y < Z.to_nat h -> x < Z.to_nat w -> y' < Z.to_nat h -> x' < Z.to_nat w ->
       (Rabs (INR y - IZR h / 2) <= Rabs (INR y' - IZR h / 2))%R ->
       (Rabs (INR x - IZR (w - 1) / 2) <= Rabs (INR x' - IZR (w - 1) / 2))%R ->
       (tread (store wd') r [y'; x'] <= tread (store wd') r [y; x])%R).
Proof.
  intros Hw Hh.
  destruct (gaussian_weights_entries wd w h) as (r & wd' & Hrun & Hshp & _ & _ & Hval);
    [lia|].
  assert (Hw0 : w <> 0%Z) by lia.
  exists r, wd'. split; [assumption|]. split; [assumption|]. split.
  - intros y x Hy Hx. rewrite (Hval y x Hy Hx).
    pose proof (f_value_pos w (Z.of_nat y) (IZR h / 2)) as P1.
    pose proof (f_value_pos w (Z.of_nat x) (IZR (w - 1) / 2)) as P2.
    pose proof (f_value_le w (Z.of_nat y) (IZR h / 2) Hw0) as L1.
    pose proof (f_value_le w (Z.of_nat x) (IZR (w - 1) / 2) Hw0) as L2.
    split; [apply Rmult_le_pos; lra|].
    change (1 / 100)%R with var_default. rewrite <- inv_sqrt_var_square.
    apply Rmult_le_compat; lra.
  - intros y x y' x' Hy Hx Hy' Hx' Dy Dx.
    rewrite (Hval y x Hy Hx), (Hval y' x' Hy' Hx').
    rewrite !INR_IZR_INZ in Dy, Dx.
    pose proof (f_value_pos w (Z.of_nat y') (IZR h / 2)) as P1.
    pose proof (f_value_pos w (Z.of_nat x') (IZR (w - 1) / 2)) as P2.
    pose proof (f_value_mono w _ _ _ Hw0 Dy) as M1.
    pose proof (f_value_mono w _ _ _ Hw0 Dx) as M2.
    apply Rmult_le_compat; lra.
Qed.

(** *** Non-positive sizes *)

Lemma range_nonpos (n : Z) : (n <= 0)%Z -> range n = [].
Proof.
  intros Hn. unfold range. replace (Z.to_nat n) with 0 by lia. reflexivity.
Qed.

Lemma range_pos (n : Z) :
  (0 < n)%Z -> exists l, range n = 0%Z :: l.
Proof.
  intros Hn. unfold range.
  destruct (Z.to_nat n) as [|k] eqn:E; [lia|]. simpl. eauto.
Qed.

Lemma gaussian_array_zero_width (h : Z) :
  gaussian_array 0 h =
    if (0 <? h)%Z then Raise ZeroDivisionError else Ok (outer [] []).
Proof.
  unfold gaussian_array, x_probs, y_probs. rewrite (range_nonpos 0) by lia.
  simpl. destruct (Z.ltb_spec 0 h) as [Hh|Hh].
  - destruct (range_pos h Hh) as [l ->]. reflexivity.
  - rewrite range_nonpos by lia. reflexivity.
Qed.

(** C7, as amended.  The weight generator does not validate its sizes.
    For [w <= 0] or [h <= 0] it returns an empty tensor of shape
    [(max h 0, max w 0)], except that a zero width with a positive height
    raises [ZeroDivisionError] from the division by [tile_w*tile_w]. *)
Theorem gaussian_weights_nonpositive (wd : World) (w h : Z) :
  (w <= 0 \/ h <= 0)%Z ->
  if (w =? 0)%Z && (0 <? h)%Z
  then _gaussian_weights (Some w) (Some h) wd = Fail ZeroDivisionError wd
  else
    exists r wd',
      _gaussian_weights (Some w) (Some h) wd = Done r wd' /\
      ref_shape r = [Z.to_nat h; Z.to_nat w] /\
      (Z.to_nat h = 0 \/ Z.to_nat w = 0).
Proof.
  intros Hwh. destruct (Z.eqb_spec w 0) as [->|Hw]; cbn [andb].
  - pose proof (gaussian_array_zero_width h) as Ha.
    destruct (Z.ltb_spec 0 h) as [Hh|Hh].
    + apply gaussian_weights_raise. exact Ha.
    + eexists _, _. split.
      { apply (gaussian_weights_run wd (Some 0%Z) (Some h) _ Ha). reflexivity. }
      rewrite ref_shape_whole. cbn [outer t_shape length].
      replace (Z.to_nat h) with 0 by lia. split; [reflexivity|]. left; reflexivity.
  - destruct (gaussian_weights_entries wd w h Hw)
      as (r & wd' & Hrun & Hshp & _).
    exists r, wd'. split; [assumption|]. split; [assumption|]. lia.
Qed.

End GaussianRun.

(** ** hook and unhook *)

Section HookFacts.
Context `{C : Collaborators}.

Lemma hasattr_false (o : PyObj) (name : string) :
  hasattr o name = false -> inst o !! name = None /\ cls o !! name = None.
Proof.
  unfold hasattr, getattr.
  destruct (inst o !! name); [discriminate|].
  destruct (cls o !! name); [discriminate|]. auto.
Qed.

Lemma unhook_unattached (wd : World) :
  hasattr (sd_model wd) "md_org_apply_model" = false ->
  unhook wd = Done tt wd.
Proof.
  intros Hno. unfold unhook, bind, get_sd_model. rewrite Hno. reflexivity.
Qed.

(** C9.  On a model that is not attached and whose prediction attribute
    is [fn], [hook] followed by [unhook] leaves the attribute equal to [fn]
    and the marker [md_org_apply_model] absent; in between the attribute is
    [self.apply_model] and the marker holds [fn].  [unhook] on a model that
    is not attached changes nothing. *)
Theorem unhook_after_hook (wd : World) (fn : Callable) :
  getattr (sd_model wd) "apply_model" = Ok fn ->
  hasattr (sd_model wd) "md_org_apply_model" = false ->
  unhook wd = Done tt wd /\
  exists wd1 wd2,
    hook wd = Done tt wd1 /\
    getattr (sd_model wd1) "apply_model" = Ok self_apply_model /\
    getattr (sd_model wd1) "md_org_apply_model" = Ok fn /\
    unhook wd1 = Done tt wd2 /\
    getattr (sd_model wd2) "apply_model" = Ok fn /\
    hasattr (sd_model wd2) "md_org_apply_model" = false /\
    store wd2 = store wd /\ self wd2 = self wd /\ ext wd2 = ext wd.
Proof.
  intros Hfn Hno. split; [apply unhook_unattached; exact Hno|].
  destruct (hasattr_false _ _ Hno) as [Hi Hc].
  eexists _, _. split.
  { unfold hook, bind, get_sd_model, lift, set_sd_model,
      before_image_saved_callback, modify_callbacks.
    rewrite Hno, Hfn. reflexivity. }
  cbn [sd_model with_sd_model with_callbacks].
  split.
  { unfold getattr, setattr. cbn [inst cls]. by simplify_map_eq. }
  split.
  { unfold getattr, setattr. cbn [inst cls]. by simplify_map_eq. }
  split.
  { unfold unhook, bind, get_sd_model, lift, set_sd_model.
    cbn [sd_model with_sd_model with_callbacks].
    unfold hasattr, getattr, setattr, delattr. cbn [inst cls].
    simplify_map_eq. reflexivity. }
  cbn [sd_model with_sd_model with_callbacks store self ext].
  split.
  { unfold getattr. cbn [inst cls]. by simplify_map_eq. }
  split.
  { unfold hasattr, getattr. cbn [inst cls]. by simplify_map_eq. }
  auto.
Qed.

End HookFacts.

(** ** Writes through views *)

Section UpdateFacts.
Context `{X : Externals}.

Lemma length_update_view (r : tref) g (h : list tensor) :
  length (update_view r g h) = length h.
Proof.
  unfold update_view. destruct (h !! base r); [|reflexivity].
  apply length_insert.
Qed.

Lemma update_view_other (r : tref) g (h : list tensor) (l : nat) :
  l <> base r -> update_view r g h !! l = h !! l.
Proof.
  intros Hl. unfold update_view. destruct (h !! base r); [|reflexivity].
  apply list_lookup_insert_ne. congruence.
Qed.

Lemma update_view_same (r : tref) g (h : list tensor) (t : tensor) :
  h !! base r = Some t ->
  update_view r g h !! base r =
    Some (Tensor (t_shape t) (t_device t) (t_dtype t)
            (fun bidx =>
               if in_view (view r) bidx
               then g (of_base (view r) bidx) (t_data t bidx)
               else t_data t bidx)).
Proof.
  intros Ht. unfold update_view. rewrite Ht.
  apply list_lookup_insert_eq. eapply lookup_lt_Some. exact Ht.
Qed.

Lemma tread_update_other (r r' : tref) g (h : list tensor) idx :
  base r' <> base r -> tread (update_view r g h) r' idx = tread h r' idx.
Proof.
  intros Hb. unfold tread. rewrite update_view_other by assumption. reflexivity.
Qed.

(** Reading, through any reference to the written cell, after a write. *)
Lemma tread_update_same (r r' : tref) g (h : list tensor) idx :
  base r' = base r -> base r < length h ->
  tread (update_view r g h) r' idx =
    if in_view (view r) (to_base (view r') idx)
    then g (of_base (view r) (to_base (view r') idx)) (tread h r' idx)
    else tread h r' idx.
Proof.
  intros Hb Hl. unfold tread. rewrite Hb.
  destruct (lookup_lt_is_Some_2 h (base r) Hl) as [t Ht].
  rewrite (update_view_same r g h t Ht), Ht. reflexivity.
Qed.

Lemma ref_device_update (r r' : tref) g (h : list tensor) :
  ref_device (update_view r g h) r' = ref_device h r'.
Proof.
  unfold ref_device. destruct (decide (base r' = base r)) as [E|E].
  - rewrite E. destruct (h !! base r) as [t|] eqn:Ht.
    + rewrite (update_view_same r g h t Ht). reflexivity.
    + unfold update_view. rewrite Ht. rewrite Ht. reflexivity.
  - rewrite update_view_other by assumption. reflexivity.
Qed.

Lemma ref_device_app_old (h k : list tensor) (r : tref) :
  base r < length h -> ref_device (h ++ k) r = ref_device h r.
Proof.
  intros Hb. unfold ref_device. rewrite lookup_app_l by assumption. reflexivity.
Qed.

Lemma ref_dtype_app_old (h k : list tensor) (r : tref) :
  base r < length h -> ref_dtype (h ++ k) r = ref_dtype h r.
Proof.
  intros Hb. unfold ref_dtype. rewrite lookup_app_l by assumption. reflexivity.
Qed.

(** *** Slices of whole four-dimensional tensors *)

Lemma slice_bbox_whole (l n c hh ww : nat) (bb : bbox) :
  slice_bbox (whole l [n; c; hh; ww]) bb =
    Ok (TRef l [VSlice 0 n; VSlice 0 c;
                VSlice (slice_bounds hh (b1 bb) (b3 bb)).1
                       (slice_bounds hh (b1 bb) (b3 bb)).2;
                VSlice (slice_bounds ww (b0 bb) (b2 bb)).1
                       (slice_bounds ww (b0 bb) (b2 bb)).2]).
Proof. reflexivity. Qed.

Lemma slice_bounds_in (d : nat) (a b : Z) :
  (0 <= a <= b)%Z -> (b <= Z.of_nat d)%Z ->
  slice_bounds d a b = (Z.to_nat a, Z.to_nat (b - a)).
Proof.
  intros Ha Hb. unfold slice_bounds, norm_index.
  destruct (Z.ltb_spec a 0); [lia|]. destruct (Z.ltb_spec b 0); [lia|].
  f_equal; lia.
Qed.

(** *** Broadcasting of the shapes met in this file *)

Lemma bdim_same (d : nat) : bdim d d = Some d.
Proof. unfold bdim. rewrite Nat.eqb_refl. reflexivity. Qed.

Lemma bdim_compat (a b : nat) : b = 1 \/ b = a -> bdim a b = Some a.
Proof.
  intros [->| ->]; [|apply bdim_same].
  unfold bdim. destruct (Nat.eqb_spec a 1) as [->|Ha]; [reflexivity|].
  rewrite Nat.eqb_refl. reflexivity.
Qed.

Lemma bdim_compat_l (a b : nat) : b = 1 \/ b = a -> bdim b a = Some a.
Proof.
  intros [->| ->]; [|apply bdim_same].
  unfold bdim. destruct (Nat.eqb_spec 1 a) as [<-|Ha]; [reflexivity|].
  reflexivity.
Qed.

Lemma broadcast_2_4 (th tw rn rc : nat) :
  broadcast_shapes [th; tw] [rn; rc; th; tw] = Some [rn; rc; th; tw].
Proof.
  unfold broadcast_shapes. cbn [rev app bshape_rev].
  rewrite !bdim_same. reflexivity.
Qed.

Lemma broadcast_4_2 (th tw rn rc : nat) :
  broadcast_shapes [rn; rc; th; tw] [th; tw] = Some [rn; rc; th; tw].
Proof.
  unfold broadcast_shapes. cbn [rev app bshape_rev].
  rewrite !bdim_same. reflexivity.
Qed.

Lemma broadcast_4_4 (n c th tw rn rc : nat) :
  rn = 1 \/ rn = n -> rc = 1 \/ rc = c ->
  broadcast_shapes [n; c; th; tw] [rn; rc; th; tw] = Some [n; c; th; tw].
Proof.
  intros Hn Hc. unfold broadcast_shapes. cbn [rev app bshape_rev].
  rewrite !bdim_same, (bdim_compat c rc Hc), (bdim_compat n rn Hn). reflexivity.
Qed.

Lemma bcast_dim_id (d i : nat) : i < d -> (if d =? 1 then 0 else i) = i.
Proof. intros Hi. destruct (Nat.eqb_spec d 1); lia. Qed.

Lemma bcast_index_r_4 (rn rc c d i j y x : nat) :
  y < c -> x < d ->
  bcast_index [rn; rc; c; d] [i; j; y; x] =
    [if rn =? 1 then 0 else i; if rc =? 1 then 0 else j; y; x].
Proof.
  intros Hy Hx. unfold bcast_index. cbn [length Nat.sub drop zip_with].
  rewrite (bcast_dim_id c y), (bcast_dim_id d x) by assumption. reflexivity.
Qed.

Lemma bcast_index_4_4 (a b c d i j y x : nat) :
  i < a -> j < b -> y < c -> x < d ->
  bcast_index [a; b; c; d] [i; j; y; x] = [i; j; y; x].
Proof.
  intros Hi Hj Hy Hx. rewrite bcast_index_r_4 by assumption.
  rewrite (bcast_dim_id a i), (bcast_dim_id b j) by assumption. reflexivity.
Qed.

Lemma bcast_index_2_4 (c d i j y x : nat) :
  y < c -> x < d -> bcast_index [c; d] [i; j; y; x] = [y; x].
Proof.
  intros Hy Hx. unfold bcast_index. cbn [length Nat.sub drop zip_with].
  rewrite (bcast_dim_id c y), (bcast_dim_id d x) by assumption. reflexivity.
Qed.

End UpdateFacts.

(** ** Running the tensor operations *)

Section OpFacts.
Context `{X : Externals}.

Lemma bind_done {A B} (m : M A) (k : A -> M B) wd a wd1 :
  m wd = Done a wd1 -> bind m k wd = k a wd1.
Proof. intros H. unfold bind. rewrite H. reflexivity. Qed.

Lemma bind_fail {A B} (m : M A) (k : A -> M B) wd e wd1 :
  m wd = Fail e wd1 -> bind m k wd = Fail e wd1.
Proof. intros H. unfold bind. rewrite H. reflexivity. Qed.

Lemma bind_done_inv {A B} (m : M A) (k : A -> M B) wd b wd2 :
  bind m k wd = Done b wd2 ->
  exists a wd1, m wd = Done a wd1 /\ k a wd1 = Done b wd2.
Proof.
  unfold bind. destruct (m wd) as [a wd1|e wd1]; [eauto|discriminate].
Qed.

Lemma binop_run op (a b : tref) (wd : World) (shp : list nat) :
  ref_device (store wd) a = ref_device (store wd) b ->
  broadcast_shapes (ref_shape a) (ref_shape b) = Some shp ->
  binop op a b wd =
    Done (whole (length (store wd)) shp)
      (with_store
         (store wd ++
          [Tensor shp (ref_device (store wd) a)
             (promote (ref_dtype (store wd) a) (ref_dtype (store wd) b))
             (fun idx =>
                op (tread (store wd) a (bcast_index (ref_shape a) idx))
                   (tread (store wd) b (bcast_index (ref_shape b) idx)))])
         wd).
Proof.
  intros Hd Hs. unfold binop, bind, get_store.
  rewrite Hd, Nat.eqb_refl, Hs. reflexivity.
Qed.

Lemma iop_run op (a b : tref) (wd : World) :
  ref_device (store wd) a = ref_device (store wd) b ->
  broadcast_shapes (ref_shape a) (ref_shape b) = Some (ref_shape a) ->
  iop op a b wd =
    Done tt
      (with_store
         (update_view a
            (fun idx old =>
               op old (tread (store wd) b (bcast_index (ref_shape b) idx)))
            (store wd))
         wd).
Proof.
  intros Hd Hs. unfold iop, bind, get_store.
  rewrite Hd, Nat.eqb_refl, Hs. rewrite bool_decide_eq_true_2 by reflexivity.
  reflexivity.
Qed.

(** Slicing the first dimension of any view. *)
Lemma slice_view0_spec (v : list vdim) (a b : Z) (d : nat) (rest : list nat) :
  view_shape v = d :: rest ->
  exists v',
    slice_view 0 a b v = Ok v' /\
    view_shape v' = (slice_bounds d a b).2 :: rest /\
    forall i idx,
      to_base v' (i :: idx) = to_base v (((slice_bounds d a b).1 + i) :: idx).
Proof.
  induction v as [|[off len|len|j] v IH]; intros Hs; simpl in Hs.
  - discriminate.
  - injection Hs as <- <-. simpl.
    destruct (slice_bounds len a b) as [s n] eqn:E. eexists. split; [reflexivity|].
    simpl. split; [reflexivity|]. intros i idx. f_equal. lia.
  - injection Hs as <- <-. simpl.
    destruct (slice_bounds len a b) as [s n] eqn:E. eexists. split; [reflexivity|].
    simpl. split; [reflexivity|]. reflexivity.
  - destruct (IH Hs) as (v' & Hv & Hshp & Hb). simpl. rewrite Hv. simpl.
    eexists. split; [reflexivity|]. simpl. split; [exact Hshp|].
    intros i idx. rewrite Hb. reflexivity.
Qed.

Lemma slice_batch_spec (r : tref) (i n bsz c hh ww : nat) :
  ref_shape r = [bsz; c; hh; ww] -> (i + 1) * n <= bsz ->
  exists r',
    slice_batch r (Z.of_nat (i * n)) (Z.of_nat ((i + 1) * n)) = Ok r' /\
    base r' = base r /\
    ref_shape r' = [n; c; hh; ww] /\
    forall k idx,
      to_base (view r') (k :: idx) = to_base (view r) ((i * n + k) :: idx).
Proof.
  intros Hs Hle. unfold slice_batch. rewrite Hs. cbn [length Nat.ltb Nat.leb].
  destruct (slice_view0_spec (view r) (Z.of_nat (i * n)) (Z.of_nat ((i + 1) * n))
              bsz [c; hh; ww] Hs) as (v' & Hv & Hshp & Hb).
  rewrite Hv. simpl. eexists. split; [reflexivity|]. cbn [base view].
  assert (Hsb : slice_bounds bsz (Z.of_nat (i * n)) (Z.of_nat ((i + 1) * n))
                = (i * n, n)).
  { rewrite slice_bounds_in by lia. f_equal; lia. }
  rewrite Hsb in Hshp, Hb. split; [reflexivity|]. split; [exact Hshp|].
  intros k idx. apply Hb.
Qed.

End OpFacts.

(** ** Fusion of one uniform tile *)

Section FuseTile.
Context `{C : Collaborators}.

Lemma in_view_slice4 (n c sy ny sx nx : nat) (i j y x : nat) :
  i < n -> j < c ->
  in_view [VSlice 0 n; VSlice 0 c; VSlice sy ny; VSlice sx nx] [i; j; y; x] =
    (sy <=? y) && (y <? sy + ny) && ((sx <=? x) && (x <? sx + nx)).
Proof.
  intros Hi Hj. cbn [in_view].
  rewrite (proj2 (Nat.ltb_lt i (0 + n))) by lia.
  rewrite (proj2 (Nat.ltb_lt j (0 + c))) by lia.
  cbn [Nat.leb andb]. rewrite !andb_true_r. reflexivity.
Qed.

Lemma in_bbox_bounds (bb : bbox) (hh ww y x : nat) :
  bbox_in bb hh ww ->
  let sy := (slice_bounds hh (b1 bb) (b3 bb)).1 in
  let ny := (slice_bounds hh (b1 bb) (b3 bb)).2 in
  let sx := (slice_bounds ww (b0 bb) (b2 bb)).1 in
  let nx := (slice_bounds ww (b0 bb) (b2 bb)).2 in
  sy = Z.to_nat (b1 bb) /\ ny = Z.to_nat (b3 bb - b1 bb) /\
  sx = Z.to_nat (b0 bb) /\ nx = Z.to_nat (b2 bb - b0 bb) /\
  ((sy <=? y) && (y <? sy + ny) && ((sx <=? x) && (x <? sx + nx))
   = in_bbox bb y x).
Proof.
  intros (Hx & Hxw & Hy & Hyh). cbv zeta.
  rewrite !slice_bounds_in by lia. cbn [fst snd].
  repeat split. unfold in_bbox.
  replace (Z.to_nat (b1 bb) + Z.to_nat (b3 bb - b1 bb)) with (Z.to_nat (b3 bb))
    by lia.
  replace (Z.to_nat (b0 bb) + Z.to_nat (b2 bb - b0 bb)) with (Z.to_nat (b2 bb))
    by lia.
  reflexivity.
Qed.

(** One round of the fusion loop adds to [x_buffer], at the slice of the
    bounding box, rows [i*N .. (i+1)*N) of the batched model output
    multiplied element-wise by [per_tile_weights * rescale_factor[slice]];
    the rest of [x_buffer] and every other tensor that existed are left as
    they were, and two temporaries are allocated. *)
Lemma fuse_tile_round (wd : World)
    (N Ch H W th tw rn rc B : nat) (lb lr lp : nat) (dev : nat)
    (x_tile_out : tref) (i : nat) (bb : bbox) :
  x_buffer (self wd) = Some (whole lb [N; Ch; H; W]) ->
  rescale_factor (self wd) = Some (whole lr [rn; rc; H; W]) ->
  per_tile_weights (self wd) = Some (whole lp [th; tw]) ->
  rn = 1 \/ rn = N -> rc = 1 \/ rc = Ch ->
  lb < length (store wd) -> lr < length (store wd) ->
  lp < length (store wd) -> base x_tile_out < length (store wd) ->
  ref_shape x_tile_out = [B; Ch; th; tw] -> (i + 1) * N <= B ->
  bbox_in bb H W ->
  Z.to_nat (b3 bb - b1 bb) = th -> Z.to_nat (b2 bb - b0 bb) = tw ->
  ref_device (store wd) (whole lb [N; Ch; H; W]) = dev ->
  ref_device (store wd) (whole lr [rn; rc; H; W]) = dev ->
  ref_device (store wd) (whole lp [th; tw]) = dev ->
  ref_device (store wd) x_tile_out = dev ->
  exists wd',
    fuse_tile N x_tile_out i bb wd = Done tt wd' /\
    self wd' = self wd /\
    length (store wd') = length (store wd) + 2 /\
    ref_device (store wd') (whole lb [N; Ch; H; W]) = dev /\
    (forall l, l < length (store wd) -> l <> lb ->
       store wd' !! l = store wd !! l) /\
    forall n c y x, n < N -> c < Ch -> y < H -> x < W ->
      tread (store wd') (whole lb [N; Ch; H; W]) [n; c; y; x] =
        if in_bbox bb y x then
          (tread (store wd) (whole lb [N; Ch; H; W]) [n; c; y; x]
           + tread (store wd) x_tile_out
               [i * N + n; c; y - Z.to_nat (b1 bb); x - Z.to_nat (b0 bb)]%nat
             * (tread (store wd) (whole lp [th; tw])
                  [y - Z.to_nat (b1 bb); x - Z.to_nat (b0 bb)]%nat
                * tread (store wd) (whole lr [rn; rc; H; W])
                    [if rn =? 1 then 0 else n; if rc =? 1 then 0 else c;
                     y; x]%nat))%R
        else tread (store wd) (whole lb [N; Ch; H; W]) [n; c; y; x].
Proof.
  intros Hxb Hrf Hptw Hrn Hrc Llb Llr Llp Llo Hso HB Hbb Hth Htw Dxb Drf Dptw Dout.
  destruct (in_bbox_bounds bb H W 0 0 Hbb) as (Esy & Eny & Esx & Enx & _).
  destruct (slice_batch_spec x_tile_out i N B Ch th tw Hso HB)
    as (osl & Hosl & Bosl & Sosl & Iosl).
  set (h := store wd) in *.
  set (rsl := TRef lr [VSlice 0 rn; VSlice 0 rc;
                       VSlice (slice_bounds H (b1 bb) (b3 bb)).1
                              (slice_bounds H (b1 bb) (b3 bb)).2;
                       VSlice (slice_bounds W (b0 bb) (b2 bb)).1
                              (slice_bounds W (b0 bb) (b2 bb)).2]).
  set (xsl := TRef lb [VSlice 0 N; VSlice 0 Ch;
                       VSlice (slice_bounds H (b1 bb) (b3 bb)).1
                              (slice_bounds H (b1 bb) (b3 bb)).2;
                       VSlice (slice_bounds W (b0 bb) (b2 bb)).1
                              (slice_bounds W (b0 bb) (b2 bb)).2]).
  assert (Srsl : ref_shape rsl = [rn; rc; th; tw]).
  { unfold rsl, ref_shape. cbn [view view_shape]. rewrite Eny, Enx, Hth, Htw.
    reflexivity. }
  assert (Sxsl : ref_shape xsl = [N; Ch; th; tw]).
  { unfold xsl, ref_shape. cbn [view view_shape]. rewrite Eny, Enx, Hth, Htw.
    reflexivity. }
  (* w = per_tile_weights * rescale_factor[slice] *)
  pose proof (binop_run Rmult (whole lp [th; tw]) rsl wd [rn; rc; th; tw]) as Hw.
  rewrite ref_shape_whole, Srsl in Hw.
  specialize (Hw ltac:(fold h; rewrite Dptw; exact (eq_sym Drf))
                 (broadcast_2_4 th tw rn rc)).
  fold h in Hw.
  set (wt := Tensor [rn; rc; th; tw] _ _ _) in Hw.
  set (wd1 := with_store (h ++ [wt]) wd) in Hw.
  set (w := whole (length h) [rn; rc; th; tw]) in Hw.
  (* x_tile_out[i*N:(i+1)*N] * w *)
  pose proof (binop_run Rmult osl w wd1 [N; Ch; th; tw]) as Hc.
  rewrite Sosl in Hc. unfold w at 2 in Hc. rewrite ref_shape_whole in Hc.
  assert (Dosl : ref_device (h ++ [wt]) osl = dev).
  { rewrite ref_device_app_old by (rewrite Bosl; exact Llo).
    unfold ref_device in *. rewrite Bosl. exact Dout. }
  assert (Dw : ref_device (h ++ [wt]) w = dev).
  { unfold w. rewrite ref_device_new. unfold wt. cbn [t_device]. exact Dptw. }
  specialize (Hc ltac:(cbn [store wd1 with_store]; rewrite Dosl, Dw; reflexivity)
                 (broadcast_4_4 N Ch th tw rn rc Hrn Hrc)).
  cbn [store wd1 with_store] in Hc.
  set (ct := Tensor [N; Ch; th; tw] _ _ _) in Hc.
  set (wd2 := with_store ((h ++ [wt]) ++ [ct]) wd1) in Hc.
  set (contribution := whole (length (h ++ [wt])) [N; Ch; th; tw]) in Hc.
  (* x_buffer[slice] += contribution *)
  pose proof (iop_run Rplus xsl contribution wd2) as Hi.
  rewrite Sxsl in Hi. unfold contribution at 2 3 in Hi.
  rewrite ref_shape_whole in Hi.
  assert (Dxsl : ref_device ((h ++ [wt]) ++ [ct]) xsl = dev).
  { rewrite !ref_device_app_old
      by (cbn [base xsl]; rewrite ?length_app; simpl; lia).
    exact Dxb. }
  assert (Dct : ref_device ((h ++ [wt]) ++ [ct]) contribution = dev).
  { unfold contribution. rewrite ref_device_new. unfold ct. cbn [t_device].
    exact Dosl. }
  specialize (Hi ltac:(cbn [store wd2 with_store]; rewrite Dxsl, Dct; reflexivity)
                 ltac:(unfold broadcast_shapes; cbn [rev app bshape_rev];
                       rewrite !bdim_same; reflexivity)).
  cbn [store wd2 with_store] in Hi.
  eexists. split.
  { unfold fuse_tile.
    rewrite (bind_done get_self _ wd (self wd) wd) by reflexivity.
    rewrite Hptw. cbn [attr]. rewrite (bind_done (ret _) _ wd _ wd) by reflexivity.
    rewrite Hrf. cbn [attr]. rewrite (bind_done (ret _) _ wd _ wd) by reflexivity.
    rewrite slice_bbox_whole. cbn [lift].
    rewrite (bind_done _ _ wd rsl wd) by reflexivity.
    rewrite (bind_done _ _ wd _ _ Hw).
    rewrite (bind_done get_self _ wd1 (self wd) wd1) by reflexivity.
    rewrite Hxb. cbn [attr]. rewrite (bind_done (ret _) _ wd1 _ wd1) by reflexivity.
    rewrite slice_bbox_whole. cbn [lift].
    rewrite (bind_done _ _ wd1 xsl wd1) by reflexivity.
    rewrite Hosl. cbn [lift].
    rewrite (bind_done _ _ wd1 osl wd1) by reflexivity.
    rewrite (bind_done _ _ wd1 _ _ Hc).
    exact Hi. }
  cbn [self store with_store wd2 wd1].
  split; [reflexivity|]. split.
  { rewrite length_update_view, !length_app. simpl. lia. }
  split.
  { rewrite ref_device_update. exact Dxsl. }
  split.
  { intros l Hl Hne. rewrite update_view_other by (cbn [base xsl]; exact Hne).
    rewrite !lookup_app_l by (rewrite ?length_app; simpl; lia). reflexivity. }
  intros n c y x Hn Hch Hy Hx.
  rewrite tread_update_same
    by (cbn [base xsl whole]; rewrite ?length_app; simpl; lia).
  rewrite to_base_view_whole by reflexivity.
  unfold xsl at 1. cbn [view]. rewrite in_view_slice4 by assumption.
  destruct (in_bbox_bounds bb H W y x Hbb) as (_ & _ & _ & _ & Ein).
  rewrite Ein.
  rewrite !(tread_app_old _ _ (whole lb [N; Ch; H; W]))
    by (cbn [base whole]; rewrite ?length_app; simpl; lia).
  destruct (in_bbox bb y x) eqn:Ebb; [|reflexivity].
  f_equal.
  (* the contribution at this element *)
  unfold in_bbox in Ebb. apply andb_prop in Ebb as [Eby Ebx].
  apply andb_prop in Eby as [Ey1 Ey2]. apply andb_prop in Ebx as [Ex1 Ex2].
  apply Nat.leb_le in Ey1, Ex1. apply Nat.ltb_lt in Ey2, Ex2.
  unfold xsl. cbn [view of_base]. rewrite Esy, Esx, !Nat.sub_0_r.
  set (y' := y - Z.to_nat (b1 bb)). set (x' := x - Z.to_nat (b0 bb)).
  assert (Hy' : y' < th) by (unfold y'; lia).
  assert (Hx' : x' < tw) by (unfold x'; lia).
  unfold contribution. rewrite ?ref_shape_whole.
  rewrite bcast_index_4_4 by assumption.
  rewrite tread_alloc_new by reflexivity.
  unfold ct. cbn [t_data]. unfold w. rewrite ?Sosl, ?ref_shape_whole.
  rewrite bcast_index_4_4, bcast_index_r_4 by assumption.
  rewrite tread_app_old by (rewrite Bosl; exact Llo).
  unfold tread at 1. rewrite Bosl, Iosl.
  fold (tread h x_tile_out [i * N + n; c; y'; x']).
  f_equal.
  rewrite tread_alloc_new by reflexivity.
  unfold wt. cbn [t_data]. rewrite ?ref_shape_whole, ?Srsl.
  set (n' := if rn =? 1 then 0 else n). set (c' := if rc =? 1 then 0 else c).
  assert (Hn' : n' < rn) by (unfold n'; destruct (Nat.eqb_spec rn 1); lia).
  assert (Hc' : c' < rc) by (unfold c'; destruct (Nat.eqb_spec rc 1); lia).
  rewrite bcast_index_2_4, bcast_index_4_4 by assumption.
  f_equal.
  unfold rsl, tread. cbn [base view to_base whole map].
  rewrite Esy, Esx. unfold y', x'.
  replace (Z.to_nat (b1 bb) + (y - Z.to_nat (b1 bb))) with y by lia.
  replace (Z.to_nat (b0 bb) + (x - Z.to_nat (b0 bb))) with x by lia.
  reflexivity.
Qed.


(** *** The loop over the tiles of a batch *)

Lemma add_tiles_ext (f g : nat -> bbox -> R) (bboxes : list bbox) :
  (forall j bb, f j bb = g j bb) ->
  forall i v, add_tiles f i bboxes v = add_tiles g i bboxes v.
Proof.
  intros Hfg. induction bboxes as [|bb rest IH]; intros i v; [reflexivity|].
  cbn [add_tiles]. rewrite Hfg. apply IH.
Qed.

Lemma tread_same_cell (h h' : heap) (r : tref) (idx : list nat) :
  h' !! base r = h !! base r -> tread h' r idx = tread h r idx.
Proof. intros E. unfold tread. rewrite E. reflexivity. Qed.

Lemma ref_device_same_cell (h h' : heap) (r : tref) :
  h' !! base r = h !! base r -> ref_device h' r = ref_device h r.
Proof. intros E. unfold ref_device. rewrite E. reflexivity. Qed.

(** The term of a tile reads three tensors only. *)
Lemma tile_term_same_cells (h h' : heap) (N : nat) (x_tile_out ptw rf : tref)
    (n c y x i : nat) (bb : bbox) :
  h' !! base x_tile_out = h !! base x_tile_out ->
  h' !! base ptw = h !! base ptw ->
  h' !! base rf = h !! base rf ->
  tile_term h' N x_tile_out ptw rf n c y x i bb
    = tile_term h N x_tile_out ptw rf n c y x i bb.
Proof.
  intros Eo Ep Er. unfold tile_term.
  rewrite (tread_same_cell h h' x_tile_out _ Eo),
    (tread_same_cell h h' ptw _ Ep), (tread_same_cell h h' rf _ Er).
  reflexivity.
Qed.

(** The rounds for the tiles [bboxes], numbered from [i]. *)
Lemma fuse_tiles_rounds (N Ch H W th tw rn rc B : nat) (lb lr lp : nat)
    (dev : nat) (x_tile_out : tref) (bboxes : list bbox) :
  rn = 1 \/ rn = N -> rc = 1 \/ rc = Ch ->
  lr <> lb -> lp <> lb -> base x_tile_out <> lb ->
  ref_shape x_tile_out = [B; Ch; th; tw] ->
  Forall (fun bb => bbox_in bb H W /\
                    Z.to_nat (b3 bb - b1 bb) = th /\
                    Z.to_nat (b2 bb - b0 bb) = tw) bboxes ->
  forall (i : nat) (wd : World),
  (i + length bboxes) * N <= B ->
  x_buffer (self wd) = Some (whole lb [N; Ch; H; W]) ->
  rescale_factor (self wd) = Some (whole lr [rn; rc; H; W]) ->
  per_tile_weights (self wd) = Some (whole lp [th; tw]) ->
  lb < length (store wd) -> lr < length (store wd) ->
  lp < length (store wd) -> base x_tile_out < length (store wd) ->
  ref_device (store wd) (whole lb [N; Ch; H; W]) = dev ->
  ref_device (store wd) (whole lr [rn; rc; H; W]) = dev ->
  ref_device (store wd) (whole lp [th; tw]) = dev ->
  ref_device (store wd) x_tile_out = dev ->
  exists wd',
    fuse_tiles N x_tile_out i bboxes wd = Done tt wd' /\
    self wd' = self wd /\
    length (store wd') = length (store wd) + 2 * length bboxes /\
    ref_device (store wd') (whole lb [N; Ch; H; W]) = dev /\
    (forall l, l < length (store wd) -> l <> lb ->
       store wd' !! l = store wd !! l) /\
    forall n c y x, n < N -> c < Ch -> y < H -> x < W ->
      tread (store wd') (whole lb [N; Ch; H; W]) [n; c; y; x] =
        add_tiles
          (tile_term (store wd) N x_tile_out (whole lp [th; tw])
                     (whole lr [rn; rc; H; W]) n c y x)
          i bboxes
          (tread (store wd) (whole lb [N; Ch; H; W]) [n; c; y; x]).
Proof.
  intros Hrn Hrc Nlr Nlp Nout Hso Hall.
  induction Hall as [|bb rest (Hbb & Hth & Htw) Hall IH]; intros i wd HB.
  - intros _ _ _ _ _ _ _ Dxb _ _ _. exists wd.
    cbn [fuse_tiles add_tiles length]. split; [reflexivity|].
    split; [reflexivity|]. split; [lia|]. split; [exact Dxb|].
    split; reflexivity.
  - intros Hxb Hrf Hptw Llb Llr Llp Llo Dxb Drf Dptw Dout.
    cbn [length] in HB.
    destruct (fuse_tile_round wd N Ch H W th tw rn rc B lb lr lp dev
                x_tile_out i bb)
      as (wd1 & Hrun & Hself & Hlen & Hdev & Hframe & Hval);
      try assumption; [nia|].
    assert (Eout : store wd1 !! base x_tile_out = store wd !! base x_tile_out)
      by (apply Hframe; assumption).
    assert (Ep : store wd1 !! lp = store wd !! lp)
      by (apply Hframe; assumption).
    assert (Er : store wd1 !! lr = store wd !! lr)
      by (apply Hframe; assumption).
    destruct (IH (S i) wd1)
      as (wd' & Hrest & Hself' & Hlen' & Hdev' & Hframe' & Hval').
    { nia. }
    { rewrite Hself. exact Hxb. }
    { rewrite Hself. exact Hrf. }
    { rewrite Hself. exact Hptw. }
    { lia. }
    { lia. }
    { lia. }
    { lia. }
    { exact Hdev. }
    { rewrite <- Drf. apply ref_device_same_cell. exact Er. }
    { rewrite <- Dptw. apply ref_device_same_cell. exact Ep. }
    { rewrite <- Dout. apply ref_device_same_cell. exact Eout. }
    exists wd'. split.
    { cbn [fuse_tiles]. rewrite (bind_done _ _ _ _ _ Hrun). exact Hrest. }
    split; [congruence|]. split; [cbn [length]; lia|].
    split; [exact Hdev'|]. split.
    { intros l Hl Hne. rewrite Hframe' by (try lia; exact Hne).
      apply Hframe; assumption. }
    intros n c y x Hn Hc Hy Hx.
    rewrite (Hval' n c y x Hn Hc Hy Hx), (Hval n c y x Hn Hc Hy Hx).
    cbn [add_tiles].
    rewrite (add_tiles_ext _
               (tile_term (store wd) N x_tile_out (whole lp [th; tw])
                          (whole lr [rn; rc; H; W]) n c y x))
      by (intros j bb'; apply tile_term_same_cells; assumption).
    f_equal. unfold tile_term.
    rewrite ref_shape_whole, bcast_index_r_4 by assumption.
    destruct (in_bbox bb y x); [reflexivity|lra].
Qed.

(** A batch that is processed to the end has run the loop once, from
    number 0, on what the original model returned for the batch. *)
Lemma process_batch_fuses (x_in t_in : tref) (cond : PyCond) (N : nat)
    (batch_id : nat) (bboxes : list bbox) (wd0 wd2 : World) :
  process_batch x_in t_in cond N batch_id bboxes wd0 = Done tt wd2 ->
  exists x_tile t_tile c_tile org x_tile_out wdm wdo wdf,
    getattr (sd_model wdm) "md_org_apply_model" = Ok org /\
    call_ext (invoke org x_tile t_tile c_tile) wdm = Done x_tile_out wdo /\
    fuse_tiles N x_tile_out 0 bboxes wdo = Done tt wdf /\
    call_ext update_pbar wdf = Done tt wd2.
Proof.
  intros Hp. unfold process_batch in Hp.
  apply bind_done_inv in Hp as (s & w0 & _ & Hp).
  apply bind_done_inv in Hp as (l & w1 & _ & Hp).
  apply bind_done_inv in Hp as (x_tile & w2 & _ & Hp).
  apply bind_done_inv in Hp as (t_tile & w3 & _ & Hp).
  apply bind_done_inv in Hp as (attn_tile & w4 & _ & Hp).
  apply bind_done_inv in Hp as (image_cond_tile & w5 & _ & Hp).
  cbv zeta in Hp.
  apply bind_done_inv in Hp as (u & w6 & _ & Hp).
  apply bind_done_inv in Hp as (sd & w7 & Esd & Hp).
  apply bind_done_inv in Hp as (org & w8 & Eorg & Hp).
  apply bind_done_inv in Hp as (out & w9 & Eout & Hp).
  apply bind_done_inv in Hp as ([] & w10 & Efuse & Hp).
  unfold get_sd_model in Esd. injection Esd as <- <-.
  unfold lift in Eorg.
  destruct (getattr (sd_model w6) "md_org_apply_model") as [g|e] eqn:Eg;
    [|discriminate].
  injection Eorg as <- <-.
  eexists _, _, _, _, _, _, _, _. split; [exact Eg|].
  split; [exact Eout|]. split; [exact Efuse|exact Hp].
Qed.

(** C2.  The loop [for i, bbox in enumerate(bboxes)] of the uniform-tile
    phase, run on the batched output [x_tile_out] of the model with [N]
    rows for each tile.  It returns, and every element of [x_buffer] then
    holds its old value plus, for each tile [i] of the batch whose bounding
    box covers it, the prediction for that tile (rows [i*N .. (i+1)*N) of
    [x_tile_out]) multiplied element-wise by
    [per_tile_weights * rescale_factor[slice]]; elements outside every box
    and every other tensor that existed are left as they were.  The product
    of the two weights is recomputed in every round and cached nowhere: no
    attribute of [self] is rebound, and each round leaves two temporaries
    in the store.  In [process_batch] this loop is run once, from number 0,
    on what the original model stored on [shared.sd_model] returned for
    the batch, and only [update_pbar] follows it. *)
Theorem fuse_tiles_contribution (wd : World)
    (N Ch H W th tw rn rc B : nat) (lb lr lp : nat) (dev : nat)
    (x_tile_out : tref) (bboxes : list bbox) :
  x_buffer (self wd) = Some (whole lb [N; Ch; H; W]) ->
  rescale_factor (self wd) = Some (whole lr [rn; rc; H; W]) ->
  per_tile_weights (self wd) = Some (whole lp [th; tw]) ->
  rn = 1 \/ rn = N -> rc = 1 \/ rc = Ch ->
  lb < length (store wd) -> lr < length (store wd) ->
  lp < length (store wd) -> base x_tile_out < length (store wd) ->
  lr <> lb -> lp <> lb -> base x_tile_out <> lb ->
  ref_shape x_tile_out = [B; Ch; th; tw] -> length bboxes * N <= B ->
  Forall (fun bb => bbox_in bb H W /\
                    Z.to_nat (b3 bb - b1 bb) = th /\
                    Z.to_nat (b2 bb - b0 bb) = tw) bboxes ->
  ref_device (store wd) (whole lb [N; Ch; H; W]) = dev ->
  ref_device (store wd) (whole lr [rn; rc; H; W]) = dev ->
  ref_device (store wd) (whole lp [th; tw]) = dev ->
  ref_device (store wd) x_tile_out = dev ->
  (exists wd',
     fuse_tiles N x_tile_out 0 bboxes wd = Done tt wd' /\
     self wd' = self wd /\
     length (store wd') = length (store wd) + 2 * length bboxes /\
     (forall l, l < length (store wd) -> l <> lb ->
        store wd' !! l = store wd !! l) /\
     forall n c y x, n < N -> c < Ch -> y < H -> x < W ->
       tread (store wd') (whole lb [N; Ch; H; W]) [n; c; y; x] =
         add_tiles
           (tile_term (store wd) N x_tile_out (whole lp [th; tw])
                      (whole lr [rn; rc; H; W]) n c y x)
           0 bboxes
           (tread (store wd) (whole lb [N; Ch; H; W]) [n; c; y; x])) /\
  forall x_in t_in cond batch_id wd0 wd2,
    process_batch x_in t_in cond N batch_id bboxes wd0 = Done tt wd2 ->
    exists x_tile t_tile c_tile org out wdm wdo wdf,
      getattr (sd_model wdm) "md_org_apply_model" = Ok org /\
      call_ext (invoke org x_tile t_tile c_tile) wdm = Done out wdo /\
      fuse_tiles N out 0 bboxes wdo = Done tt wdf /\
      call_ext update_pbar wdf = Done tt wd2.
Proof.
  intros Hxb Hrf Hptw Hrn Hrc Llb Llr Llp Llo Nlr Nlp Nout Hso HB Hall
    Dxb Drf Dptw Dout.
  split; [|intros x_in t_in cond batch_id wd0 wd2;
           apply process_batch_fuses].
  destruct (fuse_tiles_rounds N Ch H W th tw rn rc B lb lr lp dev x_tile_out
              bboxes Hrn Hrc Nlr Nlp Nout Hso Hall 0 wd)
    as (wd' & Hrun & Hself & Hlen & _ & Hframe & Hval); try assumption.
  exists wd'. repeat (split; [assumption|]). exact Hval.
Qed.

End FuseTile.

(** ** What a call leaves untouched *)

Section Frame.
Context `{C : Collaborators}.

Lemma keeps_refl (l : nat) (wd : World) : guarded l wd -> keeps l wd wd.
Proof. intros G. split; [reflexivity|]. split; [lia|exact G]. Qed.

Lemma keeps_trans (l : nat) (a b c : World) :
  keeps l a b -> keeps l b c -> keeps l a c.
Proof.
  intros (E1 & L1 & G1) (E2 & L2 & G2). split; [congruence|]. split; [lia|exact G2].
Qed.

Lemma keeps_bind {A B} (l : nat) (m : M A) (k : A -> M B) (wd : World) :
  keeps l wd (final (m wd)) ->
  (forall a wd1, m wd = Done a wd1 -> guarded l wd1 ->
                 keeps l wd1 (final (k a wd1))) ->
  keeps l wd (final (bind m k wd)).
Proof.
  intros Hm Hk. unfold bind. destruct (m wd) as [a wd1|e wd1] eqn:E; simpl in *.
  - eapply keeps_trans; [exact Hm|]. apply Hk; [reflexivity|apply Hm].
  - exact Hm.
Qed.

(** Steps that only read. *)
Lemma keeps_get_self {B} l (k : Self -> M B) wd :
  keeps l wd (final (k (self wd) wd)) -> keeps l wd (final (bind get_self k wd)).
Proof. intros H. exact H. Qed.

Lemma keeps_get_store {B} l (k : list tensor -> M B) wd :
  keeps l wd (final (k (store wd) wd)) -> keeps l wd (final (bind get_store k wd)).
Proof. intros H. exact H. Qed.

Lemma keeps_get_sd_model {B} l (k : PyObj -> M B) wd :
  keeps l wd (final (k (sd_model wd) wd)) ->
  keeps l wd (final (bind get_sd_model k wd)).
Proof. intros H. exact H. Qed.

Lemma keeps_get_ext {B} l (k : ExtState -> M B) wd :
  keeps l wd (final (k (ext wd) wd)) -> keeps l wd (final (bind get_ext k wd)).
Proof. intros H. exact H. Qed.

Lemma keeps_attr {A B} l (o : option A) (k : A -> M B) wd :
  guarded l wd ->
  (forall a, o = Some a -> keeps l wd (final (k a wd))) ->
  keeps l wd (final (bind (attr o) k wd)).
Proof.
  intros G H. destruct o as [a|]; [apply H; reflexivity|apply keeps_refl, G].
Qed.

Lemma keeps_lift {A B} l (r : Res A) (k : A -> M B) wd :
  guarded l wd ->
  (forall a, r = Ok a -> keeps l wd (final (k a wd))) ->
  keeps l wd (final (bind (lift r) k wd)).
Proof.
  intros G H. destruct r as [a|e]; [apply H; reflexivity|apply keeps_refl, G].
Qed.

Lemma keeps_final_attr {A} l (o : option A) wd :
  guarded l wd -> keeps l wd (final (attr o wd)).
Proof. intros G. destruct o; apply keeps_refl, G. Qed.

(** Steps that only allocate. *)
Lemma allocating_keeps {A} l (m : M A) wd :
  allocating m -> guarded l wd -> keeps l wd (final (m wd)).
Proof.
  intros Ha (Hl & Hs). destruct (Ha wd) as (Es & _ & k & Ek).
  split; [|split; [|split]].
  - rewrite Ek. apply lookup_app_l. exact Hl.
  - rewrite Ek, length_app. lia.
  - rewrite Ek, length_app. lia.
  - rewrite Es. exact Hs.
Qed.

Lemma allocating_done {A} (m : M A) wd a wd1 :
  allocating m -> m wd = Done a wd1 ->
  self wd1 = self wd /\ sd_model wd1 = sd_model wd /\
  length (store wd) <= length (store wd1).
Proof.
  intros Ha R. destruct (Ha wd) as (Es & Ed & k & Ek). rewrite R in *.
  simpl in *. rewrite Ek, length_app. repeat split; [assumption..|lia].
Qed.

Lemma allocating_ret {A} (a : A) : allocating (ret a).
Proof. intros wd. simpl. repeat split. exists []. symmetry. apply app_nil_r. Qed.

Lemma allocating_raise {A} (e : Exn) : allocating (@raise _ A e).
Proof. intros wd. simpl. repeat split. exists []. symmetry. apply app_nil_r. Qed.

Lemma allocating_lift {A} (r : Res A) : allocating (lift r).
Proof.
  intros wd. unfold lift. destruct r; simpl; repeat split; exists [];
    symmetry; apply app_nil_r.
Qed.

Lemma allocating_attr {A} (o : option A) : allocating (attr o).
Proof. destruct o; [apply allocating_ret|apply allocating_raise]. Qed.

Lemma allocating_get_self : allocating get_self.
Proof. intros wd. simpl. repeat split. exists []. symmetry. apply app_nil_r. Qed.

Lemma allocating_get_store : allocating get_store.
Proof. intros wd. simpl. repeat split. exists []. symmetry. apply app_nil_r. Qed.

Lemma allocating_get_sd_model : allocating get_sd_model.
Proof. intros wd. simpl. repeat split. exists []. symmetry. apply app_nil_r. Qed.

Lemma allocating_get_ext : allocating get_ext.
Proof. intros wd. simpl. repeat split. exists []. symmetry. apply app_nil_r. Qed.

Lemma allocating_bind {A B} (m : M A) (k : A -> M B) :
  allocating m -> (forall a, allocating (k a)) -> allocating (bind m k).
Proof.
  intros Hm Hk wd. unfold bind. destruct (Hm wd) as (Es & Ed & k1 & Ek1).
  destruct (m wd) as [a wd1|e wd1]; simpl in *.
  - destruct (Hk a wd1) as (Es2 & Ed2 & k2 & Ek2).
    split; [congruence|]. split; [congruence|].
    exists (k1 ++ k2). rewrite Ek2, Ek1. symmetry. apply app_assoc.
  - repeat split; try assumption. exists k1. exact Ek1.
Qed.

Lemma allocating_alloc (t : tensor) : allocating (alloc t).
Proof. intros wd. simpl. repeat split. exists [t]. reflexivity. Qed.

Lemma allocating_if {A} (b : bool) (m1 m2 : M A) :
  allocating m1 -> allocating m2 -> allocating (if b then m1 else m2).
Proof. destruct b; auto. Qed.

Lemma allocating_binop op a b : allocating (binop op a b).
Proof.
  unfold binop. apply allocating_bind; [apply allocating_get_store|]. intros h.
  apply allocating_if; [apply allocating_raise|].
  destruct (broadcast_shapes _ _); [apply allocating_alloc|apply allocating_raise].
Qed.

Lemma allocating_mul_scalar a m : allocating (mul_scalar a m).
Proof.
  unfold mul_scalar. apply allocating_bind; [apply allocating_get_store|].
  intros h. apply allocating_alloc.
Qed.

Lemma allocating_rdiv_scalar c a : allocating (rdiv_scalar c a).
Proof.
  unfold rdiv_scalar. apply allocating_bind; [apply allocating_get_store|].
  intros h. apply allocating_alloc.
Qed.

Lemma allocating_zeros_like x : allocating (zeros_like x).
Proof.
  unfold zeros_like. apply allocating_bind; [apply allocating_get_store|].
  intros h. apply allocating_alloc.
Qed.

Lemma allocating_to r dev dt : allocating (to_ r dev dt).
Proof.
  unfold to_. apply allocating_bind; [apply allocating_get_store|]. intros h.
  apply allocating_if; [apply allocating_ret|apply allocating_alloc].
Qed.

Lemma cat_h_final (rs : list tref) (h : list tensor) :
  exists k, final (cat_h rs h) = h ++ k.
Proof.
  unfold cat_h. destruct rs as [|r0 rs]; [exists []; symmetry; apply app_nil_r|].
  destruct (ref_shape r0); [exists []; symmetry; apply app_nil_r|].
  destruct (forallb _ _); [|exists []; symmetry; apply app_nil_r].
  eexists [_]. reflexivity.
Qed.

Lemma allocating_cat rs : allocating (cat rs).
Proof.
  intros wd. unfold cat, st. destruct (cat_h_final rs (store wd)) as [k Ek].
  destruct (cat_h rs (store wd)) as [a h|e h]; simpl in *; subst h;
    repeat split; exists k; reflexivity.
Qed.

Lemma allocating_call_ext {A} (m : Ext A) :
  only_allocates m -> allocating (call_ext m).
Proof.
  intros Hm wd. unfold call_ext. destruct (Hm (store wd) (ext wd)) as [k Ek].
  destruct (m (store wd) (ext wd)) as [a [h e]|x [h e]]; simpl in *; subst h;
    repeat split; exists k; reflexivity.
Qed.

Lemma call_ext_fresh (m : Ext tref) wd r wd1 :
  fresh_result m -> call_ext m wd = Done r wd1 -> length (store wd) <= base r.
Proof.
  intros Hf R. unfold call_ext in R.
  destruct (m (store wd) (ext wd)) as [a [h e]|x [h e]] eqn:E; [|discriminate].
  injection R as -> _. eapply Hf. exact E.
Qed.

(** Steps that write through a view. *)
Lemma keeps_update l (a : tref) g wd :
  guarded l wd -> base a <> l ->
  keeps l wd (with_store (update_view a g (store wd)) wd).
Proof.
  intros (Hl & Hs) Hne. split; [|split; [|split]]; cbn [store self with_store].
  - apply update_view_other. congruence.
  - rewrite length_update_view. lia.
  - rewrite length_update_view. exact Hl.
  - exact Hs.
Qed.

Lemma iop_keeps l op (a b : tref) wd :
  guarded l wd -> base a <> l -> keeps l wd (final (iop op a b wd)).
Proof.
  intros G Hne. unfold iop, bind, get_store.
  destruct (negb _); [apply keeps_refl, G|].
  destruct (broadcast_shapes _ _); [|apply keeps_refl, G].
  destruct (bool_decide _); [|apply keeps_refl, G].
  apply keeps_update; assumption.
Qed.

Lemma imul_scalar_keeps l (a : tref) m wd :
  guarded l wd -> base a <> l -> keeps l wd (final (imul_scalar a m wd)).
Proof. intros G Hne. apply keeps_update; assumption. Qed.

Lemma slice_view_ok_base (r r' : tref) (bb : bbox) :
  slice_bbox r bb = Ok r' -> base r' = base r.
Proof.
  unfold slice_bbox. destruct (slice_view 2 _ _ _); [|discriminate]. simpl.
  destruct (slice_view 3 _ _ _); [|discriminate]. simpl.
  intros R. injection R as <-. reflexivity.
Qed.

End Frame.

(** ** The collaborators' calls *)

Section ExtFacts.
Context `{C : Collaborators}.

Lemma only_allocates_ret {A} (a : A) : only_allocates (ext_ret a).
Proof. intros h e. exists []. simpl. symmetry. apply app_nil_r. Qed.

Lemma only_allocates_lift {A} (r : Res A) : only_allocates (ext_lift r).
Proof.
  intros h e. exists []. unfold ext_lift. destruct r; simpl; symmetry;
    apply app_nil_r.
Qed.

Lemma only_allocates_bind {A B} (m : Ext A) (k : A -> Ext B) :
  only_allocates m -> (forall a, only_allocates (k a)) ->
  only_allocates (ext_bind m k).
Proof.
  intros Hm Hk h e. unfold ext_bind. destruct (Hm h e) as [k1 E1].
  destruct (m h e) as [a [h1 e1]|x [h1 e1]]; simpl in *.
  - destruct (Hk a h1 e1) as [k2 E2]. exists (k1 ++ k2).
    rewrite E2, E1. symmetry. apply app_assoc.
  - exists k1. exact E1.
Qed.

Lemma only_allocates_cat (rs : list tref) : only_allocates (ext_st (cat_h rs)).
Proof.
  intros h e. unfold ext_st. destruct (cat_h_final rs h) as [k Ek].
  exists k. destruct (cat_h rs h); simpl in *; exact Ek.
Qed.

Lemma only_allocates_mapM {A B} (g : A -> Ext B) (l : list A) :
  (forall a, only_allocates (g a)) -> only_allocates (ext_mapM g l).
Proof.
  intros Hg. induction l as [|a l IH]; simpl.
  - apply only_allocates_ret.
  - apply only_allocates_bind; [apply Hg|]. intros b.
    apply only_allocates_bind; [exact IH|]. intros bs. apply only_allocates_ret.
Qed.

Lemma fresh_result_bind {A} (m : Ext A) (k : A -> Ext tref) :
  only_allocates m -> (forall a, fresh_result (k a)) ->
  fresh_result (ext_bind m k).
Proof.
  intros Hm Hk h e r s R. unfold ext_bind in R. destruct (Hm h e) as [k1 E1].
  destruct (m h e) as [a [h1 e1]|x [h1 e1]]; [|discriminate]. simpl in E1.
  pose proof (Hk a h1 e1 r s R) as Hr. rewrite E1, length_app in Hr. lia.
Qed.

Lemma forward_entry_allocates uc k ck : only_allocates (forward_entry uc k ck).
Proof.
  unfold forward_entry. destruct ck as [ct|cs].
  - apply only_allocates_bind; [apply only_allocates_lift|]. intros [ut|us].
    + apply only_allocates_bind; [apply only_allocates_cat|]. intros r.
      apply only_allocates_ret.
    + apply only_allocates_lift.
  - apply only_allocates_bind.
    + apply only_allocates_mapM. intros [i ci].
      apply only_allocates_bind; [apply only_allocates_lift|]. intros u.
      apply only_allocates_cat.
    + intros l. apply only_allocates_ret.
Qed.

Lemma forward_entries_allocates uc todo c_in :
  only_allocates (forward_entries uc todo c_in).
Proof.
  revert c_in. induction todo as [|[k ck] rest IH]; intros c_in; simpl.
  - apply only_allocates_ret.
  - apply only_allocates_bind; [apply forward_entry_allocates|]. intros v.
    apply IH.
Qed.

Context (HF : functional_collaborators).

Lemma forward_func_allocates sd bbox_id x c ts uc :
  only_allocates (forward_func sd bbox_id x c ts uc).
Proof.
  unfold forward_func.
  apply only_allocates_bind; [apply forward_entries_allocates|]. intros c_in.
  apply only_allocates_bind; [apply only_allocates_lift|]. intros n.
  apply only_allocates_bind; [apply (set_control_allocates HF)|]. intros _.
  apply only_allocates_bind; [apply only_allocates_lift|]. intros org.
  apply (invoke_allocates HF).
Qed.

Lemma forward_func_fresh sd bbox_id x c ts uc :
  fresh_result (forward_func sd bbox_id x c ts uc).
Proof.
  unfold forward_func.
  apply fresh_result_bind; [apply forward_entries_allocates|]. intros c_in.
  apply fresh_result_bind; [apply only_allocates_lift|]. intros n.
  apply fresh_result_bind; [apply (set_control_allocates HF)|]. intros _.
  apply fresh_result_bind; [apply only_allocates_lift|]. intros org.
  apply (invoke_fresh HF).
Qed.

Lemma custom_apply_model_allocating x t c_in bbox_id bb cond uncond :
  allocating (custom_apply_model x t c_in bbox_id bb cond uncond).
Proof.
  unfold custom_apply_model.
  apply allocating_bind; [apply allocating_get_self|]. intros s.
  apply allocating_bind; [apply allocating_get_sd_model|]. intros sd.
  apply allocating_if.
  - apply allocating_bind; [apply allocating_lift|]. intros org.
    apply allocating_call_ext, (kdiff_allocates HF).
  - apply allocating_call_ext, (ddim_allocates HF).
    intros. apply forward_func_allocates.
Qed.

Lemma custom_apply_model_fresh x t c_in bbox_id bb cond uncond wd r wd1 :
  custom_apply_model x t c_in bbox_id bb cond uncond wd = Done r wd1 ->
  length (store wd) <= base r.
Proof.
  unfold custom_apply_model, bind, get_self, get_sd_model.
  destruct (is_kdiff (self wd)).
  - unfold lift. destruct (getattr _ _); [|discriminate].
    apply call_ext_fresh, (kdiff_fresh HF).
  - apply call_ext_fresh, (ddim_fresh HF).
    + intros. apply forward_func_allocates.
    + intros. apply forward_func_fresh.
Qed.

(** *** The uniform-tile phase *)

Lemma fuse_tile_keeps l N x_tile_out i bb wd :
  guarded l wd -> keeps l wd (final (fuse_tile N x_tile_out i bb wd)).
Proof.
  intros G. unfold fuse_tile.
  apply keeps_get_self. apply keeps_attr; [exact G|intros ptw _].
  apply keeps_attr; [exact G|intros rf _].
  apply keeps_lift; [exact G|intros rsl _].
  apply keeps_bind; [apply allocating_keeps; [apply allocating_binop|exact G]|].
  intros w wd1 _ G1.
  apply keeps_get_self. apply keeps_attr; [exact G1|intros xb Exb].
  apply keeps_lift; [exact G1|intros xsl Exsl].
  apply keeps_lift; [exact G1|intros osl _].
  apply keeps_bind; [apply allocating_keeps; [apply allocating_binop|exact G1]|].
  intros ct wd2 R2 G2.
  apply iop_keeps; [exact G2|]. rewrite (slice_view_ok_base _ _ _ Exsl).
  destruct G1 as (_ & Hxb & _). apply Hxb. exact Exb.
Qed.

Lemma fuse_tiles_keeps l N x_tile_out bboxes i wd :
  guarded l wd -> keeps l wd (final (fuse_tiles N x_tile_out i bboxes wd)).
Proof.
  revert i wd. induction bboxes as [|bb rest IH]; intros i wd G; simpl.
  - apply keeps_refl, G.
  - apply keeps_bind; [apply fuse_tile_keeps, G|]. intros _ wd1 _ G1.
    apply IH, G1.
Qed.

Lemma process_batch_keeps l x_in t_in cond N batch_id bboxes wd :
  guarded l wd ->
  keeps l wd (final (process_batch x_in t_in cond N batch_id bboxes wd)).
Proof.
  intros G. unfold process_batch.
  apply keeps_get_self. apply keeps_lift; [exact G|intros tl _].
  apply keeps_bind; [apply allocating_keeps; [apply allocating_cat|exact G]|].
  intros x_tile wd1 _ G1.
  apply keeps_bind; [apply allocating_keeps; [apply allocating_cat|exact G1]|].
  intros t_tile wd2 _ G2.
  apply keeps_bind; [apply allocating_keeps; [apply allocating_cat|exact G2]|].
  intros attn_tile wd3 _ G3.
  apply keeps_bind; [apply allocating_keeps; [apply allocating_cat|exact G3]|].
  intros image_cond_tile wd4 _ G4.
  apply keeps_bind;
    [apply allocating_keeps;
     [apply allocating_call_ext, (switch_allocates HF)|exact G4]|].
  intros _ wd5 _ G5.
  apply keeps_get_sd_model. apply keeps_lift; [exact G5|intros org _].
  apply keeps_bind;
    [apply allocating_keeps;
     [apply allocating_call_ext, (invoke_allocates HF)|exact G5]|].
  intros x_tile_out wd6 _ G6.
  apply keeps_bind; [apply fuse_tiles_keeps, G6|]. intros _ wd7 _ G7.
  apply allocating_keeps;
    [apply allocating_call_ext, (update_pbar_allocates HF)|exact G7].
Qed.

Lemma global_sampling_keeps l x_in t_in cond N batches batch_id wd :
  guarded l wd ->
  keeps l wd (final (global_sampling x_in t_in cond N batch_id batches wd)).
Proof.
  revert batch_id wd. induction batches as [|bboxes rest IH];
    intros batch_id wd G; simpl.
  - apply keeps_refl, G.
  - apply keeps_get_ext. destruct (interrupted (ext wd)).
    + apply keeps_refl, G.
    + apply keeps_bind; [apply process_batch_keeps, G|]. intros _ wd1 _ G1.
      apply IH, G1.
Qed.

(** *** The custom-region phase *)

Lemma rescale_buffer_keeps l wd :
  guarded l wd -> keeps l wd (final (rescale_buffer wd)).
Proof.
  intros G. unfold rescale_buffer. apply keeps_get_self.
  destruct (Rlt_dec _ _); [|apply keeps_refl, G].
  destruct (Rlt_dec _ _); [|apply keeps_refl, G].
  apply keeps_attr; [exact G|intros xb Exb].
  apply imul_scalar_keeps; [exact G|]. destruct G as (_ & Hxb & _).
  apply Hxb. exact Exb.
Qed.

Lemma custom_sampling_keeps l x_in t_in c_in regions bbox_id wd :
  guarded l wd ->
  keeps l wd (final (custom_sampling x_in t_in c_in bbox_id regions wd)).
Proof.
  revert bbox_id wd.
  induction regions as [|[[[bb cond] uncond] m] rest IH];
    intros bbox_id wd G; simpl.
  - apply keeps_refl, G.
  - apply keeps_lift; [exact G|intros x_tile _].
    apply keeps_bind;
      [apply allocating_keeps; [apply custom_apply_model_allocating|exact G]|].
    intros x_tile_out wd1 R1 G1.
    pose proof (custom_apply_model_fresh _ _ _ _ _ _ _ _ _ _ R1) as Hfresh.
    apply keeps_get_self. apply keeps_lift; [exact G1|intros cw _].
    apply keeps_bind.
    { apply iop_keeps; [exact G1|]. destruct G as (Hl & _). lia. }
    intros _ wd2 _ G2.
    apply keeps_get_self. apply keeps_attr; [exact G2|intros xb Exb].
    apply keeps_lift; [exact G2|intros xsl Exsl].
    apply keeps_bind.
    { apply iop_keeps; [exact G2|]. rewrite (slice_view_ok_base _ _ _ Exsl).
      destruct G2 as (_ & Hxb & _). apply Hxb. exact Exb. }
    intros _ wd3 _ G3.
    apply keeps_bind;
      [apply allocating_keeps;
       [apply allocating_call_ext, (update_pbar_allocates HF)|exact G3]|].
    intros _ wd4 _ G4. apply IH, G4.
Qed.

End ExtFacts.

(** ** init and apply_model leave the input canvas alone *)

Section InputFrame.
Context `{C : Collaborators}.
Context (HF : functional_collaborators).

Lemma to_done (r : tref) dev dt wd r' wd1 :
  to_ r dev dt wd = Done r' wd1 -> r' = r \/ length (store wd) <= base r'.
Proof.
  unfold to_, bind, get_store. destruct (_ && _).
  - intros R. injection R as <- _. left. reflexivity.
  - intros R. injection R as <- _. right. simpl. lia.
Qed.

Lemma keeps_modify_self l (g : Self -> Self) wd :
  guarded l wd -> safe_self l (g (self wd)) ->
  keeps l wd (final (modify_self g wd)).
Proof.
  intros (Hl & _) Hs. split; [reflexivity|]. split; [simpl; lia|].
  split; [exact Hl|exact Hs].
Qed.

Lemma safe_set_custom_weights l (s : Self) (v : list tref) :
  safe_self l s -> Forall (fun r => base r <> l) v ->
  safe_self l (set_custom_weights v s).
Proof. intros (Hxb & _) Hv. split; [exact Hxb|exact Hv]. Qed.

Lemma safe_set_rescale_factor l (s : Self) v :
  safe_self l s -> safe_self l (set_rescale_factor v s).
Proof. intros (Hxb & Hcw). split; [exact Hxb|exact Hcw]. Qed.

Lemma list_get_elem {A} (l : list A) (i : nat) (a : A) (P : A -> Prop) :
  Forall P l -> list_get l i = Ok a -> P a.
Proof.
  intros HP. unfold list_get. destruct (l !! i) as [b|] eqn:E; [|discriminate].
  intros R. injection R as <-. eapply Forall_lookup_1; eassumption.
Qed.

Lemma init_rescale_body_keeps l x_in bbox_id region wd :
  guarded l wd ->
  keeps l wd (final (init_rescale_body x_in bbox_id region wd)).
Proof.
  destruct region as [[[bb cond] uncond] m]. intros G.
  unfold init_rescale_body.
  apply keeps_get_self. apply keeps_lift; [exact G|intros cw Ecw].
  apply keeps_get_store.
  apply keeps_bind; [apply allocating_keeps; [apply allocating_to|exact G]|].
  intros cw' wd1 R1 G1.
  destruct (allocating_done _ _ _ _ (allocating_to _ _ _) R1) as (Es1 & _ & Hlen).
  assert (Hcw' : base cw' <> l).
  { destruct (to_done _ _ _ _ _ _ R1) as [->|Hfresh].
    - destruct G as (_ & _ & Hall). exact (list_get_elem _ _ _ _ Hall Ecw).
    - destruct G as (Hl & _). lia. }
  apply keeps_bind.
  { apply keeps_modify_self; [exact G1|].
    apply safe_set_custom_weights; [apply G1|].
    apply Forall_insert; [apply G1|exact Hcw']. }
  intros _ wd2 _ G2.
  apply keeps_get_self. apply keeps_lift; [exact G2|intros cw2 Ecw2].
  apply keeps_attr; [exact G2|intros rf _].
  apply keeps_lift; [exact G2|intros sl _].
  apply iop_keeps; [exact G2|]. destruct G2 as (_ & _ & Hall).
  exact (list_get_elem _ _ _ _ Hall Ecw2).
Qed.

Lemma init_rescale_loop_keeps l x_in regions bbox_id wd :
  guarded l wd ->
  keeps l wd (final (init_rescale_loop x_in bbox_id regions wd)).
Proof.
  revert bbox_id wd. induction regions as [|region rest IH];
    intros bbox_id wd G; simpl.
  - apply keeps_refl, G.
  - apply keeps_bind; [apply init_rescale_body_keeps, G|].
    intros _ wd1 _ G1. apply IH, G1.
Qed.

Lemma super_init_run (x_in : tref) (wd : World) :
  super_init x_in wd =
    Done tt
      (with_self
         (set_x_buffer (Some (whole (length (store wd)) (ref_shape x_in)))
                       (self wd))
         (with_store
            (store wd ++
             [Tensor (ref_shape x_in) (ref_device (store wd) x_in)
                (ref_dtype (store wd) x_in) (fun _ => 0%R)])
            wd)).
Proof. reflexivity. Qed.

(** After [super_init] the cell [l] is guarded, whatever [x_buffer] was. *)
Lemma super_init_guards l x_in wd wd1 :
  l < length (store wd) ->
  Forall (fun r => base r <> l) (custom_weights (self wd)) ->
  super_init x_in wd = Done tt wd1 ->
  store wd1 !! l = store wd !! l /\ length (store wd) <= length (store wd1) /\
  guarded l wd1.
Proof.
  intros Hl Hcw R. rewrite super_init_run in R. injection R as <-.
  unfold guarded, safe_self.
  cbn [store self with_self with_store set_x_buffer x_buffer custom_weights].
  rewrite length_app. split; [|split; [|split; [|split]]].
  - apply lookup_app_l. exact Hl.
  - lia.
  - lia.
  - intros xb E. injection E as <-. cbn [base whole]. lia.
  - exact Hcw.
Qed.

Lemma init_frame l x_in wd :
  l < length (store wd) ->
  Forall (fun r => base r <> l) (custom_weights (self wd)) ->
  keeps l wd (final (init x_in wd)) /\
  store (final (init x_in wd)) !! l = store wd !! l.
Proof.
  intros Hl Hcw.
  destruct (super_init_guards l x_in wd _ Hl Hcw (super_init_run x_in wd))
    as (E1 & L1 & G1).
  set (wd1 := with_self _ _) in *.
  assert (Hrest :
    keeps l wd1
      (final
         ((let* s := get_self in
           match rescale_factor s with
           | Some _ => ret tt
           | None =>
               let* wt := attr (weights s) in
               let* rf := rdiv_scalar 1 wt in
               let* _ := modify_self (set_rescale_factor (Some rf)) in
               let* s := get_self in
               init_rescale_loop x_in 0 (custom_bboxes s)
           end) wd1))).
  { apply keeps_get_self. destruct (rescale_factor (self wd1)).
    - apply keeps_refl, G1.
    - apply keeps_attr; [exact G1|intros wt _].
      apply keeps_bind;
        [apply allocating_keeps; [apply allocating_rdiv_scalar|exact G1]|].
      intros rf wd2 _ G2.
      apply keeps_bind.
      { apply keeps_modify_self; [exact G2|].
        apply safe_set_rescale_factor, G2. }
      intros _ wd3 _ G3. apply keeps_get_self.
      apply init_rescale_loop_keeps, G3. }
  assert (Efinal : final (init x_in wd)
                   = final
         ((let* s := get_self in
           match rescale_factor s with
           | Some _ => ret tt
           | None =>
               let* wt := attr (weights s) in
               let* rf := rdiv_scalar 1 wt in
               let* _ := modify_self (set_rescale_factor (Some rf)) in
               let* s := get_self in
               init_rescale_loop x_in 0 (custom_bboxes s)
           end) wd1)).
  { unfold init. rewrite (bind_done (super_init x_in) _ wd tt wd1
                            (super_init_run x_in wd)). reflexivity. }
  rewrite Efinal. destruct Hrest as (E2 & L2 & G2).
  split; [|congruence].
  split; [congruence|]. split; [lia|exact G2].
Qed.

(** The cell of the input canvas across a whole call. *)
Lemma apply_model_frame (wd : World) (x_in t_in : tref) (cond : PyCond) :
  base x_in < length (store wd) ->
  Forall (fun r => base r <> base x_in) (custom_weights (self wd)) ->
  store (final (apply_model x_in t_in cond wd)) !! base x_in
    = store wd !! base x_in.
Proof.
  intros Hl Hcw. set (l := base x_in) in *.
  unfold apply_model.
  destruct (unpack4 (ref_shape x_in)) as [[[[N Ch] H] W]|e]; [|reflexivity].
  unfold bind at 1, lift. cbv beta iota.
  unfold bind at 1, get_self at 1. cbv beta iota.
  destruct (negb _); [reflexivity|].
  destruct (init_frame l x_in wd Hl Hcw) as ((_ & _ & G0) & E0).
  unfold bind at 1. destruct (init x_in wd) as [[] wd0|e wd0]; simpl in E0, G0;
    [|exact E0].
  rewrite <- E0.
  assert (K : keeps l wd0
    (final
       ((let* early := global_phase x_in t_in cond N in
         match early with
         | Some r => ret r
         | None =>
             let* _ := custom_phase x_in t_in cond in
             let* s := get_self in
             attr (x_buffer s)
         end) wd0))).
  { apply keeps_bind.
    { unfold global_phase. apply keeps_get_self.
      destruct (Rlt_dec _ _); [apply global_sampling_keeps; assumption|].
      apply keeps_refl, G0. }
    intros [r|] wd1 _ G1; [apply keeps_refl, G1|].
    apply keeps_bind.
    { unfold custom_phase. apply keeps_get_self.
      destruct (0 <? _); [|apply keeps_refl, G1].
      apply keeps_bind; [apply rescale_buffer_keeps, G1|]. intros _ wd2 _ G2.
      apply keeps_get_self. apply custom_sampling_keeps; assumption. }
    intros _ wd3 _ G3. apply keeps_get_self. apply keeps_final_attr, G3. }
  apply K.
Qed.

(** C10, as amended.  When the collaborators return new tensors and write
    to no tensor that existed, and no cached weight shares the storage of
    the input canvas, a call of [apply_model] leaves the storage of its
    input canvas as it found it, whether the call returns the buffer,
    returns early on interruption or raises, and whatever the multiplier,
    the batches and the custom regions are: every element of [x_in] reads
    the same after the call.  (The method itself writes in place into what
    the forward adapter returns, so an adapter that returns its argument
    has the canvas overwritten.) *)
Theorem apply_model_keeps_input (wd : World) (x_in t_in : tref) (cond : PyCond) :
  base x_in < length (store wd) ->
  Forall (fun r => base r <> base x_in) (custom_weights (self wd)) ->
  forall idx,
    tread (store (final (apply_model x_in t_in cond wd))) x_in idx
      = tread (store wd) x_in idx.
Proof.
  intros Hl Hcw idx. unfold tread.
  rewrite (apply_model_frame wd x_in t_in cond Hl Hcw). reflexivity.
Qed.

End InputFrame.

(** ** Interruption *)

Section Interruption.
Context `{C : Collaborators}.
Context (HF : functional_collaborators).

(** Running the loop over [pre ++ rest] is running it over [pre] and, when
    that neither returned early nor raised, going on with [rest]. *)
Lemma global_sampling_app x_in t_in cond N pre rest batch_id wd :
  global_sampling x_in t_in cond N batch_id (pre ++ rest) wd =
    match global_sampling x_in t_in cond N batch_id pre wd with
    | Done None wd1 =>
        global_sampling x_in t_in cond N (batch_id + length pre) rest wd1
    | other => other
    end.
Proof.
  revert batch_id wd. induction pre as [|bboxes pre IH]; intros batch_id wd.
  - simpl. rewrite Nat.add_0_r. reflexivity.
  - cbn [app global_sampling length]. unfold bind, get_ext.
    destruct (interrupted (ext wd)); [reflexivity|].
    destruct (process_batch x_in t_in cond N batch_id bboxes wd) as [[] wd1|e wd1];
      [|reflexivity].
    replace (batch_id + S (length pre)) with (S batch_id + length pre) by lia.
    apply IH.
Qed.

Lemma global_sampling_interrupted x_in t_in cond N bboxes rest batch_id wd :
  interrupted (ext wd) = true ->
  global_sampling x_in t_in cond N batch_id (bboxes :: rest) wd
    = Done (Some x_in) wd.
Proof.
  intros Hi. cbn [global_sampling]. unfold bind, get_ext. rewrite Hi.
  reflexivity.
Qed.

(** C6.  When the uniform-tile phase runs and the interruption flag is
    found set at the check before a batch, the batches before it having
    been processed, [apply_model] returns there: it returns its argument
    [x_in] itself, without raising, processes no further batch and no
    custom region, and the canvas holds the values it held at the call. *)
Theorem interrupted_returns_input (wd wd0 wdk : World) (x_in t_in : tref)
    (cond : PyCond) (N Ch H W : nat) (pre : list (list bbox))
    (bboxes : list bbox) (post : list (list bbox)) :
  ref_shape x_in = [N; Ch; H; W] ->
  self_h (self wd) = Z.of_nat H -> self_w (self wd) = Z.of_nat W ->
  base x_in < length (store wd) ->
  Forall (fun r => base r <> base x_in) (custom_weights (self wd)) ->
  init x_in wd = Done tt wd0 ->
  (0 < global_multiplier (self wd0))%R ->
  batched_bboxes (self wd0) = pre ++ bboxes :: post ->
  global_sampling x_in t_in cond N 0 pre wd0 = Done None wdk ->
  interrupted (ext wdk) = true ->
  apply_model x_in t_in cond wd = Done x_in wdk /\
  forall idx, tread (store wdk) x_in idx = tread (store wd) x_in idx.
Proof.
  intros Hshp Hh Hw Hl Hcw Hinit Hgm Hbatches Hpre Hirq.
  assert (Hrun : apply_model x_in t_in cond wd = Done x_in wdk).
  { unfold apply_model. rewrite Hshp. cbn [unpack4].
    unfold bind at 1, lift. cbv beta iota.
    unfold bind at 1, get_self at 1. cbv beta iota.
    rewrite Hh, Hw, !Z.eqb_refl. cbn [andb negb].
    rewrite (bind_done _ _ wd tt wd0 Hinit).
    unfold bind at 1, global_phase, bind at 1, get_self at 1. cbv beta iota.
    destruct (Rlt_dec 0 (global_multiplier (self wd0))) as [_|Hn];
      [|contradiction].
    rewrite Hbatches, global_sampling_app, Hpre.
    rewrite (global_sampling_interrupted _ _ _ _ _ _ _ _ Hirq).
    reflexivity. }
  split; [exact Hrun|].
  intros idx. unfold tread.
  pose proof (apply_model_frame HF wd x_in t_in cond Hl Hcw) as Hf.
  rewrite Hrun in Hf. simpl in Hf. rewrite Hf. reflexivity.
Qed.

End Interruption.

(** ** The rescale factor is set up once *)

Section Inversion.
Context `{C : Collaborators}.

Lemma iop_done op (a b : tref) wd u wd1 :
  iop op a b wd = Done u wd1 ->
  self wd1 = self wd /\ length (store wd1) = length (store wd).
Proof.
  unfold iop, bind, get_store. destruct (negb _); [discriminate|].
  destruct (broadcast_shapes _ _); [|discriminate].
  destruct (bool_decide _); [|discriminate].
  intros R. injection R as _ <-. simpl. rewrite length_update_view. auto.
Qed.

End Inversion.

(** Taking a successful run apart, one step at a time. *)
Ltac run_inv_as H N :=
  lazymatch type of H with
  | bind get_self _ _ = Done _ _ =>
      unfold bind at 1, get_self at 1 in H; cbv beta iota in H
  | bind get_store _ _ = Done _ _ =>
      unfold bind at 1, get_store at 1 in H; cbv beta iota in H
  | bind (lift ?r) _ _ = Done _ _ =>
      destruct r eqn:N;
      [unfold bind at 1, lift at 1 in H; cbv beta iota in H
      |discriminate H]
  | bind (attr ?o) _ _ = Done _ _ =>
      destruct o eqn:N;
      [unfold bind at 1, attr at 1, ret at 1 in H; cbv beta iota in H
      |discriminate H]
  | bind (modify_self _) _ _ = Done _ _ =>
      unfold bind at 1, modify_self at 1 in H; cbv beta iota in H
  | bind _ _ _ = Done _ _ =>
      apply bind_done_inv in H as (? & ? & N & H)
  end.

Tactic Notation "run_inv" hyp(H) "as" ident(N) := run_inv_as H N.
Tactic Notation "run_inv" hyp(H) :=
  let N := fresh "Hstep" in run_inv_as H N.

Section RescaleOnce.
Context `{C : Collaborators}.

Lemma init_rescale_body_fields x_in region bbox_id wd wd1 :
  init_rescale_body x_in bbox_id region wd = Done tt wd1 ->
  rescale_factor (self wd1) = rescale_factor (self wd) /\
  x_buffer (self wd1) = x_buffer (self wd) /\
  weights (self wd1) = weights (self wd) /\
  length (custom_weights (self wd1)) = length (custom_weights (self wd)).
Proof.
  destruct region as [[[bb cond] uncond] m]. intros H.
  unfold init_rescale_body in H.
  run_inv H. run_inv H. run_inv H. run_inv H as Hto.
  destruct (allocating_done _ _ _ _ (allocating_to _ _ _) Hto) as (Es & _).
  run_inv H. run_inv H. run_inv H. run_inv H. run_inv H.
  destruct (iop_done _ _ _ _ _ _ H) as (Es2 & _).
  rewrite Es2. cbn. rewrite Es, length_insert. auto.
Qed.

Lemma init_rescale_loop_fields x_in regions bbox_id wd wd1 :
  init_rescale_loop x_in bbox_id regions wd = Done tt wd1 ->
  rescale_factor (self wd1) = rescale_factor (self wd) /\
  x_buffer (self wd1) = x_buffer (self wd) /\
  weights (self wd1) = weights (self wd) /\
  length (custom_weights (self wd1)) = length (custom_weights (self wd)).
Proof.
  revert bbox_id wd. induction regions as [|region rest IH];
    intros bbox_id wd H; cbn [init_rescale_loop] in H.
  - injection H as <-. auto.
  - run_inv H as Hbody. destruct x.
    destruct (init_rescale_body_fields _ _ _ _ _ Hbody) as (B1 & B2 & B3 & B4).
    destruct (IH _ _ H) as (F1 & F2 & F3 & F4).
    rewrite F1, F2, F3, F4. auto.
Qed.

(** A call of [init] on a state that has the rescale factor. *)
Lemma init_again (wd : World) (x_in rf : tref) :
  rescale_factor (self wd) = Some rf ->
  init x_in wd =
    Done tt
      (with_self
         (set_x_buffer (Some (whole (length (store wd)) (ref_shape x_in)))
                       (self wd))
         (with_store
            (store wd ++
             [Tensor (ref_shape x_in) (ref_device (store wd) x_in)
                (ref_dtype (store wd) x_in) (fun _ => 0%R)])
            wd)).
Proof.
  intros Hrf. unfold init.
  rewrite (bind_done _ _ _ _ _ (super_init_run x_in wd)).
  unfold bind, get_self. cbn. rewrite Hrf. reflexivity.
Qed.

Lemma init_sets_rescale (wd wd1 : World) (x_in : tref) :
  init x_in wd = Done tt wd1 -> is_Some (rescale_factor (self wd1)).
Proof.
  intros H. destruct (rescale_factor (self wd)) as [rf|] eqn:Hrf.
  - rewrite (init_again wd x_in rf Hrf) in H. injection H as <-.
    cbn. rewrite Hrf. eauto.
  - unfold init in H.
    rewrite (bind_done _ _ _ _ _ (super_init_run x_in wd)) in H.
    run_inv H. cbn in H. rewrite Hrf in H.
    run_inv H. run_inv H. run_inv H. run_inv H.
    destruct (init_rescale_loop_fields _ _ _ _ _ H) as (F1 & _).
    rewrite F1. cbn. eauto.
Qed.

(** What the first call computes: the reciprocal of [weights]. *)
Lemma init_first_rescale (wd wd1 : World) (x_in wt : tref) :
  init x_in wd = Done tt wd1 ->
  rescale_factor (self wd) = None ->
  weights (self wd) = Some wt ->
  base wt < length (store wd) ->
  Forall (fun r => base r < length (store wd)) (custom_weights (self wd)) ->
  exists rf,
    rescale_factor (self wd1) = Some rf /\
    ref_shape rf = ref_shape wt /\
    forall idx, length idx = length (ref_shape wt) ->
      tread (store wd1) rf idx = (1 / tread (store wd) wt idx)%R.
Proof.
  intros H Hrf Hwt Hl Hcw. unfold init in H.
  rewrite (bind_done _ _ _ _ _ (super_init_run x_in wd)) in H.
  run_inv H. cbn in H. rewrite Hrf, Hwt in H.
  unfold bind at 1, attr at 1, ret at 1 in H. cbv beta iota in H.
  unfold bind at 1, rdiv_scalar at 1, bind at 1, get_store at 1, alloc, st,
    alloc_h in H. cbv beta iota in H.
  run_inv H. run_inv H.
  cbn [store self with_self with_store t_shape custom_bboxes
       set_rescale_factor set_x_buffer] in H.
  set (h0 := store wd) in *.
  set (z := Tensor (ref_shape x_in) _ _ _) in H.
  set (t := Tensor (ref_shape wt) _ _ _) in H.
  set (rf := whole (length (h0 ++ [z])) (ref_shape wt)) in H.
  match type of H with
  | init_rescale_loop _ _ _ ?w = _ => set (wd3 := w) in H
  end.
  assert (G : guarded (base rf) wd3).
  { unfold guarded, safe_self, wd3, rf. cbn. rewrite !length_app. cbn.
    split; [lia|]. split.
    - intros xb E. injection E as <-. cbn. lia.
    - eapply Forall_impl; [exact Hcw|]. intros r Hr. cbn in Hr. fold h0 in Hr. lia. }
  match type of H with
  | init_rescale_loop _ _ ?regions _ = _ =>
      pose proof (init_rescale_loop_keeps (base rf) x_in regions 0 wd3 G)
        as (K & _)
  end.
  rewrite H in K. cbn [final] in K.
  destruct (init_rescale_loop_fields _ _ _ _ _ H) as (F1 & _).
  exists rf. split; [rewrite F1; reflexivity|].
  split; [apply ref_shape_whole|].
  intros idx Hidx. unfold tread at 1. rewrite K.
  unfold wd3, rf. cbn [store with_store with_self base whole view].
  rewrite list_lookup_middle by reflexivity.
  rewrite to_base_whole by assumption. unfold t. cbn [t_data].
  rewrite tread_app_old by exact Hl. reflexivity.
Qed.

End RescaleOnce.

(** ** Rescaling the buffer before the custom regions *)

Section Rescale.
Context `{C : Collaborators}.

Lemma in_view_to_base (v : list vdim) (idx : list nat) :
  in_shape idx (view_shape v) -> in_view v (to_base v idx) = true.
Proof.
  revert idx. induction v as [|[off len|len|j] v IH]; intros idx Hin;
    cbn [view_shape] in Hin; cbn [to_base in_view].
  - inversion Hin. reflexivity.
  - inversion Hin as [|i d idx' shp Hi Hrest]; subst. cbn [in_view].
    rewrite (IH _ Hrest), andb_true_r.
    apply andb_true_intro. split; [apply Nat.leb_le|apply Nat.ltb_lt]; lia.
  - inversion Hin as [|i d idx' shp Hi Hrest]; subst.
    rewrite (IH _ Hrest), andb_true_r. apply Nat.ltb_lt. lia.
  - rewrite (IH _ Hin), Nat.eqb_refl. reflexivity.
Qed.

Lemma scaled_reads (xb : tref) (m : R) (wd : World) :
  base xb < length (store wd) ->
  (forall idx, in_shape idx (ref_shape xb) ->
     tread (store (scaled xb m wd)) xb idx = (tread (store wd) xb idx * m)%R) /\
  (forall l, l <> base xb -> store (scaled xb m wd) !! l = store wd !! l) /\
  self (scaled xb m wd) = self wd /\ ext (scaled xb m wd) = ext wd.
Proof.
  intros Hl. unfold scaled. cbn [store self ext with_store]. split; [|split].
  - intros idx Hin. rewrite tread_update_same by auto.
    rewrite in_view_to_base by exact Hin. reflexivity.
  - intros l Hne. apply update_view_other. exact Hne.
  - auto.
Qed.

Lemma rescale_buffer_scales (wd : World) (xb : tref) :
  x_buffer (self wd) = Some xb ->
  (0 < global_multiplier (self wd))%R ->
  (eps < Rabs (global_multiplier (self wd) - 1))%R ->
  rescale_buffer wd = Done tt (scaled xb (global_multiplier (self wd)) wd).
Proof.
  intros Hxb Hpos Hfar. unfold rescale_buffer, bind, get_self.
  destruct (Rlt_dec _ _); [|contradiction].
  destruct (Rlt_dec _ _); [|contradiction].
  rewrite Hxb. reflexivity.
Qed.

Lemma rescale_buffer_skips (wd : World) :
  (global_multiplier (self wd) <= 0
   \/ Rabs (global_multiplier (self wd) - 1) <= eps)%R ->
  rescale_buffer wd = Done tt wd.
Proof.
  intros Hnear. unfold rescale_buffer, bind, get_self.
  destruct (Rlt_dec 0 _) as [Hpos|_]; [|reflexivity].
  destruct (Rlt_dec eps _) as [Hfar|_]; [|reflexivity].
  destruct Hnear; lra.
Qed.

(** A call that gets past the uniform-tile phase goes on with the custom
    phase and returns [x_buffer]. *)
Lemma apply_model_phases (wd wd0 wdg : World) (x_in t_in : tref)
    (cond : PyCond) (N Ch H W : nat) :
  ref_shape x_in = [N; Ch; H; W] ->
  self_h (self wd) = Z.of_nat H -> self_w (self wd) = Z.of_nat W ->
  init x_in wd = Done tt wd0 ->
  global_phase x_in t_in cond N wd0 = Done None wdg ->
  apply_model x_in t_in cond wd =
    (let* _ := custom_phase x_in t_in cond in
     let* s := get_self in
     attr (x_buffer s)) wdg.
Proof.
  intros Hshp Hh Hw Hinit Hglobal.
  unfold apply_model. rewrite Hshp. cbn [unpack4].
  unfold bind at 1, lift. cbv beta iota.
  unfold bind at 1, get_self at 1. cbv beta iota.
  rewrite Hh, Hw, !Z.eqb_refl. cbn [andb negb].
  rewrite (bind_done _ _ wd tt wd0 Hinit).
  rewrite (bind_done _ _ wd0 None wdg Hglobal). reflexivity.
Qed.

(** C5, as amended.  Past the uniform-tile phase, with the accumulated
    buffer [xb]:
    - with no custom region the call returns the buffer as accumulated,
      whatever the multiplier: nothing is scaled;
    - with a custom region, a positive multiplier further than 1e-6 from 1
      scales every element of the buffer by it, and the custom regions are
      then added to the scaled buffer;
    - with a custom region and a multiplier that is not positive or is
      within 1e-6 of 1, the custom regions are added to the buffer as
      accumulated. *)
Theorem apply_model_rescales (wd wd0 wdg : World) (x_in t_in : tref)
    (cond : PyCond) (N Ch H W : nat) (xb : tref) :
  ref_shape x_in = [N; Ch; H; W] ->
  self_h (self wd) = Z.of_nat H -> self_w (self wd) = Z.of_nat W ->
  init x_in wd = Done tt wd0 ->
  global_phase x_in t_in cond N wd0 = Done None wdg ->
  x_buffer (self wdg) = Some xb -> base xb < length (store wdg) ->
  let gm := global_multiplier (self wdg) in
  let regions := custom_bboxes (self wdg) in
  (regions = [] -> apply_model x_in t_in cond wd = Done xb wdg) /\
  (regions <> [] -> (0 < gm)%R -> (eps < Rabs (gm - 1))%R ->
     (forall idx, in_shape idx (ref_shape xb) ->
        tread (store (scaled xb gm wdg)) xb idx
          = (tread (store wdg) xb idx * gm)%R) /\
     (forall l, l <> base xb -> store (scaled xb gm wdg) !! l = store wdg !! l) /\
     apply_model x_in t_in cond wd =
       (let* _ := custom_sampling x_in t_in cond 0 regions in
        let* s := get_self in
        attr (x_buffer s)) (scaled xb gm wdg)) /\
  (regions <> [] -> (gm <= 0 \/ Rabs (gm - 1) <= eps)%R ->
     apply_model x_in t_in cond wd =
       (let* _ := custom_sampling x_in t_in cond 0 regions in
        let* s := get_self in
        attr (x_buffer s)) wdg).
Proof.
  intros Hshp Hh Hw Hinit Hglobal Hxb Hl gm regions.
  pose proof (apply_model_phases wd wd0 wdg x_in t_in cond N Ch H W
                Hshp Hh Hw Hinit Hglobal) as Hrun.
  assert (Hlen : forall r, r <> [] -> (0 <? length (r : list Region)) = true).
  { intros [|a r] Hr; [contradiction|reflexivity]. }
  split; [|split].
  - intros Hnone. rewrite Hrun. unfold custom_phase, bind, get_self.
    fold regions. rewrite Hnone. cbn. unfold attr. rewrite Hxb. reflexivity.
  - intros Hsome Hpos Hfar.
    destruct (scaled_reads xb gm wdg Hl) as (Hread & Hother & Hself & _).
    split; [exact Hread|]. split; [exact Hother|].
    rewrite Hrun. unfold custom_phase.
    unfold bind at 1 2, get_self at 1. fold regions. rewrite (Hlen _ Hsome).
    rewrite (bind_done _ _ wdg tt _ (rescale_buffer_scales wdg xb Hxb Hpos Hfar)).
    fold gm. unfold bind at 1, get_self at 1. rewrite Hself. reflexivity.
  - intros Hsome Hnear. rewrite Hrun. unfold custom_phase.
    unfold bind at 1 2, get_self at 1. fold regions. rewrite (Hlen _ Hsome).
    rewrite (bind_done _ _ wdg tt _ (rescale_buffer_skips wdg Hnear)).
    reflexivity.
Qed.

End Rescale.

(** ** The weight sums of the custom regions *)

Section CustomWeights.
Context `{C : Collaborators}.

(** The two tensors a call of the weight generator makes, and the entries
    of the one it returns. *)
Lemma gaussian_weights_result (wd : World) (w h : Z) :
  w <> 0%Z ->
  exists t1 t2,
    _gaussian_weights (Some w) (Some h) wd =
      Done (whole (S (length (store wd))) [Z.to_nat h; Z.to_nat w])
           (with_store (store wd ++ [t1; t2]) wd) /\
    t_device t2 = devices_device /\
    forall y x, y < Z.to_nat h -> x < Z.to_nat w ->
      t_data t2 [y; x] =
        (f_value w (Z.of_nat y) (IZR h / 2)
         * f_value w (Z.of_nat x) (IZR (w - 1) / 2))%R.
Proof.
  intros Hw. pose proof (gaussian_array_nonzero w h Hw) as Ha.
  pose proof (gaussian_weights_run wd (Some w) (Some h) _ Ha eq_refl) as Hrun.
  cbn [outer t_shape] in Hrun.
  rewrite !length_map, !length_range, length_app, <- app_assoc in Hrun.
  cbn [length app] in Hrun.
  replace (length (store wd) + 1) with (S (length (store wd))) in Hrun by lia.
  eexists _, _. split; [exact Hrun|]. split; [reflexivity|].
  intros y x Hy Hx. cbn [t_data].
  rewrite tread_alloc_new by reflexivity. cbn [t_data outer].
  rewrite !nth_range_map by assumption. reflexivity.
Qed.

Lemma region_term_step (bb : bbox) (cond uncond : RegionCond) (m : R)
    (y x : nat) (old : R) :
  (if in_bbox bb y x then (old + kernel_at bb y x * m)%R else old)
  = (old + region_term (bb, cond, uncond, m) y x)%R.
Proof.
  unfold region_term. destruct (in_bbox bb y x); [reflexivity|]. lra.
Qed.

(** One round of the loop of [init_custom_bbox]. *)
Lemma init_custom_bbox_body_weights (wd : World) (region : Region)
    (n c H W lw : nat) :
  weights (self wd) = Some (whole lw [n; c; H; W]) ->
  lw < length (store wd) ->
  ref_device (store wd) (whole lw [n; c; H; W]) = devices_device ->
  region_in H W region ->
  exists wd',
    init_custom_bbox_body region wd = Done tt wd' /\
    weights (self wd') = weights (self wd) /\
    custom_bboxes (self wd') = custom_bboxes (self wd) /\
    length (custom_weights (self wd')) = S (length (custom_weights (self wd))) /\
    length (store wd) <= length (store wd') /\
    ref_device (store wd') (whole lw [n; c; H; W]) = devices_device /\
    forall i j y x, i < n -> j < c -> y < H -> x < W ->
      tread (store wd') (whole lw [n; c; H; W]) [i; j; y; x] =
        (tread (store wd) (whole lw [n; c; H; W]) [i; j; y; x]
         + region_term region y x)%R.
Proof.
  destruct region as [[[bb cond] uncond] m].
  intros Hwt Hl Hdev (Hbb & Hwpos & Hhpos).
  set (bw := (b2 bb - b0 bb)%Z). set (bh := (b3 bb - b1 bb)%Z).
  destruct (gaussian_weights_result wd bw bh ltac:(unfold bw; lia))
    as (t1 & t2 & Hg & Dg & Vg).
  set (h := store wd) in *.
  set (g := whole (S (length h)) [Z.to_nat bh; Z.to_nat bw]) in *.
  set (wd1 := with_store (h ++ [t1; t2]) wd) in *.
  set (t3 := Tensor [Z.to_nat bh; Z.to_nat bw] (ref_device (h ++ [t1; t2]) g)
               (ref_dtype (h ++ [t1; t2]) g)
               (fun idx => (tread (h ++ [t1; t2]) g idx * m)%R)).
  set (gw := whole (length (h ++ [t1; t2])) [Z.to_nat bh; Z.to_nat bw]).
  set (wd2 := with_store ((h ++ [t1; t2]) ++ [t3]) wd1).
  assert (Hm : mul_scalar g m wd1 = Done gw wd2) by reflexivity.
  destruct (in_bbox_bounds bb H W 0 0 Hbb) as (Esy & Eny & Esx & Enx & _).
  set (sl := TRef lw [VSlice 0 n; VSlice 0 c;
                      VSlice (slice_bounds H (b1 bb) (b3 bb)).1
                             (slice_bounds H (b1 bb) (b3 bb)).2;
                      VSlice (slice_bounds W (b0 bb) (b2 bb)).1
                             (slice_bounds W (b0 bb) (b2 bb)).2]).
  assert (Ssl : ref_shape sl = [n; c; Z.to_nat bh; Z.to_nat bw]).
  { unfold sl, ref_shape. cbn [view view_shape]. rewrite Eny, Enx. reflexivity. }
  assert (Dg' : ref_device (h ++ [t1; t2]) g = devices_device).
  { unfold ref_device, g. cbn [base whole].
    replace (h ++ [t1; t2]) with ((h ++ [t1]) ++ [t2])
      by (rewrite <- app_assoc; reflexivity).
    rewrite list_lookup_middle by (rewrite length_app; simpl; lia).
    exact Dg. }
  pose proof (iop_run Rplus sl gw wd2) as Hi.
  rewrite Ssl in Hi. unfold gw at 2 3 in Hi. rewrite ref_shape_whole in Hi.
  assert (Dsl : ref_device (store wd2) sl = devices_device).
  { unfold wd2. cbn [store with_store].
    rewrite !ref_device_app_old by (cbn [base sl]; rewrite ?length_app; simpl; lia).
    exact Hdev. }
  assert (Dgw : ref_device (store wd2) gw = devices_device).
  { unfold wd2, gw. cbn [store with_store]. rewrite ref_device_new.
    unfold t3. cbn [t_device]. exact Dg'. }
  specialize (Hi ltac:(rewrite Dsl, Dgw; reflexivity)
                 (broadcast_4_2 (Z.to_nat bh) (Z.to_nat bw) n c)).
  eexists. split.
  { unfold init_custom_bbox_body. fold bw bh.
    rewrite (bind_done _ _ wd _ _ Hg).
    rewrite (bind_done _ _ wd1 _ _ Hm).
    unfold bind at 1, get_self at 1. cbv beta iota.
    change (self wd2) with (self wd). rewrite Hwt.
    unfold bind at 1, attr at 1, ret at 1. cbv beta iota.
    rewrite slice_bbox_whole. unfold bind at 1, lift at 1. cbv beta iota.
    fold sl. rewrite (bind_done _ _ wd2 _ _ Hi). reflexivity. }
  unfold modify_self. cbn [final self store with_self with_store
                           set_custom_weights weights custom_bboxes
                           custom_weights wd2 wd1].
  split; [reflexivity|]. split; [reflexivity|].
  split; [rewrite length_app; simpl; lia|].
  split; [rewrite length_update_view, !length_app; simpl; lia|].
  split.
  { rewrite ref_device_update.
    rewrite !ref_device_app_old
      by (cbn [base whole]; rewrite ?length_app; simpl; lia).
    exact Hdev. }
  intros i j y x Hi' Hj Hy Hx.
  rewrite tread_update_same
    by (cbn [base sl whole]; rewrite ?length_app; simpl; lia).
  rewrite to_base_view_whole by reflexivity.
  unfold sl at 1. cbn [view]. rewrite in_view_slice4 by assumption.
  destruct (in_bbox_bounds bb H W y x Hbb) as (_ & _ & _ & _ & Ein).
  rewrite Ein.
  rewrite !(tread_app_old _ _ (whole lw [n; c; H; W]))
    by (cbn [base whole]; rewrite ?length_app; simpl; lia).
  rewrite <- region_term_step.
  destruct (in_bbox bb y x) eqn:Ebb; [|reflexivity].
  f_equal.
  unfold in_bbox in Ebb. apply andb_prop in Ebb as [Eby Ebx].
  apply andb_prop in Eby as [Ey1 Ey2]. apply andb_prop in Ebx as [Ex1 Ex2].
  apply Nat.leb_le in Ey1, Ex1. apply Nat.ltb_lt in Ey2, Ex2.
  unfold sl. cbn [view of_base]. rewrite Esy, Esx, !Nat.sub_0_r.
  set (y' := y - Z.to_nat (b1 bb)). set (x' := x - Z.to_nat (b0 bb)).
  assert (Hy' : y' < Z.to_nat bh) by (unfold y', bh; lia).
  assert (Hx' : x' < Z.to_nat bw) by (unfold x', bw; lia).
  unfold gw. rewrite ?ref_shape_whole.
  rewrite bcast_index_2_4 by assumption.
  rewrite tread_alloc_new by reflexivity.
  unfold t3. cbn [t_data]. unfold kernel_at. fold bw bh y' x'.
  f_equal.
  unfold tread, g. cbn [base whole view map to_base].
  replace (h ++ [t1; t2]) with ((h ++ [t1]) ++ [t2])
    by (rewrite <- app_assoc; reflexivity).
  rewrite list_lookup_middle by (rewrite length_app; simpl; lia).
  apply Vg; assumption.
Qed.

Lemma init_custom_bbox_loop_weights (regions : list Region) (wd : World)
    (n c H W lw : nat) :
  weights (self wd) = Some (whole lw [n; c; H; W]) ->
  lw < length (store wd) ->
  ref_device (store wd) (whole lw [n; c; H; W]) = devices_device ->
  Forall (region_in H W) regions ->
  exists wd',
    init_custom_bbox_loop regions wd = Done tt wd' /\
    weights (self wd') = weights (self wd) /\
    custom_bboxes (self wd') = custom_bboxes (self wd) /\
    length (custom_weights (self wd'))
      = length (custom_weights (self wd)) + length regions /\
    forall i j y x, i < n -> j < c -> y < H -> x < W ->
      tread (store wd') (whole lw [n; c; H; W]) [i; j; y; x] =
        add_regions regions
          (tread (store wd) (whole lw [n; c; H; W]) [i; j; y; x]) y x.
Proof.
  revert wd. induction regions as [|region rest IH]; intros wd Hwt Hl Hdev Hall.
  - exists wd. cbn. repeat split; auto.
  - inversion Hall as [|? ? Hreg Hrest]; subst.
    destruct (init_custom_bbox_body_weights wd region n c H W lw Hwt Hl Hdev Hreg)
      as (wd1 & Hrun & Ew & Eb & Elen & Hlen & Hdev1 & Hval).
    destruct (IH wd1 ltac:(rewrite Ew; exact Hwt) ltac:(lia) Hdev1 Hrest)
      as (wd2 & Hrun2 & Ew2 & Eb2 & Elen2 & Hval2).
    exists wd2. split.
    { cbn [init_custom_bbox_loop]. rewrite (bind_done _ _ wd _ _ Hrun).
      exact Hrun2. }
    split; [congruence|]. split; [congruence|].
    split; [rewrite Elen2, Elen; simpl; lia|].
    intros i j y x Hi Hj Hy Hx.
    rewrite (Hval2 i j y x Hi Hj Hy Hx), (Hval i j y x Hi Hj Hy Hx).
    reflexivity.
Qed.

(** C3.  After the base class has set up the regions, [init_custom_bbox]
    adds to [weights], for each custom region in the order of the list,
    the Gaussian kernel of the size of the region's bounding box multiplied
    by the region's multiplier, at the place of the bounding box; it adds
    nothing else: the tiles of the uniform pass do not enter the sum.  It
    also appends one cached weight per region to [custom_weights]. *)
Theorem init_custom_bbox_weights (wd wd1 : World) (gm : R)
    (states : ControlStates) (n c H W lw : nat) :
  super_init_custom_bbox gm states wd = Done tt wd1 ->
  weights (self wd1) = Some (whole lw [n; c; H; W]) ->
  lw < length (store wd1) ->
  ref_device (store wd1) (whole lw [n; c; H; W]) = devices_device ->
  Forall (region_in H W) (custom_bboxes (self wd1)) ->
  exists wd2,
    init_custom_bbox gm states wd = Done tt wd2 /\
    weights (self wd2) = weights (self wd1) /\
    length (custom_weights (self wd2))
      = length (custom_weights (self wd1)) + length (custom_bboxes (self wd1)) /\
    forall i j y x, i < n -> j < c -> y < H -> x < W ->
      tread (store wd2) (whole lw [n; c; H; W]) [i; j; y; x] =
        add_regions (custom_bboxes (self wd1))
          (tread (store wd1) (whole lw [n; c; H; W]) [i; j; y; x]) y x.
Proof.
  intros Hsuper Hwt Hl Hdev Hall.
  destruct (init_custom_bbox_loop_weights _ wd1 n c H W lw Hwt Hl Hdev Hall)
    as (wd2 & Hrun & Ew & _ & Elen & Hval).
  exists wd2. split.
  { unfold init_custom_bbox. rewrite (bind_done _ _ wd _ _ Hsuper).
    exact Hrun. }
  auto.
Qed.

End CustomWeights.

(** ** The first call of init rescales the cached weights *)

Section FirstRescale.
Context `{C : Collaborators}.

Lemma of_base_to_base (v : list vdim) (idx : list nat) :
  unit_new v -> in_shape idx (view_shape v) -> of_base v (to_base v idx) = idx.
Proof.
  revert idx. induction v as [|[off len|len|j] v IH]; intros idx Hu Hin;
    cbn [view_shape] in Hin; inversion Hu as [|? ? Hd Hrest]; subst.
  - inversion Hin. reflexivity.
  - inversion Hin as [|i d idx' shp Hi Hrest']; subst. cbn [to_base of_base].
    rewrite (IH _ Hrest Hrest'). f_equal. lia.
  - inversion Hin as [|i d idx' shp Hi Hrest']; subst. cbn [to_base of_base].
    rewrite (IH _ Hrest Hrest'). f_equal. lia.
  - cbn [to_base of_base]. apply IH; assumption.
Qed.

Lemma unit_new_whole (shp : list nat) : unit_new (map (VSlice 0) shp).
Proof. unfold unit_new. induction shp; constructor; auto. Qed.

(** The tensor [.to(device, dtype)] gives: the same elements, on that
    device, either the tensor itself or a new one. *)
Lemma to_spec (cw : tref) (dev : nat) (dt : dtype) (wd : World)
    (shp : list nat) :
  ref_shape cw = shp -> unit_new (view cw) -> base cw < length (store wd) ->
  exists cw' wd1,
    to_ cw dev dt wd = Done cw' wd1 /\
    self wd1 = self wd /\
    (exists k, store wd1 = store wd ++ k) /\
    ref_shape cw' = shp /\ unit_new (view cw') /\
    base cw' < length (store wd1) /\
    (cw' = cw \/ length (store wd) <= base cw') /\
    ref_device (store wd1) cw' = dev /\
    forall idx, length idx = length shp ->
      tread (store wd1) cw' idx = tread (store wd) cw idx.
Proof.
  intros Hs Hu Hl. unfold to_, bind, get_store.
  destruct (ref_device (store wd) cw =? dev) eqn:Ed;
    [destruct (dtype_eqb (ref_dtype (store wd) cw) dt) eqn:Et|]; cbn [andb].
  - exists cw, wd. split; [reflexivity|]. split; [reflexivity|].
    split; [exists []; symmetry; apply app_nil_r|].
    split; [exact Hs|]. split; [exact Hu|]. split; [exact Hl|].
    split; [left; reflexivity|]. split; [apply Nat.eqb_eq, Ed|]. reflexivity.
  - eexists _, _. split; [reflexivity|]. cbn [self store with_store t_shape].
    split; [reflexivity|]. split; [eexists; reflexivity|].
    rewrite ref_shape_whole, Hs. split; [reflexivity|].
    split; [apply unit_new_whole|]. split; [rewrite length_app; simpl; lia|].
    split; [right; simpl; lia|]. split; [rewrite ref_device_new; reflexivity|].
    intros idx Hidx. rewrite tread_alloc_new by assumption. reflexivity.
  - eexists _, _. split; [reflexivity|]. cbn [self store with_store t_shape].
    split; [reflexivity|]. split; [eexists; reflexivity|].
    rewrite ref_shape_whole, Hs. split; [reflexivity|].
    split; [apply unit_new_whole|]. split; [rewrite length_app; simpl; lia|].
    split; [right; simpl; lia|]. split; [rewrite ref_device_new; reflexivity|].
    intros idx Hidx. rewrite tread_alloc_new by assumption. reflexivity.
Qed.

(** One round of the loop of [init]: the cached weight of the region is
    multiplied by the rescale factor over the region's bounding box. *)
Lemma init_rescale_body_run (wd : World) (x_in : tref) (i : nat)
    (region : Region) (cw : tref) (H W lr : nat) :
  custom_weights (self wd) !! i = Some cw ->
  weight_for cw region -> base cw < length (store wd) ->
  rescale_factor (self wd) = Some (whole lr [1; 1; H; W]) ->
  lr < length (store wd) ->
  bbox_in region.1.1.1 H W ->
  ref_device (store wd) (whole lr [1; 1; H; W]) = ref_device (store wd) x_in ->
  exists wd' cw',
    init_rescale_body x_in i region wd = Done tt wd' /\
    custom_weights (self wd') = <[i := cw']> (custom_weights (self wd)) /\
    rescale_factor (self wd') = rescale_factor (self wd) /\
    weight_for cw' region /\ base cw' < length (store wd') /\
    (cw' = cw \/ length (store wd) <= base cw') /\
    length (store wd) <= length (store wd') /\
    (forall r, base r < length (store wd) ->
       ref_device (store wd') r = ref_device (store wd) r) /\
    (forall l, l < length (store wd) -> l <> base cw ->
       store wd' !! l = store wd !! l) /\
    forall y x,
      y < Z.to_nat (b3 region.1.1.1 - b1 region.1.1.1) ->
      x < Z.to_nat (b2 region.1.1.1 - b0 region.1.1.1) ->
      tread (store wd') cw' [0; 0; y; x] =
        (tread (store wd) cw [0; 0; y; x]%nat
         * tread (store wd) (whole lr [1; 1; H; W]%nat)
             [0; 0; Z.to_nat (b1 region.1.1.1) + y;
              Z.to_nat (b0 region.1.1.1) + x]%nat)%R.
Proof.
  destruct region as [[[bb cond] uncond] m]. cbn [fst].
  intros Hcw (Hshp & Hunit) Hl Hrf Hlr Hbb Hdev.
  set (bh := Z.to_nat (b3 bb - b1 bb)) in *.
  set (bw := Z.to_nat (b2 bb - b0 bb)) in *.
  destruct (to_spec cw (ref_device (store wd) x_in) (ref_dtype (store wd) x_in)
              wd [1; 1; bh; bw] Hshp Hunit Hl)
    as (cw' & wd1 & Hto & Es1 & (k & Ek) & Hshp' & Hunit' & Hl' & Hor & Hd' & Hread).
  destruct (in_bbox_bounds bb H W 0 0 Hbb) as (Esy & Eny & Esx & Enx & _).
  set (sl := TRef lr [VSlice 0 1; VSlice 0 1;
                      VSlice (slice_bounds H (b1 bb) (b3 bb)).1
                             (slice_bounds H (b1 bb) (b3 bb)).2;
                      VSlice (slice_bounds W (b0 bb) (b2 bb)).1
                             (slice_bounds W (b0 bb) (b2 bb)).2]).
  assert (Ssl : ref_shape sl = [1; 1; bh; bw]).
  { unfold sl, ref_shape. cbn [view view_shape]. rewrite Eny, Enx. reflexivity. }
  set (wd2 := with_self
                (set_custom_weights (<[i := cw']> (custom_weights (self wd1)))
                                    (self wd1)) wd1).
  pose proof (iop_run Rmult cw' sl wd2) as Hi.
  rewrite Hshp', Ssl in Hi.
  assert (Dsl : ref_device (store wd2) sl = ref_device (store wd) x_in).
  { unfold wd2. cbn [store with_self]. rewrite Ek.
    rewrite ref_device_app_old by (cbn [base sl]; exact Hlr). exact Hdev. }
  specialize (Hi ltac:(unfold wd2 at 1; cbn [store with_self];
                       rewrite Hd', Dsl; reflexivity)
                 ltac:(unfold broadcast_shapes; cbn [rev app bshape_rev];
                       rewrite !bdim_same; reflexivity)).
  assert (Hi_lt : i < length (custom_weights (self wd)))
    by (eapply lookup_lt_Some; exact Hcw).
  exists (with_store
            (update_view cw'
               (fun idx old =>
                  (old * tread (store wd2) sl
                           (bcast_index [1; 1; bh; bw]%nat idx))%R)
               (store wd2)) wd2), cw'.
  split.
  { unfold init_rescale_body.
    unfold bind at 1, get_self at 1. cbv beta iota.
    unfold list_get at 1. rewrite Hcw.
    unfold bind at 1, lift at 1. cbv beta iota.
    unfold bind at 1, get_store at 1. cbv beta iota.
    rewrite (bind_done _ _ wd _ _ Hto).
    unfold bind at 1, modify_self at 1. cbv beta iota. fold wd2.
    unfold bind at 1, get_self at 1. cbv beta iota.
    unfold list_get at 1. unfold wd2 at 1. cbn [self with_self
      set_custom_weights custom_weights].
    rewrite list_lookup_insert_eq by (rewrite Es1; exact Hi_lt).
    unfold bind at 1, lift at 1. cbv beta iota.
    unfold wd2 at 1. cbn [self with_self set_custom_weights rescale_factor].
    rewrite Es1, Hrf.
    unfold bind at 1, attr at 1, ret at 1. cbv beta iota.
    rewrite slice_bbox_whole. unfold bind at 1, lift at 1. cbv beta iota.
    fold sl. exact Hi. }
  cbn [self store with_store with_self wd2 set_custom_weights custom_weights
       rescale_factor].
  rewrite Es1. split; [reflexivity|]. split; [reflexivity|].
  split; [split; assumption|].
  split; [rewrite length_update_view; exact Hl'|].
  split; [exact Hor|].
  split; [rewrite length_update_view, Ek, length_app; lia|].
  split.
  { intros r Hr. rewrite ref_device_update, Ek.
    apply ref_device_app_old. exact Hr. }
  split.
  { intros l Hlt Hne. rewrite update_view_other.
    - rewrite Ek. apply lookup_app_l. exact Hlt.
    - destruct Hor as [->|Hfresh]; [exact Hne|lia]. }
  intros y x Hy Hx.
  assert (Hin : in_shape [0; 0; y; x] (view_shape (view cw'))).
  { fold (ref_shape cw'). rewrite Hshp'. unfold in_shape.
    repeat constructor; lia. }
  rewrite tread_update_same by auto.
  rewrite in_view_to_base by exact Hin.
  rewrite of_base_to_base by assumption.
  rewrite bcast_index_4_4 by lia.
  rewrite (Hread [0; 0; y; x]) by reflexivity.
  f_equal.
  unfold tread, sl. cbn [base view to_base whole map].
  rewrite Ek, lookup_app_l by exact Hlr.
  rewrite Esy, Esx. reflexivity.
Qed.

(** The loop of [init] from index [i], over cached weights that are
    distinct tensors. *)
Lemma init_rescale_loop_run (x_in : tref) (H W lr : nat)
    (regions : list Region) :
  forall (i : nat) (wd : World),
  rescale_factor (self wd) = Some (whole lr [1; 1; H; W]) ->
  lr < length (store wd) -> base x_in < length (store wd) ->
  ref_device (store wd) (whole lr [1; 1; H; W]) = ref_device (store wd) x_in ->
  Forall (fun region : Region => bbox_in region.1.1.1 H W) regions ->
  (forall k region, regions !! k = Some region ->
     exists cw, custom_weights (self wd) !! (i + k) = Some cw /\
                weight_for cw region /\ base cw < length (store wd) /\
                base cw <> lr) ->
  (forall k1 k2 c1 c2,
     k1 < length regions -> k2 < length regions -> k1 <> k2 ->
     custom_weights (self wd) !! (i + k1) = Some c1 ->
     custom_weights (self wd) !! (i + k2) = Some c2 -> base c1 <> base c2) ->
  exists wd',
    init_rescale_loop x_in i regions wd = Done tt wd' /\
    length (store wd) <= length (store wd') /\
    (forall j, j < i ->
       custom_weights (self wd') !! j = custom_weights (self wd) !! j) /\
    (forall l, l < length (store wd) ->
       (forall k c, k < length regions ->
          custom_weights (self wd) !! (i + k) = Some c -> base c <> l) ->
       store wd' !! l = store wd !! l) /\
    (forall k region c,
       regions !! k = Some region ->
       custom_weights (self wd) !! (i + k) = Some c ->
       exists c',
         custom_weights (self wd') !! (i + k) = Some c' /\
         weight_for c' region /\
         forall y x,
           y < Z.to_nat (b3 region.1.1.1 - b1 region.1.1.1) ->
           x < Z.to_nat (b2 region.1.1.1 - b0 region.1.1.1) ->
           tread (store wd') c' [0; 0; y; x] =
             (tread (store wd) c [0; 0; y; x]%nat
              * tread (store wd) (whole lr [1; 1; H; W]%nat)
                  [0; 0; Z.to_nat (b1 region.1.1.1) + y;
                   Z.to_nat (b0 region.1.1.1) + x]%nat)%R).
Proof.
  induction regions as [|region rest IH];
    intros i wd Hrf Hlr Hx Hdev Hbb Hent Hdis.
  - exists wd. split; [reflexivity|]. split; [lia|]. split; [auto|].
    split; [auto|]. intros k region c Hk. discriminate Hk.
  - inversion Hbb as [|? ? Hbb0 Hbbrest]; subst.
    destruct (Hent 0 region eq_refl) as (cw0 & Hcw0 & Hwf0 & Hl0 & Hne0).
    rewrite Nat.add_0_r in Hcw0.
    destruct (init_rescale_body_run wd x_in i region cw0 H W lr
                Hcw0 Hwf0 Hl0 Hrf Hlr Hbb0 Hdev)
      as (wd1 & cw' & Hbody & Ecw & Erf & Hwf' & Hl' & Hor & Hlen & Hdevs
          & Hframe & Hval).
    assert (Hi_lt : i < length (custom_weights (self wd)))
      by (eapply lookup_lt_Some; exact Hcw0).
    assert (Hshift : forall k,
              custom_weights (self wd1) !! (S i + k)
              = custom_weights (self wd) !! (i + S k)).
    { intros k. rewrite Ecw, list_lookup_insert_ne by lia.
      f_equal. lia. }
    destruct (IH (S i) wd1) as (wd' & Hrun & Hlen' & Hkeep & Hframe' & Hval').
    { rewrite Erf. exact Hrf. }
    { lia. }
    { lia. }
    { rewrite !Hdevs by (cbn [base whole]; assumption). exact Hdev. }
    { exact Hbbrest. }
    { intros k r Hk. destruct (Hent (S k) r Hk) as (c & Hc & Hwf & Hl & Hne).
      exists c. rewrite Hshift. split; [exact Hc|]. split; [exact Hwf|].
      split; [lia|exact Hne]. }
    { intros k1 k2 c1 c2 Hk1 Hk2 Hne H1 H2. rewrite Hshift in H1, H2.
      apply (Hdis (S k1) (S k2) c1 c2); simpl; try lia; assumption. }
    exists wd'. split.
    { cbn [init_rescale_loop]. rewrite (bind_done _ _ wd _ _ Hbody).
      exact Hrun. }
    split; [lia|]. split.
    { intros j Hj. rewrite Hkeep by lia. rewrite Ecw.
      apply list_lookup_insert_ne. lia. }
    split.
    { intros l Hl Hnot. rewrite Hframe' ; [apply Hframe; [exact Hl|]|lia|].
      - intros E. apply (Hnot 0 cw0); [simpl; lia| |symmetry; exact E].
        rewrite Nat.add_0_r. exact Hcw0.
      - intros k c Hk Hc. rewrite Hshift in Hc.
        apply (Hnot (S k) c); [simpl; lia|exact Hc]. }
    intros k r c Hk Hc. destruct k as [|k].
    + cbn in Hk. injection Hk as <-. rewrite Nat.add_0_r in Hc |- *.
      assert (c = cw0) by congruence. subst c.
      exists cw'. split.
      { rewrite Hkeep by lia. rewrite Ecw.
        apply list_lookup_insert_eq. exact Hi_lt. }
      split; [exact Hwf'|].
      intros y x Hy Hx'. rewrite <- (Hval y x Hy Hx').
      apply tread_same_cell. apply Hframe'; [exact Hl'|].
      intros k c Hk Hc'. rewrite Hshift in Hc'.
      destruct Hor as [->|Hfresh].
      * apply (Hdis (S k) 0 c cw0); simpl; try lia; [exact Hc'|].
        rewrite Nat.add_0_r. exact Hcw0.
      * destruct (Hent (S k) (default region (rest !! k))) as (c2 & Hc2 & _ & Hl2 & _).
        { cbn. destruct (rest !! k) eqn:E; [reflexivity|].
          apply lookup_ge_None in E. lia. }
        assert (c2 = c) by congruence. subst c2. lia.
    + cbn in Hk.
      replace (i + S k) with (S i + k) in Hc |- * by lia.
      assert (Hc1 : custom_weights (self wd1) !! (S i + k) = Some c).
      { rewrite Hshift. rewrite <- Hc. f_equal. lia. }
      destruct (Hval' k r c Hk Hc1) as (c' & Hc' & Hwf & Hv).
      exists c'. split; [exact Hc'|]. split; [exact Hwf|].
      intros y x Hy Hx'. rewrite (Hv y x Hy Hx').
      destruct (Hent (S k) r Hk) as (c2 & Hc2 & _ & Hl2 & Hne2).
      assert (c2 = c).
      { replace (i + S k) with (S i + k) in Hc2 by lia. congruence. }
      subst c2.
      assert (Hcne : base c <> base cw0).
      { apply (Hdis (S k) 0 c cw0); simpl; try lia.
        - apply lookup_lt_Some in Hk. lia.
        - replace (i + S k) with (S i + k) by lia. exact Hc.
        - rewrite Nat.add_0_r. exact Hcw0. }
      f_equal.
      * apply tread_same_cell. apply Hframe; assumption.
      * apply tread_same_cell. cbn [base whole]. apply Hframe; [exact Hlr|].
        intros E. apply Hne0. symmetry. exact E.
Qed.

End FirstRescale.

(** ** init, first and later calls *)

Section InitOnce.
Context `{C : Collaborators}.

(** What the first call does to the cached weights: each is multiplied by
    the reciprocal of [weights] over the region's bounding box. *)
Lemma init_first_weights (wd wd1 : World) (x_in : tref) (H W lw : nat) :
  init x_in wd = Done tt wd1 ->
  rescale_factor (self wd) = None ->
  weights (self wd) = Some (whole lw [1; 1; H; W]) ->
  lw < length (store wd) -> base x_in < length (store wd) ->
  ref_device (store wd) (whole lw [1; 1; H; W]) = ref_device (store wd) x_in ->
  Forall (fun region : Region => bbox_in region.1.1.1 H W)
         (custom_bboxes (self wd)) ->
  Forall2 weight_for (custom_weights (self wd)) (custom_bboxes (self wd)) ->
  Forall (fun cw => base cw < length (store wd)) (custom_weights (self wd)) ->
  NoDup (map base (custom_weights (self wd))) ->
  forall k region cw,
    custom_bboxes (self wd) !! k = Some region ->
    custom_weights (self wd) !! k = Some cw ->
    exists cw',
      custom_weights (self wd1) !! k = Some cw' /\
      weight_for cw' region /\
      forall y x,
        y < Z.to_nat (b3 region.1.1.1 - b1 region.1.1.1) ->
        x < Z.to_nat (b2 region.1.1.1 - b0 region.1.1.1) ->
        tread (store wd1) cw' [0; 0; y; x] =
          (tread (store wd) cw [0; 0; y; x]%nat
           * (1 / tread (store wd) (whole lw [1; 1; H; W]%nat)
                    [0; 0; Z.to_nat (b1 region.1.1.1) + y;
                     Z.to_nat (b0 region.1.1.1) + x]%nat))%R.
Proof.
  intros Hinit Hnone Hwt Hlw Hx Hdev Hbb Hwf Hvalid Hnd k region cw Hk Hcw.
  unfold init in Hinit.
  rewrite (bind_done _ _ _ _ _ (super_init_run x_in wd)) in Hinit.
  run_inv Hinit. cbn in Hinit. rewrite Hnone, Hwt in Hinit.
  unfold bind at 1, attr at 1, ret at 1 in Hinit. cbv beta iota in Hinit.
  unfold bind at 1, rdiv_scalar at 1, bind at 1, get_store at 1, alloc, st,
    alloc_h in Hinit. cbv beta iota in Hinit.
  run_inv Hinit. run_inv Hinit.
  cbn [store self with_self with_store t_shape custom_bboxes
       set_rescale_factor set_x_buffer] in Hinit.
  rewrite ref_shape_whole in Hinit.
  set (h0 := store wd) in *.
  set (z := Tensor (ref_shape x_in) _ _ _) in Hinit.
  set (t := Tensor [1; 1; H; W] _ _ _) in Hinit.
  match type of Hinit with
  | init_rescale_loop _ _ _ ?w = _ => set (wd3 := w) in Hinit
  end.
  assert (Hlen3 : length (store wd3) = S (S (length h0))).
  { unfold wd3. cbn [store with_self with_store]. rewrite !length_app.
    simpl. lia. }
  assert (Hcw3 : custom_weights (self wd3) = custom_weights (self wd))
    by reflexivity.
  destruct (init_rescale_loop_run x_in H W (length (h0 ++ [z]))
              (custom_bboxes (self wd)) 0 wd3)
    as (wd' & Hrun & _ & _ & _ & Hval).
  { reflexivity. }
  { rewrite Hlen3, length_app. simpl. lia. }
  { rewrite Hlen3. lia. }
  { unfold wd3. cbn [store with_self with_store].
    rewrite ref_device_new. unfold t. cbn [t_device].
    rewrite !ref_device_app_old
      by (rewrite ?length_app; cbn [base whole]; simpl; lia).
    exact Hdev. }
  { exact Hbb. }
  { intros j r Hj. cbn [Nat.add]. rewrite Hcw3.
    destruct (Forall2_lookup_r _ _ _ _ _ Hwf Hj) as (c & Hc & Hwfc).
    exists c. split; [exact Hc|]. split; [exact Hwfc|].
    pose proof (Forall_lookup_1 _ _ _ _ Hvalid Hc) as Hlt. cbn in Hlt.
    rewrite Hlen3, length_app. simpl. fold h0 in Hlt. lia. }
  { intros k1 k2 c1 c2 _ _ Hne H1 H2. cbn [Nat.add] in H1, H2.
    rewrite Hcw3 in H1, H2. intros E. apply Hne.
    eapply (NoDup_lookup (map base (custom_weights (self wd))) k1 k2 (base c1));
      [exact Hnd| |].
    - rewrite list_lookup_fmap, H1. reflexivity.
    - rewrite list_lookup_fmap, H2, E. reflexivity. }
  rewrite Hinit in Hrun. injection Hrun as <-.
  destruct (Hval k region cw Hk ltac:(cbn [Nat.add]; rewrite Hcw3; exact Hcw))
    as (cw' & Hcw' & Hwf' & Hv).
  exists cw'. split; [exact Hcw'|]. split; [exact Hwf'|].
  intros y x Hy Hx'. rewrite (Hv y x Hy Hx').
  pose proof (Forall_lookup_1 _ _ _ _ Hvalid Hcw) as Hlt. cbn in Hlt.
  fold h0 in Hlt.
  f_equal.
  - unfold wd3. cbn [store with_self with_store].
    rewrite !tread_app_old by (rewrite ?length_app; simpl; lia). reflexivity.
  - unfold wd3. cbn [store with_self with_store].
    rewrite tread_alloc_new by reflexivity. unfold t. cbn [t_data].
    rewrite tread_app_old by (cbn [base whole]; exact Hlw). reflexivity.
Qed.

(** C4.  Once a call of [init] has returned, [rescale_factor] exists, and
    every later call of [init] returns leaving [rescale_factor], the list
    of cached custom weights and the contents of every tensor that existed
    unchanged: it only makes a new [x_buffer].  The rescale is therefore
    applied by the first call alone, which sets [rescale_factor] to the
    reciprocal of [weights] and multiplies the cached weight of each custom
    region by [rescale_factor] over the region's bounding box. *)
Theorem init_rescales_once (wd wd1 : World) (x_in : tref) :
  init x_in wd = Done tt wd1 ->
  is_Some (rescale_factor (self wd1)) /\
  (forall wt,
     rescale_factor (self wd) = None ->
     weights (self wd) = Some wt ->
     base wt < length (store wd) ->
     Forall (fun r => base r < length (store wd)) (custom_weights (self wd)) ->
     exists rf,
       rescale_factor (self wd1) = Some rf /\
       ref_shape rf = ref_shape wt /\
       forall idx, length idx = length (ref_shape wt) ->
         tread (store wd1) rf idx = (1 / tread (store wd) wt idx)%R) /\
  (forall H W lw,
     rescale_factor (self wd) = None ->
     weights (self wd) = Some (whole lw [1; 1; H; W]) ->
     lw < length (store wd) -> base x_in < length (store wd) ->
     ref_device (store wd) (whole lw [1; 1; H; W])
       = ref_device (store wd) x_in ->
     Forall (fun region : Region => bbox_in region.1.1.1 H W)
            (custom_bboxes (self wd)) ->
     Forall2 weight_for (custom_weights (self wd)) (custom_bboxes (self wd)) ->
     Forall (fun cw => base cw < length (store wd)) (custom_weights (self wd)) ->
     NoDup (map base (custom_weights (self wd))) ->
     forall k region cw,
       custom_bboxes (self wd) !! k = Some region ->
       custom_weights (self wd) !! k = Some cw ->
       exists cw',
         custom_weights (self wd1) !! k = Some cw' /\
         weight_for cw' region /\
         forall y x,
           y < Z.to_nat (b3 region.1.1.1 - b1 region.1.1.1) ->
           x < Z.to_nat (b2 region.1.1.1 - b0 region.1.1.1) ->
           tread (store wd1) cw' [0; 0; y; x] =
             (tread (store wd) cw [0; 0; y; x]%nat
              * (1 / tread (store wd) (whole lw [1; 1; H; W]%nat)
                       [0; 0; Z.to_nat (b1 region.1.1.1) + y;
                        Z.to_nat (b0 region.1.1.1) + x]%nat))%R) /\
  forall x_in',
    exists wd2,
      init x_in' wd1 = Done tt wd2 /\
      rescale_factor (self wd2) = rescale_factor (self wd1) /\
      custom_weights (self wd2) = custom_weights (self wd1) /\
      (forall l, l < length (store wd1) -> store wd2 !! l = store wd1 !! l) /\
      (forall r idx, base r < length (store wd1) ->
         tread (store wd2) r idx = tread (store wd1) r idx).
Proof.
  intros H. pose proof (init_sets_rescale wd wd1 x_in H) as [rf Hrf].
  split; [eauto|]. split.
  { intros wt Hnone Hwt Hl Hcw. eapply init_first_rescale; eassumption. }
  split.
  { intros H0 W lw Hnone Hwt Hlw Hx Hdev Hbb Hwf Hvalid Hnd.
    exact (init_first_weights wd wd1 x_in H0 W lw H Hnone Hwt Hlw Hx Hdev
             Hbb Hwf Hvalid Hnd). }
  intros x_in'. eexists. split; [apply (init_again wd1 x_in' rf Hrf)|].
  cbn [self store with_self with_store].
  split; [reflexivity|]. split; [reflexivity|]. split.
  - intros l Hl. apply lookup_app_l. exact Hl.
  - intros r idx Hr. apply tread_app_old. exact Hr.
Qed.

End InitOnce.

(** ** Shape of the kernel *)

Section KernelShape.
Context `{C : Collaborators}.

(** Two indices at the same distance on either side of the midpoint have
    the same factor. *)
Lemma f_value_reflect (w x x' : Z) (mid : R) :
  (IZR x' - mid = - (IZR x - mid))%R ->
  f_value w x' mid = f_value w x mid.
Proof.
  intros E. unfold f_value. rewrite !exponent_scale, E.
  f_equal. f_equal. ring.
Qed.

(** X1.  The kernel is its own mirror image left to right: column [x] and
    column [w - 1 - x] are equal, as the horizontal midpoint is [(w - 1) /
    2]. *)
Theorem gaussian_weights_mirror (wd : World) (w h : Z) :
  (0 < w)%Z -> (0 < h)%Z ->
  exists r wd',
    _gaussian_weights (Some w) (Some h) wd = Done r wd' /\
    forall y x, y < Z.to_nat h -> x < Z.to_nat w ->
      tread (store wd') r [y; Z.to_nat w - 1 - x] = tread (store wd') r [y; x].
Proof.
  intros Hw Hh.
  destruct (gaussian_weights_entries wd w h)
    as (r & wd' & Hrun & _ & _ & _ & Hval); [lia|].
  exists r, wd'. split; [exact Hrun|]. intros y x Hy Hx.
  rewrite (Hval y x Hy Hx), (Hval y (Z.to_nat w - 1 - x) Hy) by lia.
  f_equal. apply f_value_reflect.
  replace (Z.of_nat (Z.to_nat w - 1 - x)) with (w - 1 - Z.of_nat x)%Z by lia.
  rewrite !minus_IZR. lra.
Qed.

(** X2.  Top to bottom the kernel is off centre: the vertical midpoint is [h
    / 2], not [(h - 1) / 2], so the rows that are equal are row [y] and row
    [h - y], for [0 < y < h]; row [0] is paired with no row. *)
Theorem gaussian_weights_off_centre (wd : World) (w h : Z) :
  (0 < w)%Z -> (0 < h)%Z ->
  exists r wd',
    _gaussian_weights (Some w) (Some h) wd = Done r wd' /\
    (forall y x, 0 < y -> y < Z.to_nat h -> x < Z.to_nat w ->
       tread (store wd') r [Z.to_nat h - y; x] = tread (store wd') r [y; x]).
Proof.
  intros Hw Hh.
  destruct (gaussian_weights_entries wd w h)
    as (r & wd' & Hrun & _ & _ & _ & Hval); [lia|].
  exists r, wd'. split; [exact Hrun|].
  intros y x Hy0 Hy Hx.
  rewrite (Hval y x Hy Hx), (Hval (Z.to_nat h - y) x) by lia.
  f_equal. apply f_value_reflect.
  replace (Z.of_nat (Z.to_nat h - y)) with (h - Z.of_nat y)%Z by lia.
  rewrite !minus_IZR. lra.
Qed.

End KernelShape.

(** ** Relations kept by every run *)

Section Steps.
Context `{C : Collaborators}.
Variable Rel : World -> World -> Prop.
Hypothesis HR : frame_rel Rel.

Lemma steps_bind {A B} (m : M A) (k : A -> M B) :
  steps Rel m -> (forall a, steps Rel (k a)) -> steps Rel (bind m k).
Proof.
  intros Hm Hk wd. unfold bind. specialize (Hm wd).
  destruct (m wd) as [a wd1|e wd1]; cbn [final] in *.
  - eapply (fr_trans _ HR); [exact Hm|apply Hk].
  - exact Hm.
Qed.

(** The same, keeping track of the world each part starts from. *)
Lemma rel_bind {A B} (m : M A) (k : A -> M B) wd :
  Rel wd (final (m wd)) ->
  (forall a wd1, m wd = Done a wd1 -> Rel wd1 (final (k a wd1))) ->
  Rel wd (final (bind m k wd)).
Proof.
  intros Hm Hk. unfold bind.
  destruct (m wd) as [a wd1|e wd1] eqn:E; cbn [final] in *.
  - eapply (fr_trans _ HR); [exact Hm|apply Hk; reflexivity].
  - exact Hm.
Qed.

Lemma steps_done {A} (m : M A) wd a wd1 :
  steps Rel m -> m wd = Done a wd1 -> Rel wd wd1.
Proof. intros Hm E. specialize (Hm wd). rewrite E in Hm. exact Hm. Qed.

Lemma steps_ret {A} (a : A) : steps Rel (ret a).
Proof. intros wd. apply (fr_refl _ HR). Qed.

Lemma steps_raise {A} (e : Exn) : steps Rel (@raise _ A e).
Proof. intros wd. apply (fr_refl _ HR). Qed.

Lemma steps_lift {A} (r : Res A) : steps Rel (lift r).
Proof. intros wd. unfold lift. destruct r; apply (fr_refl _ HR). Qed.

Lemma steps_attr {A} (o : option A) : steps Rel (attr o).
Proof. destruct o; [apply steps_ret|apply steps_raise]. Qed.

Lemma steps_get_self : steps Rel get_self.
Proof. intros wd. apply (fr_refl _ HR). Qed.

Lemma steps_get_store : steps Rel get_store.
Proof. intros wd. apply (fr_refl _ HR). Qed.

Lemma steps_get_sd_model : steps Rel get_sd_model.
Proof. intros wd. apply (fr_refl _ HR). Qed.

Lemma steps_get_ext : steps Rel get_ext.
Proof. intros wd. apply (fr_refl _ HR). Qed.


Lemma steps_st {A} (m : St A) : steps Rel (st m).
Proof. intros wd. unfold st. destruct (m (store wd)); apply (fr_store _ HR). Qed.

Lemma steps_set_store (h : list tensor) : steps Rel (set_store h).
Proof. intros wd. apply (fr_store _ HR). Qed.

Lemma steps_alloc (t : tensor) : steps Rel (alloc t).
Proof. apply steps_st. Qed.

Lemma steps_cat (rs : list tref) : steps Rel (cat rs).
Proof. apply steps_st. Qed.

Lemma steps_binop op (a b : tref) : steps Rel (binop op a b).
Proof.
  unfold binop. apply steps_bind; [apply steps_get_store|]. intros h.
  destruct (negb _); [apply steps_raise|].
  destruct (broadcast_shapes _ _); [apply steps_alloc|apply steps_raise].
Qed.

Lemma steps_iop op (a b : tref) : steps Rel (iop op a b).
Proof.
  unfold iop. apply steps_bind; [apply steps_get_store|]. intros h.
  destruct (negb _); [apply steps_raise|].
  destruct (broadcast_shapes _ _); [|apply steps_raise].
  destruct (bool_decide _); [apply steps_set_store|apply steps_raise].
Qed.

Lemma steps_mul_scalar (a : tref) (m : R) : steps Rel (mul_scalar a m).
Proof.
  unfold mul_scalar. apply steps_bind; [apply steps_get_store|]. intros h.
  apply steps_alloc.
Qed.

Lemma steps_rdiv_scalar (c : R) (a : tref) : steps Rel (rdiv_scalar c a).
Proof.
  unfold rdiv_scalar. apply steps_bind; [apply steps_get_store|]. intros h.
  apply steps_alloc.
Qed.

Lemma steps_imul_scalar (a : tref) (m : R) : steps Rel (imul_scalar a m).
Proof.
  unfold imul_scalar. apply steps_bind; [apply steps_get_store|]. intros h.
  apply steps_set_store.
Qed.

Lemma steps_zeros_like (x : tref) : steps Rel (zeros_like x).
Proof.
  unfold zeros_like. apply steps_bind; [apply steps_get_store|]. intros h.
  apply steps_alloc.
Qed.

Lemma steps_to (r : tref) dev dt : steps Rel (to_ r dev dt).
Proof.
  unfold to_. apply steps_bind; [apply steps_get_store|]. intros h.
  destruct (_ && _); [apply steps_ret|apply steps_alloc].
Qed.

End Steps.

(** Following a relation along the steps of a method. *)
Ltac steps_prim HR :=
  first
    [ apply (steps_get_self _ HR) | apply (steps_get_store _ HR)
    | apply (steps_get_sd_model _ HR) | apply (steps_get_ext _ HR)
    | apply (steps_lift _ HR) | apply (steps_attr _ HR)
    | apply (steps_ret _ HR) | apply (steps_raise _ HR)
    | apply (steps_cat _ HR) | apply (steps_binop _ HR)
    | apply (steps_iop _ HR) | apply (steps_mul_scalar _ HR)
    | apply (steps_rdiv_scalar _ HR) | apply (steps_imul_scalar _ HR)
    | apply (steps_zeros_like _ HR) | apply (steps_to _ HR)
    | apply (steps_alloc _ HR) ].

Ltac run_steps HR extra :=
  repeat first
    [ extra
    | steps_prim HR
    | apply (steps_bind _ HR); [|intros ?] ].

(** ** What a step leaves alone *)

Section Setup.
Context `{C : Collaborators}.

Lemma same_setup_refl (wd : World) : same_setup wd wd.
Proof. unfold same_setup. repeat split; auto. Qed.

Lemma same_setup_trans (a b c : World) :
  same_setup a b -> same_setup b c -> same_setup a c.
Proof.
  unfold same_setup.
  intros (A1 & A2 & A3 & A4 & A5 & A6 & A7 & A8 & A9 & A10 & A11 & A12 & A13 & A14)
         (B1 & B2 & B3 & B4 & B5 & B6 & B7 & B8 & B9 & B10 & B11 & B12 & B13 & B14).
  repeat split; try congruence.
  intros Hs. specialize (A14 Hs). rewrite B14; [exact A14|].
  rewrite A14. exact Hs.
Qed.

Lemma same_setup_frame (wd : World) (h : list tensor) (e : ExtState) :
  same_setup wd (MkWorld h (self wd) (sd_model wd) (before_image_saved wd) e).
Proof. unfold same_setup. cbn. repeat split; auto. Qed.

Lemma same_setup_store (wd : World) (h : list tensor) :
  same_setup wd (with_store h wd).
Proof. apply same_setup_frame. Qed.

Lemma quiet_refl (wd : World) : quiet wd wd.
Proof. split; [apply same_setup_refl|reflexivity]. Qed.

Lemma quiet_trans (a b c : World) : quiet a b -> quiet b c -> quiet a c.
Proof.
  intros (A1 & A2) (B1 & B2). split; [eapply same_setup_trans; eassumption|].
  congruence.
Qed.

Lemma quiet_store (wd : World) (h : list tensor) : quiet wd (with_store h wd).
Proof. split; [apply same_setup_store|reflexivity]. Qed.

Lemma steps_call_ext {A} (m : Ext A) : steps same_setup (call_ext m).
Proof.
  intros wd. unfold call_ext.
  destruct (m (store wd) (ext wd)) as [a [h e]|x [h e]]; apply same_setup_frame.
Qed.

Lemma quiet_set_x_buffer (v : option tref) :
  steps quiet (modify_self (set_x_buffer v)).
Proof.
  intros wd. split; [|reflexivity]. unfold same_setup. cbn. repeat split; auto.
Qed.

Lemma quiet_set_cached (i : nat) (cw : tref) :
  steps quiet (modify_self (fun s =>
     set_custom_weights (<[i := cw]> (custom_weights s)) s)).
Proof.
  intros wd. split; [|reflexivity]. unfold same_setup. cbn.
  rewrite length_insert. repeat split; auto.
Qed.

Lemma quiet_set_rescale_factor (v : option tref) (wd : World) :
  rescale_factor (self wd) = None ->
  quiet wd (final (modify_self (set_rescale_factor v) wd)).
Proof.
  intros Hn. split; [|reflexivity]. unfold same_setup. cbn.
  repeat split; auto. rewrite Hn. intros [? ?]. discriminate.
Qed.

Lemma same_setup_rel : frame_rel same_setup.
Proof.
  split; [apply same_setup_refl|apply same_setup_trans|apply same_setup_store].
Qed.

Lemma quiet_rel : frame_rel quiet.
Proof. split; [apply quiet_refl|apply quiet_trans|apply quiet_store]. Qed.

(** [init] and its parts *)

Lemma super_init_quiet (x_in : tref) : steps quiet (super_init x_in).
Proof.
  unfold super_init. run_steps quiet_rel ltac:(apply quiet_set_x_buffer).
Qed.

Lemma init_rescale_body_quiet x_in bbox_id region :
  steps quiet (init_rescale_body x_in bbox_id region).
Proof.
  destruct region as [[[bb cond] uncond] m]. unfold init_rescale_body.
  run_steps quiet_rel ltac:(apply quiet_set_cached).
Qed.

Lemma init_rescale_loop_quiet x_in regions :
  forall bbox_id, steps quiet (init_rescale_loop x_in bbox_id regions).
Proof.
  induction regions as [|region rest IH]; intros bbox_id;
    cbn [init_rescale_loop].
  - apply (steps_ret _ quiet_rel).
  - run_steps quiet_rel ltac:(first [apply init_rescale_body_quiet|apply IH]).
Qed.

Lemma init_quiet (x_in : tref) : steps quiet (init x_in).
Proof.
  intros wd. unfold init.
  apply (rel_bind _ quiet_rel); [apply super_init_quiet|].
  intros _ wd1 _. unfold bind at 1, get_self at 1. cbv beta iota.
  destruct (rescale_factor (self wd1)) eqn:Erf; [apply quiet_refl|].
  apply (rel_bind _ quiet_rel); [apply (steps_attr _ quiet_rel)|].
  intros wt wd2 Hwt.
  assert (wd2 = wd1) as ->.
  { destruct (weights (self wd1)); [injection Hwt as _ <-; reflexivity|discriminate]. }
  apply (rel_bind _ quiet_rel); [apply (steps_rdiv_scalar _ quiet_rel)|].
  intros rf wd3 Hrf.
  destruct (allocating_done _ _ _ _ (allocating_rdiv_scalar _ _) Hrf) as (Es & _).
  apply (rel_bind _ quiet_rel).
  { apply quiet_set_rescale_factor. rewrite Es. exact Erf. }
  intros _ wd4 _.
  run_steps quiet_rel ltac:(apply init_rescale_loop_quiet).
Qed.

Lemma init_same_setup (x_in : tref) : steps same_setup (init x_in).
Proof. intros wd. apply init_quiet. Qed.

(** The two phases *)

Lemma fuse_tile_same_setup N x_tile_out i bb :
  steps same_setup (fuse_tile N x_tile_out i bb).
Proof. unfold fuse_tile. run_steps same_setup_rel fail. Qed.

Lemma fuse_tiles_same_setup N x_tile_out bboxes :
  forall i, steps same_setup (fuse_tiles N x_tile_out i bboxes).
Proof.
  induction bboxes as [|bb rest IH]; intros i; cbn [fuse_tiles].
  - apply (steps_ret _ same_setup_rel).
  - run_steps same_setup_rel ltac:(first [apply fuse_tile_same_setup|apply IH]).
Qed.

Lemma process_batch_same_setup x_in t_in cond N batch_id bboxes :
  steps same_setup (process_batch x_in t_in cond N batch_id bboxes).
Proof.
  unfold process_batch.
  run_steps same_setup_rel
    ltac:(first [apply steps_call_ext|apply fuse_tiles_same_setup]).
Qed.

Lemma global_sampling_same_setup x_in t_in cond N batches :
  forall batch_id,
    steps same_setup (global_sampling x_in t_in cond N batch_id batches).
Proof.
  induction batches as [|bboxes rest IH]; intros batch_id;
    cbn [global_sampling].
  - apply (steps_ret _ same_setup_rel).
  - run_steps same_setup_rel fail.
    destruct (interrupted _); [apply (steps_ret _ same_setup_rel)|].
    run_steps same_setup_rel
      ltac:(first [apply process_batch_same_setup|apply IH]).
Qed.

Lemma custom_apply_model_same_setup x t c_in bbox_id bb cond uncond :
  steps same_setup (custom_apply_model x t c_in bbox_id bb cond uncond).
Proof.
  unfold custom_apply_model. run_steps same_setup_rel fail.
  destruct (is_kdiff _); run_steps same_setup_rel ltac:(apply steps_call_ext).
Qed.

Lemma custom_sampling_same_setup x_in t_in c_in regions :
  forall bbox_id,
    steps same_setup (custom_sampling x_in t_in c_in bbox_id regions).
Proof.
  induction regions as [|[[[bb cond] uncond] m] rest IH]; intros bbox_id;
    cbn [custom_sampling].
  - apply (steps_ret _ same_setup_rel).
  - run_steps same_setup_rel
      ltac:(first [apply steps_call_ext|apply custom_apply_model_same_setup
                  |apply IH]).
Qed.

Lemma rescale_buffer_same_setup : steps same_setup rescale_buffer.
Proof.
  unfold rescale_buffer. run_steps same_setup_rel fail.
  destruct (Rlt_dec _ _); [|apply (steps_ret _ same_setup_rel)].
  destruct (Rlt_dec _ _); [|apply (steps_ret _ same_setup_rel)].
  run_steps same_setup_rel fail.
Qed.

Lemma custom_phase_same_setup x_in t_in c_in :
  steps same_setup (custom_phase x_in t_in c_in).
Proof.
  unfold custom_phase. run_steps same_setup_rel fail.
  destruct (0 <? _); [|apply (steps_ret _ same_setup_rel)].
  run_steps same_setup_rel
    ltac:(first [apply rescale_buffer_same_setup
                |apply custom_sampling_same_setup]).
Qed.

Lemma global_phase_same_setup x_in t_in cond N :
  steps same_setup (global_phase x_in t_in cond N).
Proof.
  unfold global_phase. run_steps same_setup_rel fail.
  destruct (Rlt_dec _ _); [|apply (steps_ret _ same_setup_rel)].
  apply global_sampling_same_setup.
Qed.

(** X3.  Whatever its arguments and whether it returns, returns early or
    raises, [apply_model] leaves the attributes of [shared.sd_model] and the
    registered callbacks as they were (the hijack stays in place), and of
    [self] rebinds only [x_buffer], a missing [rescale_factor] and the
    entries of [custom_weights]: the tile and canvas sizes, the sampler
    flag, the global multiplier, the tile batches, the custom regions,
    [weights] and [per_tile_weights] are the same, [custom_weights] has the
    same length, and a rescale factor that exists is not replaced. *)
Theorem apply_model_same_setup (x_in t_in : tref) (cond : PyCond) (wd : World) :
  same_setup wd (final (apply_model x_in t_in cond wd)).
Proof.
  revert wd. change (steps same_setup (apply_model x_in t_in cond)).
  unfold apply_model. run_steps same_setup_rel fail.
  destruct a as [[[N Cc] H] W]. run_steps same_setup_rel fail.
  destruct (negb _); [apply (steps_raise _ same_setup_rel)|].
  run_steps same_setup_rel
    ltac:(first [apply init_same_setup|apply global_phase_same_setup]).
  destruct a1 as [r|]; [apply (steps_ret _ same_setup_rel)|].
  run_steps same_setup_rel ltac:(apply custom_phase_same_setup).
Qed.

End Setup.

(** ** Edges of a denoising step *)

Section StepEdges.
Context `{C : Collaborators}.

(** Slicing a dimension that exists never raises: Python clamps the
    bounds. *)
Lemma slice_view_total (a b : Z) (v : list vdim) :
  forall k, k < length (view_shape v) ->
  exists v', slice_view k a b v = Ok v' /\
             length (view_shape v') = length (view_shape v).
Proof.
  induction v as [|[off len|len|j] v IH]; intros k Hk; simpl in *.
  - lia.
  - destruct k as [|k].
    + destruct (slice_bounds len a b) as [s n]. eexists. split; reflexivity.
    + destruct (IH k ltac:(lia)) as (v' & -> & Hl). simpl.
      eexists. split; [reflexivity|]. simpl. lia.
  - destruct k as [|k].
    + destruct (slice_bounds len a b) as [s n]. eexists. split; reflexivity.
    + destruct (IH k ltac:(lia)) as (v' & -> & Hl). simpl.
      eexists. split; [reflexivity|]. simpl. lia.
  - destruct (IH k Hk) as (v' & -> & Hl). simpl.
    eexists. split; [reflexivity|]. simpl. exact Hl.
Qed.

Lemma slice_bbox_total (r : tref) (bb : bbox) :
  length (ref_shape r) = 4 ->
  exists r', slice_bbox r bb = Ok r' /\ length (ref_shape r') = 4.
Proof.
  intros Hr. unfold slice_bbox.
  destruct (slice_view_total (b1 bb) (b3 bb) (view r) 2) as (v1 & -> & H1).
  { unfold ref_shape in Hr. lia. }
  cbn [res_bind].
  destruct (slice_view_total (b0 bb) (b2 bb) v1 3) as (v2 & -> & H2).
  { unfold ref_shape in Hr. lia. }
  cbn [res_bind]. eexists. split; [reflexivity|].
  unfold ref_shape in *. cbn [view]. lia.
Qed.

(** Without a dict for [cond] the loop over the tiles of a batch leaves
    the lists of conditionings as they were. *)
Lemma gather_tiles_plain (s : Self) (x_in t_in : tref) (cond : PyCond)
    (bboxes : list bbox) :
  (forall d, cond <> PDict d) -> length (ref_shape x_in) = 4 ->
  forall l, exists l',
    gather_tiles s x_in t_in cond bboxes l = Ok l' /\
    attn_tile_list l' = attn_tile_list l.
Proof.
  intros Hc Hx. induction bboxes as [|bb rest IH]; intros l;
    cbn [gather_tiles].
  - exists l. auto.
  - unfold gather_tile.
    destruct (slice_bbox_total x_in bb Hx) as (x_tile & -> & _).
    cbn [res_bind].
    destruct cond as [|d|t]; [|exfalso; eapply Hc; reflexivity|];
      cbn [res_bind];
      match goal with
      | |- context [gather_tiles _ _ _ _ rest ?l1] =>
          destruct (IH l1) as (l' & -> & E)
      end; exists l'; auto.
Qed.

Lemma cat_raises (rs : list tref) (wd : World) e wd' :
  cat rs wd = Fail e wd' -> e = RuntimeError.
Proof.
  unfold cat, st, cat_h. destruct rs as [|r0 rs]; [congruence|].
  destruct (ref_shape r0); [congruence|].
  destruct (forallb _ _); [discriminate|congruence].
Qed.

(** A batch cannot be processed without a dict for [cond]: one of the
    concatenations raises, the last of them for having nothing to
    concatenate. *)
Lemma cat_ext (rs : list tref) (wd : World) :
  ext (final (cat rs wd)) = ext wd.
Proof. unfold cat, st. destruct (cat_h rs (store wd)); reflexivity. Qed.

Lemma process_batch_plain x_in t_in cond N batch_id bboxes wd :
  (forall d, cond <> PDict d) -> length (ref_shape x_in) = 4 ->
  exists wd',
    process_batch x_in t_in cond N batch_id bboxes wd = Fail RuntimeError wd' /\
    ext wd' = ext wd.
Proof.
  intros Hc Hx. unfold process_batch.
  unfold bind at 1, get_self at 1. cbv beta iota.
  destruct (gather_tiles_plain (self wd) x_in t_in cond bboxes Hc Hx
              (MkTileLists [] [] [] [])) as (l & Hl & Ea).
  rewrite Hl. unfold bind at 1, lift at 1. cbv beta iota.
  destruct (cat (x_tile_list l) wd) as [x_tile wd1|e wd1] eqn:E1.
  all: pose proof (cat_ext (x_tile_list l) wd) as X1; rewrite E1 in X1;
    cbn [final] in X1.
  2:{ exists wd1. rewrite (bind_fail _ _ _ _ _ E1).
      rewrite (cat_raises _ _ _ _ E1). auto. }
  rewrite (bind_done _ _ _ _ _ E1).
  destruct (cat (t_tile_list l) wd1) as [t_tile wd2|e wd2] eqn:E2.
  all: pose proof (cat_ext (t_tile_list l) wd1) as X2; rewrite E2 in X2;
    cbn [final] in X2.
  2:{ exists wd2. rewrite (bind_fail _ _ _ _ _ E2).
      rewrite (cat_raises _ _ _ _ E2). split; [reflexivity|congruence]. }
  rewrite (bind_done _ _ _ _ _ E2).
  rewrite Ea. cbn [attn_tile_list].
  eexists. split; [apply bind_fail; reflexivity|].
  cbn. congruence.
Qed.

(** A call that reaches the first batch and fails there. *)
Lemma apply_model_first_batch (wd wd0 wd1 : World) (x_in t_in : tref)
    (cond : PyCond) (N Ch H W : nat) (bboxes : list bbox)
    (rest : list (list bbox)) (e : Exn) :
  ref_shape x_in = [N; Ch; H; W] ->
  self_h (self wd) = Z.of_nat H -> self_w (self wd) = Z.of_nat W ->
  init x_in wd = Done tt wd0 ->
  (0 < global_multiplier (self wd))%R ->
  batched_bboxes (self wd) = bboxes :: rest ->
  interrupted (ext wd) = false ->
  process_batch x_in t_in cond N 0 bboxes wd0 = Fail e wd1 ->
  apply_model x_in t_in cond wd = Fail e wd1.
Proof.
  intros Hshp Hh Hw Hinit Hgm Hb Hi Hp.
  destruct (steps_done _ _ _ _ _ (init_quiet x_in) Hinit) as (Hs & He).
  destruct Hs as (_ & _ & _ & _ & _ & _ & _ & Egm & Eb & _).
  unfold apply_model. rewrite Hshp. cbn [unpack4].
  unfold bind at 1, lift. cbv beta iota.
  unfold bind at 1, get_self at 1. cbv beta iota.
  rewrite Hh, Hw, !Z.eqb_refl. cbn [andb negb].
  rewrite (bind_done _ _ wd tt wd0 Hinit).
  apply bind_fail. unfold global_phase.
  unfold bind at 1, get_self at 1. cbv beta iota. rewrite Egm, Eb, Hb.
  destruct (Rlt_dec 0 (global_multiplier (self wd))) as [_|Hn];
    [|exfalso; exact (Hn Hgm)].
  cbn [global_sampling]. unfold bind at 1, get_ext at 1. cbv beta iota.
  rewrite He, Hi. apply bind_fail. exact Hp.
Qed.

(** X4.  With a positive global multiplier and at least one batch of tiles,
    [apply_model] needs a dict for [cond]: given [None] or a plain tensor it
    raises in the first batch, before the model is called, because
    [torch.cat] is handed an empty list of conditionings. *)
Theorem global_sampling_needs_dict (wd wd0 : World) (x_in t_in : tref)
    (cond : PyCond) (N Ch H W : nat) (bboxes : list bbox)
    (rest : list (list bbox)) :
  (forall d, cond <> PDict d) ->
  ref_shape x_in = [N; Ch; H; W] ->
  self_h (self wd) = Z.of_nat H -> self_w (self wd) = Z.of_nat W ->
  init x_in wd = Done tt wd0 ->
  (0 < global_multiplier (self wd))%R ->
  batched_bboxes (self wd) = bboxes :: rest ->
  interrupted (ext wd) = false ->
  exists e wd1,
    apply_model x_in t_in cond wd = Fail e wd1 /\
    ext wd1 = ext wd.
Proof.
  intros Hc Hshp Hh Hw Hinit Hgm Hb Hi.
  destruct (process_batch_plain x_in t_in cond N 0 bboxes wd0 Hc)
    as (wd1 & Hp & He1).
  { rewrite Hshp. reflexivity. }
  exists RuntimeError, wd1. split.
  { eapply apply_model_first_batch; eassumption. }
  destruct (steps_done _ _ _ _ _ (init_quiet x_in) Hinit) as (_ & He).
  congruence.
Qed.


(** X5.  The dict [cond] must hold an entry [c_concat]: without it the first
    round of the loop over the tiles of the first batch raises [KeyError],
    and the call leaves the world as [init] made it: nothing was
    concatenated and the model was not called. *)
Theorem global_sampling_needs_c_concat (wd wd0 : World) (x_in t_in : tref)
    (d : CondDict) (N Ch H W : nat) (bb : bbox) (bbs : list bbox)
    (rest : list (list bbox)) :
  dict_get d "c_concat" = Raise KeyError ->
  ref_shape x_in = [N; Ch; H; W] ->
  self_h (self wd) = Z.of_nat H -> self_w (self wd) = Z.of_nat W ->
  init x_in wd = Done tt wd0 ->
  (0 < global_multiplier (self wd))%R ->
  batched_bboxes (self wd) = (bb :: bbs) :: rest ->
  interrupted (ext wd) = false ->
  apply_model x_in t_in (PDict d) wd = Fail KeyError wd0.
Proof.
  intros Hd Hshp Hh Hw Hinit Hgm Hb Hi.
  eapply apply_model_first_batch; try eassumption.
  unfold process_batch. unfold bind at 1, get_self at 1. cbv beta iota.
  cbn [gather_tiles]. unfold gather_tile.
  destruct (slice_bbox_total x_in bb) as (x_tile & -> & _).
  { rewrite Hshp. reflexivity. }
  cbn [res_bind]. unfold cond_first. rewrite Hd. reflexivity.
Qed.

(** A batch with a tile in it cannot be fused without the kernel of the
    tiles. *)
Lemma fuse_tiles_needs_kernel N x_tile_out i bb bbs wd :
  per_tile_weights (self wd) = None ->
  fuse_tiles N x_tile_out i (bb :: bbs) wd = Fail AttributeError wd.
Proof.
  intros Hn. cbn [fuse_tiles]. unfold fuse_tile.
  unfold bind, get_self. rewrite Hn. reflexivity.
Qed.

Lemma process_batch_needs_kernel x_in t_in cond N batch_id bb bbs wd u wd1 :
  per_tile_weights (self wd) = None ->
  process_batch x_in t_in cond N batch_id (bb :: bbs) wd = Done u wd1 -> False.
Proof.
  intros Hn Hp. unfold process_batch in Hp.
  run_inv Hp. run_inv Hp as Hl.
  apply bind_done_inv in Hp as (x_tile & wda & E1 & Hp).
  pose proof (steps_done _ _ _ _ _ (steps_cat _ same_setup_rel _) E1) as S1.
  apply bind_done_inv in Hp as (t_tile & wdb & E2 & Hp).
  pose proof (steps_done _ _ _ _ _ (steps_cat _ same_setup_rel _) E2) as S2.
  apply bind_done_inv in Hp as (attn_tile & wdc & E3 & Hp).
  pose proof (steps_done _ _ _ _ _ (steps_cat _ same_setup_rel _) E3) as S3.
  apply bind_done_inv in Hp as (image_cond_tile & wdd & E4 & Hp).
  pose proof (steps_done _ _ _ _ _ (steps_cat _ same_setup_rel _) E4) as S4.
  apply bind_done_inv in Hp as (u5 & wde & E5 & Hp).
  pose proof (steps_done _ _ _ _ _ (steps_call_ext _) E5) as S5.
  unfold bind at 1, get_sd_model at 1 in Hp. cbv beta iota in Hp.
  run_inv Hp as E7.
  apply bind_done_inv in Hp as (x_tile_out & wdf & E8 & Hp).
  pose proof (steps_done _ _ _ _ _ (steps_call_ext _) E8) as S8.
  apply bind_done_inv in Hp as (u9 & wdg & E9 & Hp).
  rewrite fuse_tiles_needs_kernel in E9; [discriminate|].
  pose proof (same_setup_trans _ _ _ S1
               (same_setup_trans _ _ _ S2
                 (same_setup_trans _ _ _ S3
                   (same_setup_trans _ _ _ S4
                     (same_setup_trans _ _ _ S5 S8))))) as S.
  destruct S as (_ & _ & _ & _ & _ & _ & _ & _ & _ & _ & _ & -> & _).
  exact Hn.
Qed.

(** X6.  [apply_model] reads [self.per_tile_weights] without creating it: if
    [get_global_weights] has not been called before, a step with a positive
    global multiplier and a tile in its first batch raises. *)
Theorem apply_model_needs_tile_weights (wd wd0 : World) (x_in t_in : tref)
    (cond : PyCond) (N Ch H W : nat) (bb : bbox) (bbs : list bbox)
    (rest : list (list bbox)) :
  per_tile_weights (self wd) = None ->
  ref_shape x_in = [N; Ch; H; W] ->
  self_h (self wd) = Z.of_nat H -> self_w (self wd) = Z.of_nat W ->
  init x_in wd = Done tt wd0 ->
  (0 < global_multiplier (self wd))%R ->
  batched_bboxes (self wd) = (bb :: bbs) :: rest ->
  interrupted (ext wd) = false ->
  exists e wd1, apply_model x_in t_in cond wd = Fail e wd1.
Proof.
  intros Hn Hshp Hh Hw Hinit Hgm Hb Hi.
  destruct (steps_done _ _ _ _ _ (init_quiet x_in) Hinit) as (Hs & _).
  destruct Hs as (_ & _ & _ & _ & _ & _ & _ & _ & _ & _ & _ & Ep & _).
  destruct (process_batch x_in t_in cond N 0 (bb :: bbs) wd0)
    as [u wd1|e wd1] eqn:Hp.
  - exfalso. eapply process_batch_needs_kernel; [|exact Hp]. congruence.
  - exists e, wd1. eapply apply_model_first_batch; eassumption.
Qed.

(** X7.  The shape of the canvas is checked before anything is touched: an
    input that is not four-dimensional raises [ValueError] from the
    unpacking of its shape, one whose last two dimensions are not the canvas
    of [self] raises [AssertionError], and in both cases the world is
    exactly as it was: not even [x_buffer] has been reset. *)
Theorem apply_model_checks_shape (x_in t_in : tref) (cond : PyCond)
    (wd : World) :
  (length (ref_shape x_in) <> 4 ->
   apply_model x_in t_in cond wd = Fail ValueError wd) /\
  (forall N Ch H W,
     ref_shape x_in = [N; Ch; H; W] ->
     Z.of_nat H <> self_h (self wd) \/ Z.of_nat W <> self_w (self wd) ->
     apply_model x_in t_in cond wd = Fail AssertionError wd).
Proof.
  split.
  - intros Hl. unfold apply_model.
    destruct (ref_shape x_in) as [|n [|c [|h [|w [|z l]]]]]; try reflexivity.
    simpl in Hl. lia.
  - intros N Ch H W Hshp Hne. unfold apply_model. rewrite Hshp.
    cbn [unpack4]. unfold bind, lift, get_self.
    destruct (Z.eqb_spec (Z.of_nat H) (self_h (self wd))) as [E1|E1];
      [|reflexivity].
    destruct (Z.eqb_spec (Z.of_nat W) (self_w (self wd))) as [E2|E2];
      [|reflexivity].
    destruct Hne; contradiction.
Qed.

(** The early return of the loop over the batches. *)
Lemma global_sampling_early x_in t_in cond N batches :
  forall batch_id wd r wd',
    global_sampling x_in t_in cond N batch_id batches wd = Done (Some r) wd' ->
    r = x_in /\ interrupted (ext wd') = true.
Proof.
  induction batches as [|bboxes rest IH]; intros batch_id wd r wd' Hg;
    cbn [global_sampling] in Hg.
  - discriminate.
  - unfold bind at 1, get_ext at 1 in Hg. cbv beta iota in Hg.
    destruct (interrupted (ext wd)) eqn:Ei.
    + injection Hg as <- <-. auto.
    + run_inv Hg as Hp. eapply IH. exact Hg.
Qed.

(** X8.  What [apply_model] returns is [self.x_buffer], as the attribute
    reads after the call, unless the interruption flag was found set: then,
    and only then, it is the input [x_in] itself, and the flag is still set. *)
Theorem apply_model_result (wd wd' : World) (x_in t_in r : tref)
    (cond : PyCond) :
  apply_model x_in t_in cond wd = Done r wd' ->
  x_buffer (self wd') = Some r \/
  (r = x_in /\ interrupted (ext wd') = true).
Proof.
  intros Ha. unfold apply_model in Ha.
  destruct (unpack4 (ref_shape x_in)) as [[[[N Ch] H] W]|] eqn:Hu;
    [|discriminate].
  unfold bind at 1, lift at 1 in Ha. cbv beta iota in Ha.
  run_inv Ha. destruct (negb _); [discriminate|].
  apply bind_done_inv in Ha as (u & wd0 & Hinit & Ha).
  apply bind_done_inv in Ha as (early & wdg & Hg & Ha).
  destruct early as [r'|].
  - injection Ha as <- <-. right.
    unfold global_phase in Hg. run_inv Hg.
    destruct (Rlt_dec _ _); [|discriminate].
    eapply global_sampling_early. exact Hg.
  - apply bind_done_inv in Ha as (u2 & wdc & Hc & Ha). run_inv Ha.
    destruct (x_buffer (self wdc)) eqn:Ex; [|discriminate].
    injection Ha as <- <-. left. exact Ex.
Qed.

(** X9.  With a global multiplier that is not positive and no custom region
    a step does nothing but [init]: no collaborator is called, and the
    result is the buffer [init] made, a new tensor of zeros. *)
Theorem apply_model_idle (wd : World) (x_in t_in : tref) (cond : PyCond)
    (N Ch H W : nat) :
  ref_shape x_in = [N; Ch; H; W] ->
  self_h (self wd) = Z.of_nat H -> self_w (self wd) = Z.of_nat W ->
  ~ (0 < global_multiplier (self wd))%R ->
  custom_bboxes (self wd) = [] ->
  is_Some (weights (self wd)) \/ is_Some (rescale_factor (self wd)) ->
  exists r wd',
    apply_model x_in t_in cond wd = Done r wd' /\
    x_buffer (self wd') = Some r /\
    ext wd' = ext wd /\
    base r = length (store wd) /\ ref_shape r = ref_shape x_in /\
    (forall l, l < length (store wd) -> store wd' !! l = store wd !! l) /\
    forall idx, tread (store wd') r idx = 0%R.
Proof.
  intros Hshp Hh Hw Hgm Hcb Hsome.
  set (xb := whole (length (store wd)) (ref_shape x_in)).
  assert (Hinit : exists wd0,
            init x_in wd = Done tt wd0 /\ x_buffer (self wd0) = Some xb /\
            (exists k, store wd0 =
               (store wd ++
                [Tensor (ref_shape x_in) (ref_device (store wd) x_in)
                   (ref_dtype (store wd) x_in) (fun _ => 0%R)]) ++ k)).
  { destruct (rescale_factor (self wd)) as [rf|] eqn:Erf.
    - eexists. split; [apply (init_again wd x_in rf Erf)|].
      cbn. split; [reflexivity|]. exists []. rewrite app_nil_r. reflexivity.
    - destruct Hsome as [[wt Hwt]|[? ?]]; [|discriminate].
      eexists. split.
      { unfold init. rewrite (bind_done _ _ _ _ _ (super_init_run x_in wd)).
        unfold bind at 1, get_self at 1. cbv beta iota.
        cbn [self with_self with_store set_x_buffer rescale_factor weights].
        rewrite Erf, Hwt. unfold attr.
        unfold bind, ret, rdiv_scalar, get_store, alloc, st, alloc_h,
          modify_self, get_self. cbn. rewrite Hcb. reflexivity. }
      cbn. split; [reflexivity|]. eexists [_]. reflexivity. }
  destruct Hinit as (wd0 & Hinit & Hxb & (k & Hk)).
  destruct (steps_done _ _ _ _ _ (init_quiet x_in) Hinit) as (Hs & He).
  destruct Hs as (_ & _ & _ & _ & _ & _ & _ & Egm & _ & Ecb & _).
  assert (Hglobal : global_phase x_in t_in cond N wd0 = Done None wd0).
  { unfold global_phase, bind, get_self. rewrite Egm.
    destruct (Rlt_dec 0 (global_multiplier (self wd))); [contradiction|].
    reflexivity. }
  exists xb, wd0. split.
  { rewrite (apply_model_phases wd wd0 wd0 x_in t_in cond N Ch H W
               Hshp Hh Hw Hinit Hglobal).
    unfold custom_phase, bind, get_self. rewrite Ecb, Hcb. cbn.
    rewrite Hxb. reflexivity. }
  split; [exact Hxb|]. split; [exact He|].
  split; [reflexivity|]. split; [apply ref_shape_whole|]. split.
  - intros l Hl. rewrite Hk, <- app_assoc. apply lookup_app_l. exact Hl.
  - intros idx. rewrite Hk. rewrite tread_app_old.
    + unfold tread, xb. cbn [base whole].
      rewrite list_lookup_middle by reflexivity. reflexivity.
    + unfold xb. cbn [base whole]. rewrite length_app. simpl. lia.
Qed.

(** X10.  The rescale is not retried after a failure. If [init] raises (it
    can only do so in its loop over the custom regions, once [weights]
    exists), [rescale_factor] has been set already; every later call of
    [init] then returns without touching the cached custom weights, so the
    regions the loop had not reached keep their weights as they were. *)
Theorem init_failure_not_retried (wd wd1 : World) (x_in : tref) (e : Exn) :
  init x_in wd = Fail e wd1 ->
  is_Some (weights (self wd)) ->
  is_Some (rescale_factor (self wd1)) /\
  forall x_in',
    exists wd2,
      init x_in' wd1 = Done tt wd2 /\
      rescale_factor (self wd2) = rescale_factor (self wd1) /\
      custom_weights (self wd2) = custom_weights (self wd1) /\
      forall r idx, base r < length (store wd1) ->
        tread (store wd2) r idx = tread (store wd1) r idx.
Proof.
  intros Hf [wt Hwt].
  assert (Hrf : is_Some (rescale_factor (self wd1))).
  { destruct (rescale_factor (self wd)) as [rf|] eqn:Erf.
    { rewrite (init_again wd x_in rf Erf) in Hf. discriminate. }
    unfold init in Hf.
    rewrite (bind_done _ _ _ _ _ (super_init_run x_in wd)) in Hf.
    unfold bind at 1, get_self at 1 in Hf. cbv beta iota in Hf.
    cbn [self with_self with_store set_x_buffer rescale_factor weights] in Hf.
    rewrite Erf, Hwt in Hf.
    unfold bind at 1, attr at 1, ret at 1 in Hf. cbv beta iota in Hf.
    unfold bind at 1, rdiv_scalar at 1, bind at 1, get_store at 1, alloc, st,
      alloc_h in Hf. cbv beta iota in Hf.
    unfold bind at 1, modify_self at 1 in Hf. cbv beta iota in Hf.
    unfold bind at 1, get_self at 1 in Hf. cbv beta iota in Hf.
    match type of Hf with
    | init_rescale_loop ?x ?i ?rs ?w = _ =>
        pose proof (init_rescale_loop_quiet x rs i w) as Hq
    end.
    rewrite Hf in Hq. cbn [final] in Hq.
    destruct Hq as ((_ & _ & _ & _ & _ & _ & _ & _ & _ & _ & _ & _ & _ & Hk) & _).
    rewrite Hk; cbn; eauto. }
  split; [exact Hrf|]. destruct Hrf as [rf Hrf].
  intros x_in'. eexists. split; [apply (init_again wd1 x_in' rf Hrf)|].
  cbn [self store with_self with_store]. split; [reflexivity|].
  split; [reflexivity|].
  intros r idx Hr. apply tread_app_old. exact Hr.
Qed.

End StepEdges.

(** ** Calls of the weight generator *)

Section KernelCalls.
Context `{C : Collaborators}.

(** The outcome of a call of the weight generator, case by case. *)
Lemma gaussian_weights_call (wd : World) (aw ah : option Z) :
  let w := default (tile_w (self wd)) aw in
  let h := default (tile_h (self wd)) ah in
  if (w =? 0)%Z && (0 <? h)%Z
  then _gaussian_weights aw ah wd = Fail ZeroDivisionError wd
  else
    exists t1 t2,
      _gaussian_weights aw ah wd =
        Done (whole (S (length (store wd))) [Z.to_nat h; Z.to_nat w])
             (with_store (store wd ++ [t1; t2]) wd) /\
      t_shape t2 = [Z.to_nat h; Z.to_nat w] /\
      t_device t2 = devices_device /\ t_dtype t2 = float32.
Proof.
  intros w h. destruct (Z.eqb_spec w 0) as [Hw|Hw]; cbn [andb].
  - assert (Ha : gaussian_array w h =
                  if (0 <? h)%Z then Raise ZeroDivisionError
                  else Ok (outer [] []))
      by (rewrite Hw; apply gaussian_array_zero_width).
    destruct (Z.ltb_spec 0 h) as [Hh|Hh].
    + apply gaussian_weights_raise. exact Ha.
    + pose proof (gaussian_weights_run wd aw ah _ Ha eq_refl) as Hrun.
      cbn [outer t_shape length] in Hrun.
      rewrite length_app, <- app_assoc in Hrun. cbn [length app] in Hrun.
      replace (length (store wd) + 1) with (S (length (store wd))) in Hrun
        by lia.
      rewrite Hw. replace (Z.to_nat h) with 0 by lia.
      eexists _, _. split; [exact Hrun|]. auto.
  - pose proof (gaussian_array_nonzero w h Hw) as Ha.
    pose proof (gaussian_weights_run wd aw ah _ Ha eq_refl) as Hrun.
    cbn [outer t_shape] in Hrun.
    rewrite !length_map, !length_range, length_app, <- app_assoc in Hrun.
    cbn [length app] in Hrun.
    replace (length (store wd) + 1) with (S (length (store wd))) in Hrun
      by lia.
    eexists _, _. split; [exact Hrun|]. auto.
Qed.

(** X11.  Every call of [_gaussian_weights], with the sizes it is given or
    those of [self] for the arguments left out. With a width of zero and a
    positive height it raises [ZeroDivisionError] and leaves the world
    untouched. Otherwise it returns, having appended two tensors to the
    store: the float64 array of numpy and its float32 copy on
    [devices.device], which is the result; no attribute is rebound and no
    tensor that existed is written to. *)
Theorem gaussian_weights_effects (wd : World) (aw ah : option Z) :
  let w := default (tile_w (self wd)) aw in
  let h := default (tile_h (self wd)) ah in
  if (w =? 0)%Z && (0 <? h)%Z
  then _gaussian_weights aw ah wd = Fail ZeroDivisionError wd
  else
    exists t1 t2,
      _gaussian_weights aw ah wd =
        Done (whole (S (length (store wd))) [Z.to_nat h; Z.to_nat w])
             (with_store (store wd ++ [t1; t2]) wd) /\
      t_shape t2 = [Z.to_nat h; Z.to_nat w] /\
      t_device t2 = devices_device /\ t_dtype t2 = float32.
Proof. apply gaussian_weights_call. Qed.

(** X12.  [get_global_weights] computes the kernel of a tile once. After a
    call that returned [r] the attribute [per_tile_weights] holds [r]; and
    in any world where it holds [r], whatever the tile sizes have become,
    the method returns [r] and changes nothing. The call that finds no
    attribute makes the kernel for the tile sizes of [self] at that time. *)
Theorem get_global_weights_cached (wd wd1 : World) (r : tref) :
  get_global_weights wd = Done r wd1 ->
  per_tile_weights (self wd1) = Some r /\
  (forall wd2, per_tile_weights (self wd2) = Some r ->
     get_global_weights wd2 = Done r wd2) /\
  (per_tile_weights (self wd) = None ->
   base r = S (length (store wd)) /\
   ref_shape r = [Z.to_nat (tile_h (self wd)); Z.to_nat (tile_w (self wd))] /\
   length (store wd1) = S (S (length (store wd))) /\
   forall l, l < length (store wd) -> store wd1 !! l = store wd !! l).
Proof.
  intros Hg.
  assert (Hlater : forall wd2, per_tile_weights (self wd2) = Some r ->
            get_global_weights wd2 = Done r wd2).
  { intros wd2 H2. unfold get_global_weights, bind, get_self. rewrite H2.
    reflexivity. }
  unfold get_global_weights in Hg.
  unfold bind at 1, get_self at 1 in Hg. cbv beta iota in Hg.
  destruct (per_tile_weights (self wd)) as [r0|] eqn:Ep.
  - injection Hg as <- <-. split; [exact Ep|]. split; [exact Hlater|].
    discriminate.
  - pose proof (gaussian_weights_call wd None None) as He.
    cbn [default] in He.
    destruct ((tile_w (self wd) =? 0)%Z && (0 <? tile_h (self wd))%Z).
    { rewrite (bind_fail _ _ _ _ _ He) in Hg. discriminate. }
    destruct He as (t1 & t2 & He & _).
    rewrite (bind_done _ _ _ _ _ He) in Hg.
    unfold bind, modify_self, ret in Hg. injection Hg as <- <-.
    cbn [self store with_self with_store set_per_tile_weights
         per_tile_weights].
    split; [reflexivity|]. split; [exact Hlater|]. intros _.
    split; [reflexivity|]. split; [apply ref_shape_whole|].
    split; [rewrite length_app; simpl; lia|].
    intros l Hl. apply lookup_app_l. exact Hl.
Qed.

End KernelCalls.

(** ** Attaching more than once *)

Section HookCalls.
Context `{C : Collaborators}.

(** X13.  [hook] can be called again while the model is attached: the second
    call does not take the hijacked [apply_model] for the original. It
    leaves [shared.sd_model] as the first call made it; a single [unhook]
    then puts the original [fn] back. *)
Theorem hook_twice (wd : World) (fn : Callable) :
  getattr (sd_model wd) "apply_model" = Ok fn ->
  hasattr (sd_model wd) "md_org_apply_model" = false ->
  exists wd1 wd2 wd3,
    hook wd = Done tt wd1 /\
    hook wd1 = Done tt wd2 /\
    sd_model wd2 = sd_model wd1 /\
    getattr (sd_model wd2) "md_org_apply_model" = Ok fn /\
    unhook wd2 = Done tt wd3 /\
    getattr (sd_model wd3) "apply_model" = Ok fn /\
    hasattr (sd_model wd3) "md_org_apply_model" = false.
Proof.
  intros Hfn Hno.
  destruct (hasattr_false _ _ Hno) as [Hi Hc].
  eexists _, _, _. split.
  { unfold hook, bind, get_sd_model, lift, set_sd_model,
      before_image_saved_callback, modify_callbacks.
    rewrite Hno, Hfn. reflexivity. }
  cbn [sd_model with_sd_model with_callbacks before_image_saved].
  split.
  { unfold hook, bind, get_sd_model, lift, set_sd_model,
      before_image_saved_callback, modify_callbacks.
    cbn [sd_model with_sd_model with_callbacks].
    unfold hasattr, getattr, setattr. cbn [inst cls].
    simplify_map_eq. reflexivity. }
  cbn [sd_model with_sd_model with_callbacks before_image_saved].
  split; [reflexivity|]. split.
  { unfold getattr, setattr. cbn [inst cls]. by simplify_map_eq. }
  split.
  { unfold unhook, bind, get_sd_model, lift, set_sd_model.
    cbn [sd_model with_sd_model with_callbacks].
    unfold hasattr, getattr, setattr, delattr. cbn [inst cls].
    simplify_map_eq. reflexivity. }
  cbn [sd_model with_sd_model with_callbacks].
  split.
  { unfold getattr. cbn [inst cls]. by simplify_map_eq. }
  unfold hasattr, getattr. cbn [inst cls]. by simplify_map_eq.
Qed.

End HookCalls.

(** ** The cached weights of the custom regions *)

Section CachedWeights.
Context `{C : Collaborators}.

(** The world an in-place operation leaves when it returns. *)
Lemma iop_done_store op (a b : tref) wd u wd1 :
  iop op a b wd = Done u wd1 ->
  wd1 = with_store
          (update_view a
             (fun idx old =>
                op old (tread (store wd) b (bcast_index (ref_shape b) idx)))
             (store wd)) wd.
Proof.
  unfold iop, bind, get_store. destruct (negb _); [discriminate|].
  destruct (broadcast_shapes _ _); [|discriminate].
  destruct (bool_decide _); [|discriminate].
  unfold set_store. intros E. injection E as _ <-. reflexivity.
Qed.

(** One round of the loop of [init_custom_bbox], as far as the cached
    weight goes. *)
Lemma init_custom_bbox_body_cached (wd wd' : World) (bb : bbox)
    (cond uncond : RegionCond) (m : R) (wt : tref) :
  init_custom_bbox_body (bb, cond, uncond, m) wd = Done tt wd' ->
  (b2 bb - b0 bb <> 0)%Z ->
  weights (self wd) = Some wt -> base wt < length (store wd) ->
  let bw := (b2 bb - b0 bb)%Z in
  let bh := (b3 bb - b1 bb)%Z in
  let cw := TRef (length (store wd) + 2)
                 [VNew 1; VNew 1; VSlice 0 (Z.to_nat bh); VSlice 0 (Z.to_nat bw)] in
  custom_weights (self wd') = custom_weights (self wd) ++ [cw] /\
  rescale_factor (self wd') = rescale_factor (self wd) /\
  weights (self wd') = weights (self wd) /\
  length (store wd') = length (store wd) + 3 /\
  (forall l, l < length (store wd) -> l <> base wt ->
     store wd' !! l = store wd !! l) /\
  (forall r, base r < length (store wd) ->
     ref_device (store wd') r = ref_device (store wd) r) /\
  ref_device (store wd') cw = devices_device /\
  forall y x, y < Z.to_nat bh -> x < Z.to_nat bw ->
    tread (store wd') cw [0; 0; y; x] =
      (f_value bw (Z.of_nat y) (IZR bh / 2)
       * f_value bw (Z.of_nat x) (IZR (bw - 1) / 2) * m)%R.
Proof.
  intros Hrun Hw Hwt Hl bw bh cw.
  destruct (gaussian_weights_result wd bw bh Hw) as (t1 & t2 & Hg & Dg & Vg).
  set (h := store wd) in *.
  set (g := whole (S (length h)) [Z.to_nat bh; Z.to_nat bw]) in *.
  set (wd1 := with_store (h ++ [t1; t2]) wd) in *.
  set (t3 := Tensor [Z.to_nat bh; Z.to_nat bw] (ref_device (h ++ [t1; t2]) g)
               (ref_dtype (h ++ [t1; t2]) g)
               (fun idx => (tread (h ++ [t1; t2]) g idx * m)%R)).
  set (gw := whole (length (h ++ [t1; t2])) [Z.to_nat bh; Z.to_nat bw]).
  set (wd2 := with_store ((h ++ [t1; t2]) ++ [t3]) wd1).
  assert (Hm : mul_scalar g m wd1 = Done gw wd2) by reflexivity.
  assert (Dg' : ref_device (h ++ [t1; t2]) g = devices_device).
  { unfold ref_device, g. cbn [base whole].
    replace (h ++ [t1; t2]) with ((h ++ [t1]) ++ [t2])
      by (rewrite <- app_assoc; reflexivity).
    rewrite list_lookup_middle by (rewrite length_app; simpl; lia).
    exact Dg. }
  unfold init_custom_bbox_body in Hrun. fold bw bh in Hrun.
  rewrite (bind_done _ _ wd _ _ Hg) in Hrun.
  rewrite (bind_done _ _ wd1 _ _ Hm) in Hrun.
  unfold bind at 1, get_self at 1 in Hrun. cbv beta iota in Hrun.
  change (self wd2) with (self wd) in Hrun. rewrite Hwt in Hrun.
  unfold bind at 1, attr at 1, ret at 1 in Hrun. cbv beta iota in Hrun.
  destruct (slice_bbox wt bb) as [sl|] eqn:Hsl; [|discriminate].
  unfold bind at 1, lift at 1 in Hrun. cbv beta iota in Hrun.
  apply bind_done_inv in Hrun as (u & wdi & Hi & Hrun).
  apply iop_done_store in Hi. subst wdi.
  unfold modify_self in Hrun. injection Hrun as <-.
  pose proof (slice_view_ok_base _ _ _ Hsl) as Bsl.
  cbn [self store with_self with_store set_custom_weights custom_weights
       rescale_factor wd2 wd1].
  assert (Ecw : unsqueeze0 (unsqueeze0 gw) = cw).
  { unfold unsqueeze0, gw, cw, whole. cbn [base view map].
    rewrite length_app. cbn [length]. reflexivity. }
  split; [rewrite Ecw; reflexivity|]. split; [reflexivity|].
  split; [reflexivity|].
  split; [rewrite length_update_view, !length_app; simpl; lia|].
  split.
  { intros l Hl' Hne. rewrite update_view_other by congruence.
    rewrite <- app_assoc. apply lookup_app_l. exact Hl'. }
  split.
  { intros r Hr. rewrite ref_device_update.
    rewrite !ref_device_app_old by (rewrite ?length_app; simpl; lia).
    reflexivity. }
  assert (Hne : base cw <> base sl).
  { rewrite Bsl. unfold cw. cbn [base]. fold h in Hl. lia. }
  split.
  { rewrite ref_device_update. rewrite <- Ecw.
    change (ref_device ((h ++ [t1; t2]) ++ [t3]) (unsqueeze0 (unsqueeze0 gw)))
      with (ref_device ((h ++ [t1; t2]) ++ [t3]) gw).
    unfold gw. rewrite ref_device_new. unfold t3. cbn [t_device]. exact Dg'. }
  intros y x Hy Hx.
  rewrite tread_update_other by exact Hne.
  unfold tread, cw. cbn [base view to_base].
  replace (length h + 2) with (length (h ++ [t1; t2]))
    by (rewrite length_app; simpl; lia).
  rewrite list_lookup_middle by reflexivity.
  unfold t3. cbn [t_data]. rewrite !Nat.add_0_l. f_equal.
  unfold tread, g. cbn [base whole view map to_base].
  replace (h ++ [t1; t2]) with ((h ++ [t1]) ++ [t2])
    by (rewrite <- app_assoc; reflexivity).
  rewrite list_lookup_middle by (rewrite length_app; simpl; lia).
  apply Vg; assumption.
Qed.


(** The loop of [init_custom_bbox]: one new cached weight per region, in
    the order of the regions, appended to the list. *)
Lemma init_custom_bbox_loop_cached (regions : list Region) :
  forall (wd wd' : World) (wt : tref),
  init_custom_bbox_loop regions wd = Done tt wd' ->
  Forall (fun region : Region =>
            (b2 region.1.1.1 - b0 region.1.1.1 <> 0)%Z) regions ->
  weights (self wd) = Some wt -> base wt < length (store wd) ->
  rescale_factor (self wd') = rescale_factor (self wd) /\
  length (store wd) <= length (store wd') /\
  (forall l, l < length (store wd) -> l <> base wt ->
     store wd' !! l = store wd !! l) /\
  (forall r, base r < length (store wd) ->
     ref_device (store wd') r = ref_device (store wd) r) /\
  exists cws,
    custom_weights (self wd') = custom_weights (self wd) ++ cws /\
    Forall2 weight_for cws regions /\
    Forall (fun cw => length (store wd) <= base cw < length (store wd')) cws /\
    NoDup (map base cws) /\
    forall k (region : Region) cw,
      regions !! k = Some region -> cws !! k = Some cw ->
      ref_device (store wd') cw = devices_device /\
      forall y x,
        y < Z.to_nat (b3 region.1.1.1 - b1 region.1.1.1) ->
        x < Z.to_nat (b2 region.1.1.1 - b0 region.1.1.1) ->
        tread (store wd') cw [0; 0; y; x] =
          (f_value (b2 region.1.1.1 - b0 region.1.1.1) (Z.of_nat y)
                   (IZR (b3 region.1.1.1 - b1 region.1.1.1) / 2)
           * f_value (b2 region.1.1.1 - b0 region.1.1.1) (Z.of_nat x)
                     (IZR (b2 region.1.1.1 - b0 region.1.1.1 - 1) / 2)
           * region.2)%R.
Proof.
  induction regions as [|[[[bb cond] uncond] m] rest IH];
    intros wd wd' wt Hrun Hall Hwt Hl; cbn [init_custom_bbox_loop] in Hrun.
  - injection Hrun as <-. split; [reflexivity|]. split; [lia|].
    split; [auto|]. split; [auto|]. exists [].
    split; [symmetry; apply app_nil_r|]. split; [constructor|].
    split; [constructor|]. split; [constructor|].
    intros k region cw Hk. discriminate.
  - apply bind_done_inv in Hrun as (u & wd1 & Hbody & Hrun). destruct u.
    inversion Hall as [|? ? Hw Hrest]; subst. cbn [fst] in Hw.
    destruct (init_custom_bbox_body_cached wd wd1 bb cond uncond m wt
                Hbody Hw Hwt Hl)
      as (Ecw & Erf & Ewt & Elen & Hframe & Hdev & Dcw & Vcw).
    destruct (IH wd1 wd' wt Hrun Hrest ltac:(congruence) ltac:(lia))
      as (Erf' & Hlen' & Hframe' & Hdev' & cws & Ecws & Hwf & Hb & Hnd & Hval).
    set (cw0 := TRef (length (store wd) + 2)
                  [VNew 1; VNew 1; VSlice 0 (Z.to_nat (b3 bb - b1 bb));
                   VSlice 0 (Z.to_nat (b2 bb - b0 bb))]) in *.
    split; [congruence|]. split; [lia|]. split.
    { intros l Hl1 Hne. rewrite Hframe' by (try lia; exact Hne).
      apply Hframe; assumption. }
    split.
    { intros r Hr. rewrite Hdev' by lia. apply Hdev. exact Hr. }
    exists (cw0 :: cws). split.
    { rewrite Ecws, Ecw, <- app_assoc. reflexivity. }
    split.
    { constructor; [|exact Hwf]. split; [reflexivity|].
      unfold unit_new. cbn [view cw0]. repeat constructor. }
    split.
    { constructor; [cbn [base cw0]; lia|].
      eapply Forall_impl; [exact Hb|]. intros r Hr. cbn in Hr. lia. }
    split.
    { cbn [map]. constructor; [|exact Hnd].
      intros Hin. apply (list_elem_of_fmap_1 base) in Hin as (r & Er & Hin).
      rewrite Forall_forall in Hb. specialize (Hb r Hin). cbn in Hb.
      cbn [base cw0] in Er. lia. }
    intros k region cw Hk Hc. destruct k as [|k].
    + cbn in Hk, Hc. injection Hk as <-. injection Hc as <-. cbn [fst snd].
      assert (Hcell : store wd' !! base cw0 = store wd1 !! base cw0).
      { apply Hframe'; cbn [base cw0]; lia. }
      split.
      { rewrite Hdev' by (cbn [base cw0]; lia). exact Dcw. }
      intros y x Hy Hx. rewrite (tread_same_cell _ _ _ _ Hcell).
      apply Vcw; assumption.
    + cbn in Hk, Hc. apply (Hval k region cw Hk Hc).
Qed.

(** X15.  After the base class has set up the regions, [init_custom_bbox]
    appends to [custom_weights] one new tensor for each custom region, in
    the order of the regions: the one for the region at index [k] lands at
    index [len + k], where [len] is the length the list had (zero on a new
    instance, so that the indices of weights and regions agree). It has
    shape [(1, 1, bh, bw)] for the size of the region's bounding box, lives
    on [devices.device], and holds the Gaussian kernel of that size
    multiplied by the region's multiplier. *)
Theorem init_custom_bbox_caches (wd wd1 : World) (gm : R)
    (states : ControlStates) (n c H W lw : nat) :
  super_init_custom_bbox gm states wd = Done tt wd1 ->
  weights (self wd1) = Some (whole lw [n; c; H; W]) ->
  lw < length (store wd1) ->
  ref_device (store wd1) (whole lw [n; c; H; W]) = devices_device ->
  Forall (region_in H W) (custom_bboxes (self wd1)) ->
  exists wd2,
    init_custom_bbox gm states wd = Done tt wd2 /\
    length (custom_weights (self wd2))
      = length (custom_weights (self wd1)) + length (custom_bboxes (self wd1)) /\
    (forall j, j < length (custom_weights (self wd1)) ->
       custom_weights (self wd2) !! j = custom_weights (self wd1) !! j) /\
    forall k (region : Region),
      custom_bboxes (self wd1) !! k = Some region ->
      exists cw,
        custom_weights (self wd2) !! (length (custom_weights (self wd1)) + k)
          = Some cw /\
        weight_for cw region /\
        length (store wd1) <= base cw < length (store wd2) /\
        ref_device (store wd2) cw = devices_device /\
        forall y x,
          y < Z.to_nat (b3 region.1.1.1 - b1 region.1.1.1) ->
          x < Z.to_nat (b2 region.1.1.1 - b0 region.1.1.1) ->
          tread (store wd2) cw [0; 0; y; x] =
            (kernel_at region.1.1.1 (Z.to_nat (b1 region.1.1.1) + y)
                       (Z.to_nat (b0 region.1.1.1) + x)
             * region.2)%R.
Proof.
  intros Hsuper Hwt Hl Hdev Hall.
  destruct (init_custom_bbox_loop_weights _ wd1 n c H W lw Hwt Hl Hdev Hall)
    as (wd2 & Hrun & _ & _ & Elen & _).
  exists wd2. split.
  { unfold init_custom_bbox. rewrite (bind_done _ _ wd _ _ Hsuper).
    exact Hrun. }
  split; [exact Elen|].
  assert (Hnz : Forall (fun region : Region =>
                   (b2 region.1.1.1 - b0 region.1.1.1 <> 0)%Z)
                  (custom_bboxes (self wd1))).
  { eapply Forall_impl; [exact Hall|].
    intros [[[bb cond] uncond] m] (_ & Hp & _). cbn [fst]. lia. }
  destruct (init_custom_bbox_loop_cached _ wd1 wd2 _ Hrun Hnz Hwt Hl)
    as (_ & _ & _ & _ & cws & Ecws & Hwf & Hb & _ & Hval).
  split.
  { intros j Hj. rewrite Ecws. apply lookup_app_l. exact Hj. }
  intros k region Hk.
  destruct (Forall2_lookup_r _ _ _ _ _ Hwf Hk) as (cw & Hcw & Hwfc).
  exists cw. split.
  { rewrite Ecws, lookup_app_r by lia.
    replace (length (custom_weights (self wd1)) + k
             - length (custom_weights (self wd1))) with k by lia.
    exact Hcw. }
  split; [exact Hwfc|]. split.
  { rewrite Forall_forall in Hb. apply Hb.
    eapply list_elem_of_lookup_2. exact Hcw. }
  destruct (Hval k region cw Hk Hcw) as (Dcw & Vcw).
  split; [exact Dcw|].
  intros y x Hy Hx. rewrite (Vcw y x Hy Hx).
  rewrite Forall_forall in Hall.
  pose proof (Hall region (list_elem_of_lookup_2 _ _ _ Hk)) as Hin.
  destruct region as [[[bb cond] uncond] m]. cbn [fst snd] in *.
  destruct Hin as ((Hx0 & _ & Hy0 & _) & _).
  unfold kernel_at.
  replace (Z.to_nat (b1 bb) + y - Z.to_nat (b1 bb)) with y by lia.
  replace (Z.to_nat (b0 bb) + x - Z.to_nat (b0 bb)) with x by lia.
  reflexivity.
Qed.


(** The first call of [init] returns when the cached weights are what
    [init_custom_bbox] makes them. *)
Lemma init_first_returns (wd : World) (x_in : tref) (H W lw : nat) :
  rescale_factor (self wd) = None ->
  weights (self wd) = Some (whole lw [1; 1; H; W]) ->
  lw < length (store wd) -> base x_in < length (store wd) ->
  ref_device (store wd) (whole lw [1; 1; H; W]) = ref_device (store wd) x_in ->
  Forall (fun region : Region => bbox_in region.1.1.1 H W)
         (custom_bboxes (self wd)) ->
  Forall2 weight_for (custom_weights (self wd)) (custom_bboxes (self wd)) ->
  Forall (fun cw => base cw < length (store wd)) (custom_weights (self wd)) ->
  NoDup (map base (custom_weights (self wd))) ->
  exists wd1, init x_in wd = Done tt wd1.
Proof.
  intros Hnone Hwt Hlw Hx Hdev Hbb Hwf Hvalid Hnd.
  unfold init. rewrite (bind_done _ _ _ _ _ (super_init_run x_in wd)).
  unfold bind at 1, get_self at 1. cbv beta iota.
  cbn [self with_self with_store set_x_buffer rescale_factor weights].
  rewrite Hnone, Hwt.
  unfold bind at 1, attr at 1, ret at 1. cbv beta iota.
  unfold bind at 1, rdiv_scalar at 1, bind at 1, get_store at 1, alloc, st,
    alloc_h. cbv beta iota.
  unfold bind at 1, modify_self at 1. cbv beta iota.
  unfold bind at 1, get_self at 1. cbv beta iota.
  cbn [store self with_self with_store t_shape custom_bboxes
       set_rescale_factor set_x_buffer].
  rewrite ref_shape_whole.
  set (h0 := store wd) in *.
  set (z := Tensor (ref_shape x_in) _ _ _).
  set (t := Tensor [1; 1; H; W] _ _ _).
  match goal with
  | |- exists _, init_rescale_loop _ _ _ ?w = _ => set (wd3 := w)
  end.
  assert (Hlen3 : length (store wd3) = S (S (length h0))).
  { unfold wd3. cbn [store with_self with_store]. rewrite !length_app.
    simpl. lia. }
  assert (Hcw3 : custom_weights (self wd3) = custom_weights (self wd))
    by reflexivity.
  destruct (init_rescale_loop_run x_in H W (length (h0 ++ [z]))
              (custom_bboxes (self wd)) 0 wd3)
    as (wd' & Hrun & _).
  { reflexivity. }
  { rewrite Hlen3, length_app. simpl. lia. }
  { rewrite Hlen3. lia. }
  { unfold wd3. cbn [store with_self with_store].
    rewrite ref_device_new. unfold t. cbn [t_device].
    rewrite !ref_device_app_old
      by (rewrite ?length_app; cbn [base whole]; simpl; lia).
    exact Hdev. }
  { exact Hbb. }
  { intros j r Hj. cbn [Nat.add]. rewrite Hcw3.
    destruct (Forall2_lookup_r _ _ _ _ _ Hwf Hj) as (cw & Hc & Hwfc).
    exists cw. split; [exact Hc|]. split; [exact Hwfc|].
    pose proof (Forall_lookup_1 _ _ _ _ Hvalid Hc) as Hlt. cbn in Hlt.
    rewrite Hlen3, length_app. simpl. fold h0 in Hlt. lia. }
  { intros k1 k2 c1 c2 _ _ Hne H1 H2. cbn [Nat.add] in H1, H2.
    rewrite Hcw3 in H1, H2. intros E. apply Hne.
    eapply (NoDup_lookup (map base (custom_weights (self wd))) k1 k2 (base c1));
      [exact Hnd| |].
    - rewrite list_lookup_fmap, H1. reflexivity.
    - rewrite list_lookup_fmap, H2, E. reflexivity. }
  exists wd'. exact Hrun.
Qed.

(** X16.  From the set-up of the regions to the first denoising step, on an
    instance whose list of cached weights is empty and whose rescale factor
    does not exist yet (as the constructor leaves them): [init_custom_bbox]
    followed by the first [init] leaves, for the custom region at index [k],
    a cached weight at the same index that holds the Gaussian kernel of the
    region times its multiplier, divided by the total weight of the canvas
    under it, which is the weight the base class had there plus what all the
    custom regions added. *)
Theorem custom_weights_finalised (wd wd1 : World) (gm : R)
    (states : ControlStates) (H W lw : nat) (x_in : tref) :
  super_init_custom_bbox gm states wd = Done tt wd1 ->
  weights (self wd1) = Some (whole lw [1; 1; H; W]) ->
  lw < length (store wd1) ->
  ref_device (store wd1) (whole lw [1; 1; H; W]) = devices_device ->
  Forall (region_in H W) (custom_bboxes (self wd1)) ->
  custom_weights (self wd1) = [] ->
  rescale_factor (self wd1) = None ->
  base x_in < length (store wd1) ->
  ref_device (store wd1) x_in = devices_device ->
  exists wd2 wd3,
    init_custom_bbox gm states wd = Done tt wd2 /\
    init x_in wd2 = Done tt wd3 /\
    length (custom_weights (self wd3)) = length (custom_bboxes (self wd1)) /\
    forall k (region : Region),
      custom_bboxes (self wd1) !! k = Some region ->
      exists cw,
        custom_weights (self wd3) !! k = Some cw /\
        weight_for cw region /\
        forall y x,
          y < Z.to_nat (b3 region.1.1.1 - b1 region.1.1.1) ->
          x < Z.to_nat (b2 region.1.1.1 - b0 region.1.1.1) ->
          tread (store wd3) cw [0; 0; y; x] =
            (kernel_at region.1.1.1 (Z.to_nat (b1 region.1.1.1) + y)
                       (Z.to_nat (b0 region.1.1.1) + x)
             * region.2
             * (1 / add_regions (custom_bboxes (self wd1))
                      (tread (store wd1) (whole lw [1; 1; H; W]%nat)
                         [0; 0; Z.to_nat (b1 region.1.1.1) + y;
                          Z.to_nat (b0 region.1.1.1) + x]%nat)
                      (Z.to_nat (b1 region.1.1.1) + y)
                      (Z.to_nat (b0 region.1.1.1) + x)))%R.
Proof.
  intros Hsuper Hwt Hl Hdev Hall Hempty Hnone Hx Hdx.
  destruct (init_custom_bbox_loop_weights _ wd1 1 1 H W lw Hwt Hl Hdev Hall)
    as (wd2 & Hrun & Ew & Eb & Elen & Hsum).
  assert (Hnz : Forall (fun region : Region =>
                   (b2 region.1.1.1 - b0 region.1.1.1 <> 0)%Z)
                  (custom_bboxes (self wd1))).
  { eapply Forall_impl; [exact Hall|].
    intros [[[bb cond] uncond] m] (_ & Hp & _). cbn [fst]. lia. }
  destruct (init_custom_bbox_loop_cached _ wd1 wd2 _ Hrun Hnz Hwt Hl)
    as (Erf & Hlen & _ & Hdev2 & cws & Ecws & Hwf & Hb & Hnd & Hval).
  rewrite Hempty in Ecws. cbn [app] in Ecws.
  assert (Hbb : Forall (fun region : Region => bbox_in region.1.1.1 H W)
                  (custom_bboxes (self wd2))).
  { rewrite Eb. eapply Forall_impl; [exact Hall|].
    intros [[[bb cond] uncond] m] (Hin & _). exact Hin. }
  assert (Hwt2 : weights (self wd2) = Some (whole lw [1; 1; H; W]))
    by congruence.
  assert (Hnone2 : rescale_factor (self wd2) = None) by congruence.
  assert (Hl2 : lw < length (store wd2)) by lia.
  assert (Hx2 : base x_in < length (store wd2)) by lia.
  assert (Hd2 : ref_device (store wd2) (whole lw [1; 1; H; W])
                = ref_device (store wd2) x_in).
  { rewrite !Hdev2 by (cbn [base whole]; assumption). congruence. }
  assert (Hwf2 : Forall2 weight_for (custom_weights (self wd2))
                   (custom_bboxes (self wd2))) by (rewrite Ecws, Eb; exact Hwf).
  assert (Hv2 : Forall (fun cw => base cw < length (store wd2))
                  (custom_weights (self wd2))).
  { rewrite Ecws. eapply Forall_impl; [exact Hb|]. intros r Hr. cbn in Hr. lia. }
  assert (Hnd2 : NoDup (map base (custom_weights (self wd2))))
    by (rewrite Ecws; exact Hnd).
  destruct (init_first_returns wd2 x_in H W lw Hnone2 Hwt2 Hl2 Hx2 Hd2 Hbb
              Hwf2 Hv2 Hnd2) as (wd3 & Hinit).
  exists wd2, wd3. split.
  { unfold init_custom_bbox. rewrite (bind_done _ _ wd _ _ Hsuper).
    exact Hrun. }
  split; [exact Hinit|]. split.
  { destruct (steps_done _ _ _ _ _ (init_quiet x_in) Hinit) as (Hs & _).
    destruct Hs as (_ & _ & _ & _ & _ & _ & _ & _ & _ & _ & _ & _ & -> & _).
    rewrite Elen, Hempty. reflexivity. }
  intros k region Hk.
  destruct (Forall2_lookup_r _ _ _ _ _ Hwf Hk) as (cw & Hcw & _).
  destruct (init_first_weights wd2 wd3 x_in H W lw Hinit Hnone2 Hwt2 Hl2 Hx2
              Hd2 Hbb Hwf2 Hv2 Hnd2 k region cw)
    as (cw' & Hcw' & Hwf' & Hv').
  { rewrite Eb. exact Hk. }
  { rewrite Ecws. exact Hcw. }
  exists cw'. split; [exact Hcw'|]. split; [exact Hwf'|].
  intros y x Hy Hx'. rewrite (Hv' y x Hy Hx').
  destruct (Hval k region cw Hk Hcw) as (_ & Vcw). rewrite (Vcw y x Hy Hx').
  rewrite Forall_forall in Hall.
  pose proof (Hall region (list_elem_of_lookup_2 _ _ _ Hk)) as Hin.
  destruct region as [[[bb cond] uncond] m]. cbn [fst snd] in *.
  destruct Hin as ((Hx0 & Hx1 & Hy0 & Hy1) & _).
  rewrite Hsum by lia.
  unfold kernel_at.
  replace (Z.to_nat (b1 bb) + y - Z.to_nat (b1 bb)) with y by lia.
  replace (Z.to_nat (b0 bb) + x - Z.to_nat (b0 bb)) with x by lia.
  reflexivity.
Qed.

End CachedWeights.

(** ** The contribution of a custom region *)

Section CustomRegion.
Context `{C : Collaborators}.

Lemma custom_apply_model_self x t c_in bbox_id bb cond uncond wd :
  self (final (custom_apply_model x t c_in bbox_id bb cond uncond wd)) = self wd.
Proof.
  unfold custom_apply_model, bind, get_self, get_sd_model, lift, call_ext.
  destruct (is_kdiff (self wd)).
  - destruct (getattr _ _); [|reflexivity].
    destruct (kdiff_custom_forward _ _ _ _ _ _ _ _ _ _) as [r [h e]|z [h e]];
      reflexivity.
  - destruct (ddim_custom_forward _ _ _ _ _ _ _ _ _) as [r [h e]|z [h e]];
      reflexivity.
Qed.

Lemma in_view_whole4 (a b c d i j y x : nat) :
  i < a -> j < b -> y < c -> x < d ->
  in_view (map (VSlice 0) [a; b; c; d]) [i; j; y; x] = true.
Proof.
  intros Hi Hj Hy Hx. cbn [map in_view Nat.leb andb Nat.add].
  rewrite !(proj2 (Nat.ltb_lt _ _)) by assumption. reflexivity.
Qed.

Lemma of_base_whole4 (a b c d i j y x : nat) :
  of_base (map (VSlice 0) [a; b; c; d]) [i; j; y; x] = [i; j; y; x].
Proof. cbn [map of_base]. rewrite !Nat.sub_0_r. reflexivity. Qed.

(** The loop over the custom regions, one region at a time. *)
Lemma custom_sampling_unroll x_in t_in c_in bbox_id region rest wd :
  custom_sampling x_in t_in c_in bbox_id (region :: rest) wd =
    (let* _ := custom_sampling x_in t_in c_in bbox_id [region] in
     custom_sampling x_in t_in c_in (S bbox_id) rest) wd.
Proof.
  destruct region as [[[bb cond] uncond] m]. cbn [custom_sampling].
  unfold bind, ret.
  destruct (lift (slice_bbox x_in bb) wd) as [x_tile w1|]; [|reflexivity].
  destruct (custom_apply_model _ _ _ _ _ _ _ w1) as [out w2|]; [|reflexivity].
  destruct (get_self w2) as [s w3|]; [|reflexivity].
  destruct (lift _ w3) as [cw w4|]; [|reflexivity].
  destruct (iop Rmult out cw w4) as [u w5|]; [|reflexivity].
  destruct (get_self w5) as [s' w6|]; [|reflexivity].
  destruct (attr _ w6) as [xb w7|]; [|reflexivity].
  destruct (lift _ w7) as [xsl w8|]; [|reflexivity].
  destruct (iop Rplus xsl out w8) as [u' w9|]; [|reflexivity].
  destruct (call_ext update_pbar w9) as [u'' w10|]; reflexivity.
Qed.

(** X17.  One custom region. After the forward adapter has returned the
    prediction [out] for the tile of the region, in the world [wd1], the
    round multiplies [out] in place by the cached weight of the region and
    adds it to [x_buffer] at the bounding box; outside the box the buffer is
    as it was. The adapter's tensor is overwritten with the weighted
    prediction. *)
Theorem custom_region_contribution (wd wd1 : World) (x_in t_in : tref)
    (c_in : PyCond) (i : nat) (bb : bbox) (cond uncond : RegionCond) (m : R)
    (N Ch H W lb lo dev : nat) (x_tile cw : tref) :
  let bh := Z.to_nat (b3 bb - b1 bb) in
  let bw := Z.to_nat (b2 bb - b0 bb) in
  let xb := whole lb [N; Ch; H; W] in
  let out := whole lo [N; Ch; bh; bw] in
  x_buffer (self wd) = Some xb ->
  custom_weights (self wd) !! i = Some cw ->
  weight_for cw (bb, cond, uncond, m) ->
  bbox_in bb H W ->
  slice_bbox x_in bb = Ok x_tile ->
  custom_apply_model x_tile t_in c_in i bb cond uncond wd = Done out wd1 ->
  lb < length (store wd1) -> lo < length (store wd1) ->
  lo <> lb -> base cw <> lo ->
  ref_device (store wd1) xb = dev -> ref_device (store wd1) out = dev ->
  ref_device (store wd1) cw = dev ->
  (forall h e, exists k e', update_pbar h e = Done tt (h ++ k, e')) ->
  exists wd',
    custom_sampling x_in t_in c_in i [(bb, cond, uncond, m)] wd = Done tt wd' /\
    self wd' = self wd /\
    (forall l, l < length (store wd1) -> l <> lb -> l <> lo ->
       store wd' !! l = store wd1 !! l) /\
    (forall n c y x, n < N -> c < Ch -> y < bh -> x < bw ->
       tread (store wd') out [n; c; y; x] =
         (tread (store wd1) out [n; c; y; x]
          * tread (store wd1) cw [0; 0; y; x]%nat)%R) /\
    forall n c y x, n < N -> c < Ch -> y < H -> x < W ->
      tread (store wd') xb [n; c; y; x] =
        if in_bbox bb y x then
          (tread (store wd1) xb [n; c; y; x]
           + tread (store wd1) out
               [n; c; y - Z.to_nat (b1 bb); x - Z.to_nat (b0 bb)]%nat
             * tread (store wd1) cw
                 [0; 0; y - Z.to_nat (b1 bb); x - Z.to_nat (b0 bb)]%nat)%R
        else tread (store wd1) xb [n; c; y; x].
Proof.
  intros bh bw xb out Hxb Hcw (Scw & Ucw) Hbb Hslice Hrun Llb Llo Hne Hcwo
         Dxb Dout Dcw Hpb.
  pose proof (custom_apply_model_self x_tile t_in c_in i bb cond uncond wd)
    as Hself.
  rewrite Hrun in Hself. cbn [final] in Hself.
  destruct (in_bbox_bounds bb H W 0 0 Hbb) as (Esy & Eny & Esx & Enx & _).
  set (h1 := store wd1) in *.
  set (xsl := TRef lb [VSlice 0 N; VSlice 0 Ch;
                       VSlice (slice_bounds H (b1 bb) (b3 bb)).1
                              (slice_bounds H (b1 bb) (b3 bb)).2;
                       VSlice (slice_bounds W (b0 bb) (b2 bb)).1
                              (slice_bounds W (b0 bb) (b2 bb)).2]).
  assert (Sxsl : ref_shape xsl = [N; Ch; bh; bw]).
  { unfold xsl, ref_shape. cbn [view view_shape]. rewrite Eny, Enx.
    reflexivity. }
  (* x_tile_out *= self.custom_weights[bbox_id] *)
  pose proof (iop_run Rmult out cw wd1) as Hm.
  unfold out at 2 3 in Hm. rewrite ref_shape_whole, Scw in Hm.
  specialize (Hm ltac:(fold h1; rewrite Dout, Dcw; reflexivity)
                 (broadcast_4_4 N Ch bh bw 1 1 (or_introl eq_refl)
                    (or_introl eq_refl))).
  fold h1 in Hm.
  set (h2 := update_view out _ h1) in Hm.
  set (wd2 := with_store h2 wd1) in Hm.
  (* self.x_buffer[slice] += x_tile_out *)
  pose proof (iop_run Rplus xsl out wd2) as Hp.
  rewrite Sxsl in Hp. unfold out at 2 3 in Hp. rewrite ref_shape_whole in Hp.
  assert (Dxsl : ref_device h2 xsl = dev).
  { unfold h2. rewrite ref_device_update. exact Dxb. }
  assert (Dout2 : ref_device h2 out = dev).
  { unfold h2. rewrite ref_device_update. exact Dout. }
  specialize (Hp ltac:(cbn [store wd2 with_store]; rewrite Dxsl, Dout2;
                       reflexivity)
                 ltac:(unfold broadcast_shapes; cbn [rev app bshape_rev];
                       rewrite !bdim_same; reflexivity)).
  cbn [store wd2 with_store] in Hp.
  set (h3 := update_view xsl _ h2) in Hp.
  set (wd3 := with_store h3 wd2) in Hp.
  destruct (Hpb h3 (ext wd3)) as (k & e' & Hk).
  assert (Hbar : call_ext update_pbar wd3 =
                 Done tt (MkWorld (h3 ++ k) (self wd3) (sd_model wd3)
                            (before_image_saved wd3) e')).
  { unfold call_ext. cbn [store wd3 with_store]. rewrite Hk. reflexivity. }
  eexists. split.
  { cbn [custom_sampling]. rewrite Hslice.
    unfold bind at 1, lift at 1. cbv beta iota.
    rewrite (bind_done _ _ wd _ _ Hrun).
    unfold bind at 1, get_self at 1. cbv beta iota.
    unfold list_get. rewrite Hself, Hcw.
    unfold bind at 1, lift at 1. cbv beta iota.
    rewrite (bind_done _ _ wd1 _ _ Hm).
    unfold bind at 1, get_self at 1. cbv beta iota.
    change (self wd2) with (self wd1). rewrite Hself, Hxb.
    unfold bind at 1, attr at 1, ret at 1. cbv beta iota.
    unfold xb. rewrite slice_bbox_whole.
    unfold bind at 1, lift at 1. cbv beta iota. fold xsl.
    rewrite (bind_done _ _ wd2 _ _ Hp).
    rewrite (bind_done _ _ wd3 _ _ Hbar). reflexivity. }
  cbn [self store wd3 wd2 with_store].
  split; [exact Hself|].
  assert (L2 : length h2 = length h1) by apply length_update_view.
  assert (L3 : length h3 = length h1)
    by (unfold h3; rewrite length_update_view; exact L2).
  split.
  { intros l Hl Hn1 Hn2. rewrite lookup_app_l by lia.
    unfold h3. rewrite update_view_other by (cbn [base xsl]; exact Hn1).
    unfold h2. rewrite update_view_other by (cbn [base out whole]; exact Hn2).
    reflexivity. }
  assert (Vout : forall n c y x, n < N -> c < Ch -> y < bh -> x < bw ->
            tread h2 out [n; c; y; x] =
              (tread h1 out [n; c; y; x] * tread h1 cw [0; 0; y; x]%nat)%R).
  { intros n c y x Hn Hc Hy Hx. unfold h2.
    rewrite tread_update_same by (cbn [base out whole]; auto).
    replace (to_base (view out) [n; c; y; x]) with [n; c; y; x]
      by (symmetry; apply to_base_view_whole; reflexivity).
    change (view out) with (map (VSlice 0) [N; Ch; bh; bw]).
    rewrite in_view_whole4 by assumption.
    rewrite of_base_whole4. rewrite bcast_index_r_4 by assumption.
    reflexivity. }
  split.
  { intros n c y x Hn Hc Hy Hx.
    rewrite tread_app_old by (cbn [base out whole]; lia).
    unfold h3. rewrite tread_update_other by (cbn [base out xsl whole]; exact Hne).
    apply Vout; assumption. }
  intros n c y x Hn Hch Hy Hx.
  rewrite tread_app_old by (cbn [base xb whole]; lia).
  unfold h3 at 1.
  rewrite tread_update_same by (cbn [base xsl xb whole]; lia).
  replace (to_base (view xb) [n; c; y; x]) with [n; c; y; x]
    by (symmetry; apply to_base_view_whole; reflexivity).
  unfold xsl at 1. cbn [view]. rewrite in_view_slice4 by assumption.
  destruct (in_bbox_bounds bb H W y x Hbb) as (_ & _ & _ & _ & Ein).
  rewrite Ein.
  assert (Exb : tread h2 xb [n; c; y; x] = tread h1 xb [n; c; y; x]).
  { unfold h2. apply tread_update_other. cbn [base xb out whole]. lia. }
  rewrite Exb.
  destruct (in_bbox bb y x) eqn:Ebb; [|reflexivity].
  f_equal.
  unfold in_bbox in Ebb. apply andb_prop in Ebb as [Eby Ebx].
  apply andb_prop in Eby as [Ey1 Ey2]. apply andb_prop in Ebx as [Ex1 Ex2].
  apply Nat.leb_le in Ey1, Ex1. apply Nat.ltb_lt in Ey2, Ex2.
  unfold xsl. cbn [view of_base]. rewrite Esy, Esx, !Nat.sub_0_r.
  set (y' := y - Z.to_nat (b1 bb)). set (x' := x - Z.to_nat (b0 bb)).
  assert (Hy' : y' < bh) by (unfold y', bh; lia).
  assert (Hx' : x' < bw) by (unfold x', bw; lia).
  change (ref_shape out) with (ref_shape (whole lo [N; Ch; bh; bw])).
  rewrite ref_shape_whole, bcast_index_4_4 by assumption.
  apply Vout; assumption.
Qed.

End CustomRegion.

(** ** The dict built by forward_func *)

Section ForwardFunc.
Context `{C : Collaborators}.

Lemma ext_mapM_quiet {A B} (g : A -> Ext B) (l : list A) :
  (forall a h e, (final (g a h e)).2 = e) ->
  forall h e, (final (ext_mapM g l h e)).2 = e.
Proof.
  intros Hg. induction l as [|a l IH]; intros h e; cbn [ext_mapM].
  - reflexivity.
  - unfold ext_bind. specialize (Hg a h e).
    destruct (g a h e) as [b [h1 e1]|x [h1 e1]]; cbn in Hg; subst e1;
      [|reflexivity].
    specialize (IH h1 e).
    destruct (ext_mapM g l h1 e) as [bs [h2 e2]|x [h2 e2]]; cbn in IH; subst e2;
      reflexivity.
Qed.

Lemma cat_quiet (rs : list tref) h (e : ExtState) :
  (final (ext_st (cat_h rs) h e)).2 = e.
Proof. unfold ext_st. destruct (cat_h rs h); reflexivity. Qed.

(** Building an entry of the dict does not involve the collaborators. *)
Lemma forward_entry_quiet uc k ck h e :
  (final (forward_entry uc k ck h e)).2 = e.
Proof.
  destruct ck as [ct|cs]; cbn [forward_entry].
  - unfold ext_bind, ext_lift.
    destruct (dict_get uc k) as [[ut|us]|x]; cbn; [|reflexivity|reflexivity].
    pose proof (cat_quiet [ut; ct] h e) as Hc.
    destruct (ext_st (cat_h [ut; ct]) h e) as [r [h1 e1]|x [h1 e1]];
      cbn in Hc; subst e1; reflexivity.
  - unfold ext_bind at 1.
    match goal with
    | |- context [ext_mapM ?g ?l h e] =>
        pose proof (ext_mapM_quiet g l) as Hm
    end.
    match type of Hm with
    | ?P -> _ => assert (HP : P)
    end.
    { intros [i ci] h0 e0. unfold ext_bind, ext_lift.
      destruct (res_bind _ _) as [u|x]; cbn; [|reflexivity].
      pose proof (cat_quiet [u; ci] h0 e0) as Hc.
      destruct (ext_st (cat_h [u; ci]) h0 e0) as [r [h1 e1]|x [h1 e1]];
        cbn in Hc; subst e1; reflexivity. }
    specialize (Hm HP h e).
    destruct (ext_mapM _ _ h e) as [l [h1 e1]|x [h1 e1]]; cbn in Hm; subst e1;
      reflexivity.
Qed.

Lemma forward_entries_quiet uc todo :
  forall acc h e, (final (forward_entries uc todo acc h e)).2 = e.
Proof.
  induction todo as [|[k ck] rest IH]; intros acc h e;
    cbn [forward_entries].
  - reflexivity.
  - unfold ext_bind. pose proof (forward_entry_quiet uc k ck h e) as He.
    destruct (forward_entry uc k ck h e) as [v [h1 e1]|x [h1 e1]];
      cbn in He; subst e1; [|reflexivity].
    apply IH.
Qed.

(** An entry whose key the unconditional dict lacks. *)
Lemma forward_entry_missing uc k ck h e :
  dict_get uc k = Raise KeyError -> ck <> CList [] ->
  forward_entry uc k ck h e = Fail KeyError (h, e).
Proof.
  intros Hk Hne. destruct ck as [ct|[|c0 cs]]; cbn [forward_entry].
  - unfold ext_bind, ext_lift. rewrite Hk. reflexivity.
  - contradiction.
  - cbn [imap ext_mapM]. unfold ext_bind, ext_lift. rewrite Hk. reflexivity.
Qed.

Lemma forward_entries_missing uc k ck todo :
  (k, ck) ∈ todo -> dict_get uc k = Raise KeyError -> ck <> CList [] ->
  forall acc h e, exists x h', forward_entries uc todo acc h e = Fail x (h', e).
Proof.
  intros Hin Hk Hne. induction todo as [|[k0 c0] rest IH]; intros acc h e.
  - inversion Hin.
  - cbn [forward_entries]. unfold ext_bind.
    pose proof (forward_entry_quiet uc k0 c0 h e) as He.
    destruct (forward_entry uc k0 c0 h e) as [v [h1 e1]|x [h1 e1]] eqn:E0;
      cbn in He; subst e1.
    + apply elem_of_cons in Hin as [Heq|Hin].
      * injection Heq as <- <-.
        rewrite (forward_entry_missing uc k ck h e Hk Hne) in E0. discriminate.
      * apply (IH Hin).
    + eauto.
Qed.

(** X18.  The closure [forward_func] of the DDIM branch builds its dict
    before anything else. If the unconditional dict lacks a key under which
    [c] has a tensor or a list that is not empty, the call raises while
    building the dict: [set_control_tensor] and the model are not reached,
    and the state of the collaborators is as it was. *)
Theorem forward_func_missing_key (sd : PyObj) (bbox_id : nat)
    (x ts : tref) (c uc : CondDict) (k : string) (ck : CondVal)
    (h : list tensor) (e : ExtState) :
  (k, ck) ∈ c -> dict_get uc k = Raise KeyError -> ck <> CList [] ->
  exists err h',
    forward_entries uc c [] h e = Fail err (h', e) /\
    forward_func sd bbox_id x c ts uc h e = Fail err (h', e).
Proof.
  intros Hin Hk Hne.
  destruct (forward_entries_missing uc k ck c Hin Hk Hne [] h e)
    as (err & h' & Hf).
  exists err, h'. split; [exact Hf|].
  unfold forward_func, ext_bind. rewrite Hf. reflexivity.
Qed.

End ForwardFunc.

Section ForwardRows.
Context `{C : Collaborators}.

Lemma rows_of_app (h k : list tensor) (u c r : tref) :
  rows_of h u c r -> rows_of (h ++ k) u c r.
Proof.
  intros (Hu & Hc & Hr & nu & nc & rest & Su & Sc & Sr & Hv).
  unfold rows_of. rewrite length_app. split; [lia|]. split; [lia|]. split; [lia|].
  exists nu, nc, rest. split; [exact Su|]. split; [exact Sc|].
  split; [exact Sr|]. intros i idx Hi Hidx.
  rewrite !tread_app_old by assumption. apply Hv; assumption.
Qed.

(** [torch.cat([u, c])] when it returns. *)
Lemma cat_pair_done (h h' : list tensor) (u c r : tref) :
  cat_h [u; c] h = Done r h' ->
  base u < length h -> base c < length h ->
  (exists t, h' = h ++ [t]) /\ rows_of h' u c r.
Proof.
  unfold cat_h. intros Hcat Hu Hc.
  destruct (ref_shape u) as [|nu rest] eqn:Su; [discriminate|].
  destruct (forallb _ _) eqn:Hall; [|discriminate].
  cbn [forallb] in Hall. rewrite Su in Hall.
  destruct (ref_shape c) as [|nc rest'] eqn:Sc;
    [rewrite andb_false_r in Hall; discriminate|].
  apply andb_prop in Hall as [_ Hall]. apply andb_prop in Hall as [Hall _].
  apply andb_prop in Hall as [Hrest _].
  apply bool_decide_eq_true in Hrest. subst rest'.
  unfold alloc_h in Hcat. injection Hcat as <- <-.
  split; [eexists; reflexivity|].
  unfold rows_of. rewrite length_app. cbn [length base whole t_shape].
  split; [lia|]. split; [lia|]. split; [lia|].
  exists nu, nc, rest. split; [exact Su|]. split; [exact Sc|].
  rewrite !Su, !Sc. cbn [hd].
  split; [rewrite ref_shape_whole; f_equal; lia|].
  intros i idx Hi Hidx.
  rewrite tread_alloc_new by (cbn [t_shape length]; lia).
  cbn [t_data].
  rewrite !tread_app_old by assumption.
  destruct (i <? nu) eqn:Ei; [reflexivity|].
  apply Nat.ltb_ge in Ei.
  rewrite (proj2 (Nat.ltb_lt (i - nu) nc)) by lia. reflexivity.
Qed.

Lemma cond_index_valid (h : list tensor) (v : CondVal) (j : nat) (t : tref) :
  cond_valid h v -> cond_index v j = Ok t -> base t < length h.
Proof.
  destruct v as [t0|ts]; cbn [cond_valid cond_index].
  - intros Hv. unfold select.
    destruct (select_view j (view t0)); [|discriminate]. cbn.
    intros E. injection E as <-. exact Hv.
  - intros Hv. unfold list_get. destruct (ts !! j) as [t'|] eqn:E;
      [|discriminate].
    intros E'. injection E' as <-. exact (Forall_lookup_1 _ _ _ _ Hv E).
Qed.

Lemma dict_get_valid (h : list tensor) (d : CondDict) (k : string) (v : CondVal) :
  Forall (fun kv => cond_valid h kv.2) d -> dict_get d k = Ok v ->
  cond_valid h v.
Proof.
  induction d as [|[k' v'] d IH]; cbn [dict_get]; [discriminate|].
  intros Hall. inversion Hall as [|? ? Hv Hrest]; subst.
  destruct (String.eqb k k'); [|exact (IH Hrest)].
  intros E. injection E as <-. exact Hv.
Qed.

Lemma cond_valid_app (h k : list tensor) (v : CondVal) :
  cond_valid h v -> cond_valid (h ++ k) v.
Proof.
  destruct v as [t|ts]; cbn [cond_valid]; rewrite length_app.
  - lia.
  - intros Hv. eapply Forall_impl; [exact Hv|]. intros t Ht. cbn in Ht. lia.
Qed.

(** A run of [ext_mapM] that returns, for steps that only allocate and do
    not involve the collaborators. *)
Lemma ext_mapM_done {A B} (g : A -> Ext B) (l : list A) :
  (forall a h e, (final (g a h e)).2 = e) ->
  (forall a, only_allocates (g a)) ->
  forall h e bs h' e',
    ext_mapM g l h e = Done bs (h', e') ->
    e' = e /\ (exists k, h' = h ++ k) /\ length bs = length l /\
    forall j a, l !! j = Some a ->
      exists b k1 k2 k3,
        bs !! j = Some b /\
        g a (h ++ k1) e = Done b ((h ++ k1) ++ k2, e) /\
        h' = ((h ++ k1) ++ k2) ++ k3.
Proof.
  intros Hq Ha. induction l as [|a l IH]; intros h e bs h' e' Hm;
    cbn [ext_mapM] in Hm.
  - injection Hm as <- <- <-. split; [reflexivity|].
    split; [exists []; symmetry; apply app_nil_r|]. split; [reflexivity|].
    intros j a Hj. discriminate.
  - unfold ext_bind at 1 in Hm.
    pose proof (Hq a h e) as Q1. destruct (Ha a h e) as [ka A1].
    destruct (g a h e) as [b [h1 e1]|x [h1 e1]] eqn:Eg; [|discriminate].
    cbn in Q1, A1. subst e1 h1.
    unfold ext_bind at 1 in Hm.
    destruct (ext_mapM g l (h ++ ka) e) as [bs' [h2 e2]|x [h2 e2]] eqn:El;
      [|discriminate].
    injection Hm as <- <- <-.
    destruct (IH _ _ _ _ _ El) as (-> & (kb & ->) & Hlen & Hj).
    split; [reflexivity|]. split; [exists (ka ++ kb); symmetry; apply app_assoc|].
    split; [cbn; lia|].
    intros j a' Hl. destruct j as [|j].
    + cbn in Hl. injection Hl as <-.
      exists b, [], ka, kb. split; [reflexivity|]. rewrite !app_nil_r.
      split; [exact Eg|reflexivity].
    + cbn in Hl. destruct (Hj j a' Hl) as (b' & k1 & k2 & k3 & Hb & Hg & Hh).
      exists b', (ka ++ k1), k2, k3. split; [exact Hb|].
      rewrite !app_assoc. split; [exact Hg|exact Hh].
Qed.


(** One entry of the dict, when it is built. *)
Lemma forward_entry_done uc k cv h e rv h' e' :
  forward_entry uc k cv h e = Done rv (h', e') ->
  Forall (fun kv => cond_valid h kv.2) uc -> cond_valid h cv ->
  e' = e /\ (exists k', h' = h ++ k') /\ entry_rows h' uc k cv rv.
Proof.
  intros Hf Huc Hcv.
  pose proof (forward_entry_quiet uc k cv h e) as Hq.
  rewrite Hf in Hq. cbn in Hq.
  destruct (forward_entry_allocates uc k cv h e) as [k' Hk'].
  rewrite Hf in Hk'. cbn in Hk'.
  split; [exact Hq|]. split; [exists k'; exact Hk'|].
  destruct cv as [ct|cs]; cbn [forward_entry entry_rows cond_valid] in *.
  - unfold ext_bind at 1, ext_lift at 1 in Hf.
    destruct (dict_get uc k) as [[ut|us]|x] eqn:Ek; [| |discriminate].
    2:{ discriminate. }
    unfold ext_bind, ext_st, ext_ret in Hf.
    destruct (cat_h [ut; ct] h) as [r h1|x h1] eqn:Ec; [|discriminate].
    injection Hf as <- <- <-.
    pose proof (dict_get_valid h uc k _ Huc Ek) as Hut. cbn in Hut.
    destruct (cat_pair_done h h1 ut ct r Ec Hut Hcv) as (_ & Hrows).
    exists ut, r. auto.
  - unfold ext_bind at 1 in Hf.
    match type of Hf with
    | context [ext_mapM ?g ?l h e] =>
        pose proof (ext_mapM_done g l) as Hm;
        destruct (ext_mapM g l h e) as [rs [h1 e1]|x [h1 e1]] eqn:El;
          [|discriminate]
    end.
    unfold ext_ret in Hf. injection Hf as <- <- <-.
    match type of Hm with
    | ?P -> ?Q -> _ => assert (HP : P); [|assert (HQ : Q)]
    end.
    { intros [i ci] h0 e0. unfold ext_bind, ext_lift.
      destruct (res_bind _ _) as [u|x]; cbn; [|reflexivity].
      pose proof (cat_quiet [u; ci] h0 e0) as Hc.
      destruct (ext_st (cat_h [u; ci]) h0 e0) as [r [h2 e2]|x [h2 e2]];
        cbn in Hc; subst e2; reflexivity. }
    { intros [i ci].
      apply only_allocates_bind; [apply only_allocates_lift|]. intros u.
      apply only_allocates_cat. }
    destruct (Hm HP HQ _ _ _ _ _ El) as (_ & _ & Hlen & Hj).
    exists rs. split; [reflexivity|].
    split; [rewrite Hlen, length_imap; reflexivity|].
    intros j cj Hcj.
    destruct (Hj j (j, cj)) as (rj & k1 & k2 & k3 & Hrj & Hg & Hh).
    { rewrite list_lookup_imap, Hcj. reflexivity. }
    unfold ext_bind at 1, ext_lift at 1 in Hg.
    destruct (dict_get uc k) as [uk|x] eqn:Ek; [|discriminate].
    cbn [res_bind] in Hg.
    destruct (cond_index uk j) as [uj|x] eqn:Ei; [|discriminate].
    unfold ext_st in Hg.
    destruct (cat_h [uj; cj] (h ++ k1)) as [r h2|x h2] eqn:Ec; [|discriminate].
    injection Hg as -> ->.
    pose proof (dict_get_valid h uc k _ Huc Ek) as Huk.
    pose proof (cond_index_valid h uk j uj Huk Ei) as Huj.
    pose proof (Forall_lookup_1 _ _ _ _ Hcv Hcj) as Hcj'. cbn in Hcj'.
    destruct (cat_pair_done (h ++ k1) _ uj cj rj Ec
                ltac:(rewrite length_app; lia) ltac:(rewrite length_app; lia))
      as (_ & Hrows).
    exists uk, uj, rj. split; [reflexivity|]. split; [exact Ei|].
    split; [exact Hrj|]. rewrite Hh. apply rows_of_app. exact Hrows.
Qed.

Lemma entry_rows_app (h k' : list tensor) uc k cv rv :
  entry_rows h uc k cv rv -> entry_rows (h ++ k') uc k cv rv.
Proof.
  destruct cv as [ct|cs]; cbn [entry_rows].
  - intros (ut & r & E1 & E2 & Hr). exists ut, r.
    split; [exact E1|]. split; [exact E2|]. apply rows_of_app. exact Hr.
  - intros (rs & E1 & E2 & Hj). exists rs. split; [exact E1|].
    split; [exact E2|]. intros j cj Hcj.
    destruct (Hj j cj Hcj) as (uk & uj & rj & A & B & Cc & Dd).
    exists uk, uj, rj. split; [exact A|]. split; [exact B|].
    split; [exact Cc|]. apply rows_of_app. exact Dd.
Qed.

(** Setting a key that the dict does not have appends it. *)
Lemma dict_set_new (d : CondDict) (k : string) (v : CondVal) :
  k ∉ map fst d -> dict_set d k v = d ++ [(k, v)].
Proof.
  induction d as [|[k' v'] d IH]; cbn [dict_set map fst app]; [reflexivity|].
  intros Hn. apply not_elem_of_cons in Hn as [Hne Hn].
  destruct (String.eqb_spec k k') as [E|E]; [contradiction|].
  rewrite (IH Hn). reflexivity.
Qed.

(** The loop [for k in c]: the entries are appended to the dict under
    construction, in the order of [c]. *)
Lemma forward_entries_done uc (todo : CondDict) :
  forall acc h e c_in h' e',
    forward_entries uc todo acc h e = Done c_in (h', e') ->
    NoDup (map fst todo) ->
    (forall k, k ∈ map fst todo -> k ∉ map fst acc) ->
    Forall (fun kv => cond_valid h kv.2) uc ->
    Forall (fun kv => cond_valid h kv.2) todo ->
    e' = e /\ (exists k', h' = h ++ k') /\
    exists vs,
      c_in = acc ++ vs /\ map fst vs = map fst todo /\
      Forall2 (fun kc kr => entry_rows h' uc kc.1 kc.2 kr.2) todo vs.
Proof.
  induction todo as [|[k cv] rest IH];
    intros acc h e c_in h' e' Hf Hnd Hfresh Huc Htodo;
    cbn [forward_entries] in Hf.
  - injection Hf as <- <- <-. split; [reflexivity|].
    split; [exists []; symmetry; apply app_nil_r|].
    exists []. split; [symmetry; apply app_nil_r|]. split; [reflexivity|].
    constructor.
  - unfold ext_bind at 1 in Hf.
    destruct (forward_entry uc k cv h e) as [rv [h1 e1]|x [h1 e1]] eqn:E1;
      [|discriminate].
    inversion Htodo as [|? ? Hcv Hrest]; subst. cbn [snd] in Hcv.
    destruct (forward_entry_done uc k cv h e rv h1 e1 E1 Huc Hcv)
      as (-> & (k1 & ->) & Hrows).
    cbn [map fst] in Hnd. apply NoDup_cons in Hnd as [Hk Hnd'].
    rewrite dict_set_new in Hf
      by (apply Hfresh; cbn [map fst]; apply elem_of_cons; left; reflexivity).
    destruct (IH _ _ _ _ _ _ Hf Hnd') as (-> & (k2 & ->) & vs & -> & Ekeys & Hall).
    + intros k' Hk'. rewrite map_app. cbn [map fst].
      intros Hin. apply elem_of_app in Hin as [Hin|Hin].
      * eapply Hfresh; [|exact Hin]. cbn [map fst]. apply elem_of_cons.
        right. exact Hk'.
      * apply list_elem_of_singleton in Hin. subst k'. contradiction.
    + eapply Forall_impl; [exact Huc|]. intros kv Hv.
      apply cond_valid_app. exact Hv.
    + eapply Forall_impl; [exact Hrest|]. intros kv Hv.
      apply cond_valid_app. exact Hv.
    + split; [reflexivity|].
      split; [exists (k1 ++ k2); symmetry; apply app_assoc|].
      exists ((k, rv) :: vs). split; [rewrite <- app_assoc; reflexivity|].
      split; [cbn [map fst]; rewrite Ekeys; reflexivity|].
      constructor; [|exact Hall].
      cbn [fst snd]. apply entry_rows_app. exact Hrows.
Qed.

(** X19.  The dict [c_in] that [forward_func] builds and hands to the model
    has the keys of [c], in the order of [c], and under each key the
    concatenation of the unconditional conditioning followed by the
    conditioning: a tensor for a tensor, and for a list a list of the same
    length, index by index. Building it only adds tensors to the store and
    does not involve the collaborators. *)
Theorem forward_func_dict (uc c c_in : CondDict) (h h' : list tensor)
    (e e' : ExtState) :
  forward_entries uc c [] h e = Done c_in (h', e') ->
  NoDup (map fst c) ->
  Forall (fun kv => cond_valid h kv.2) uc ->
  Forall (fun kv => cond_valid h kv.2) c ->
  e' = e /\ (exists k', h' = h ++ k') /\
  map fst c_in = map fst c /\
  Forall2 (fun kc kr => entry_rows h' uc kc.1 kc.2 kr.2) c c_in /\
  forall sd bbox_id x ts,
    forward_func sd bbox_id x c ts uc h e =
      (let+ n := ext_lift (list_get (ref_shape x) 0) in
       let+ _ := set_control_tensor bbox_id n in
       let+ org := ext_lift (getattr sd "md_org_apply_model") in
       invoke org x ts c_in) h' e.
Proof.
  intros Hf Hnd Huc Hc.
  destruct (forward_entries_done uc c [] h e c_in h' e' Hf Hnd)
    as (-> & Hk & vs & -> & Ekeys & Hall); try assumption.
  { intros k _ Hin. inversion Hin. }
  split; [reflexivity|]. split; [exact Hk|]. cbn [app].
  split; [exact Ekeys|]. split; [exact Hall|].
  intros sd bbox_id x ts. unfold forward_func.
  unfold ext_bind at 1. rewrite Hf. reflexivity.
Qed.

End ForwardRows.

(** ** The batch of tiles handed to the model *)

Section TileBatch.
Context `{C : Collaborators}.

(** Slicing one dimension of any view. *)
Lemma slice_view_spec (a b : Z) (v : list vdim) :
  forall k pre d post,
    view_shape v = pre ++ d :: post -> length pre = k ->
    exists v',
      slice_view k a b v = Ok v' /\
      view_shape v' = pre ++ (slice_bounds d a b).2 :: post /\
      forall ipre i ipost, length ipre = k ->
        to_base v' (ipre ++ i :: ipost) =
          to_base v (ipre ++ ((slice_bounds d a b).1 + i) :: ipost).
Proof.
  induction v as [|[off len|len|j] v IH]; intros k pre d post Hs Hk;
    cbn [view_shape] in Hs.
  - destruct pre; discriminate.
  - destruct pre as [|p0 pre]; cbn [length] in Hk; subst k.
    + cbn [app] in Hs. injection Hs as <- <-. cbn [slice_view].
      destruct (slice_bounds len a b) as [s n] eqn:E. eexists.
      split; [reflexivity|]. cbn [view_shape app fst snd].
      split; [reflexivity|]. intros ipre i ipost Hl.
      destruct ipre; [|discriminate]. cbn [app to_base]. f_equal. lia.
    + cbn [app] in Hs. injection Hs as <- Hs.
      destruct (IH (length pre) pre d post Hs eq_refl) as (v' & Hv & Hshp & Hb).
      cbn [slice_view]. rewrite Hv. cbn [res_bind]. eexists.
      split; [reflexivity|]. cbn [view_shape app]. rewrite Hshp.
      split; [reflexivity|]. intros ipre i ipost Hl.
      destruct ipre as [|i0 ipre]; [discriminate|]. cbn [app to_base].
      rewrite Hb by (cbn in Hl; lia). reflexivity.
  - destruct pre as [|p0 pre]; cbn [length] in Hk; subst k.
    + cbn [app] in Hs. injection Hs as <- <-. cbn [slice_view].
      destruct (slice_bounds len a b) as [s n] eqn:E. eexists.
      split; [reflexivity|]. cbn [view_shape app fst snd].
      split; [reflexivity|]. intros ipre i ipost Hl.
      destruct ipre; [|discriminate]. reflexivity.
    + cbn [app] in Hs. injection Hs as <- Hs.
      destruct (IH (length pre) pre d post Hs eq_refl) as (v' & Hv & Hshp & Hb).
      cbn [slice_view]. rewrite Hv. cbn [res_bind]. eexists.
      split; [reflexivity|]. cbn [view_shape app]. rewrite Hshp.
      split; [reflexivity|]. intros ipre i ipost Hl.
      destruct ipre as [|i0 ipre]; [discriminate|]. cbn [app to_base].
      rewrite Hb by (cbn in Hl; lia). reflexivity.
  - destruct (IH k pre d post Hs Hk) as (v' & Hv & Hshp & Hb).
    cbn [slice_view]. rewrite Hv. cbn [res_bind]. eexists.
    split; [reflexivity|]. cbn [view_shape]. split; [exact Hshp|].
    intros ipre i ipost Hl. cbn [to_base]. rewrite Hb by exact Hl.
    reflexivity.
Qed.

(** The tile of a four-dimensional tensor under a bounding box inside its
    last two dimensions: a view of the same storage. *)
Lemma slice_bbox_canvas (x_in : tref) (bb : bbox) (N Ch H W : nat) :
  ref_shape x_in = [N; Ch; H; W] -> bbox_in bb H W ->
  exists r,
    slice_bbox x_in bb = Ok r /\
    ref_shape r = [N; Ch; Z.to_nat (b3 bb - b1 bb); Z.to_nat (b2 bb - b0 bb)] /\
    forall n c y x,
      to_base (view r) [n; c; y; x] =
        to_base (view x_in)
          [n; c; Z.to_nat (b1 bb) + y; Z.to_nat (b0 bb) + x].
Proof.
  intros Hshp Hbb.
  destruct (in_bbox_bounds bb H W 0 0 Hbb) as (Esy & Eny & Esx & Enx & _).
  unfold slice_bbox.
  destruct (slice_view_spec (b1 bb) (b3 bb) (view x_in) 2 [N; Ch] H [W]
              Hshp eq_refl) as (v1 & Hv1 & S1 & B1).
  rewrite Hv1. cbn [res_bind].
  destruct (slice_view_spec (b0 bb) (b2 bb) v1 3
              [N; Ch; (slice_bounds H (b1 bb) (b3 bb)).2] W []
              S1 eq_refl) as (v2 & Hv2 & S2 & B2).
  rewrite Hv2. cbn [res_bind]. eexists. split; [reflexivity|].
  unfold ref_shape. cbn [view]. rewrite S2, Eny, Enx.
  split; [reflexivity|]. intros n c y x.
  pose proof (B2 [n; c; y] x [] eq_refl) as E2. cbn [app] in E2.
  pose proof (B1 [n; c] y [(slice_bounds W (b0 bb) (b2 bb)).1 + x] eq_refl)
    as E1.
  cbn [app] in E1. rewrite E2, E1, Esy, Esx. reflexivity.
Qed.

(** The tiles of the canvas collected by the loop over a batch. *)
Lemma gather_tiles_x (s : Self) (x_in t_in : tref) (cond : PyCond)
    (bboxes : list bbox) :
  forall l l',
    gather_tiles s x_in t_in cond bboxes l = Ok l' ->
    exists xs,
      x_tile_list l' = x_tile_list l ++ xs /\
      Forall2 (fun bb x_tile => slice_bbox x_in bb = Ok x_tile) bboxes xs.
Proof.
  induction bboxes as [|bb rest IH]; intros l l' Hg; cbn [gather_tiles] in Hg.
  - injection Hg as <-. exists []. split; [symmetry; apply app_nil_r|].
    constructor.
  - destruct (gather_tile s x_in t_in cond bb l) as [l1|] eqn:E1;
      [|discriminate].
    cbn [res_bind] in Hg. destruct (IH _ _ Hg) as (xs & Exs & Hall).
    unfold gather_tile in E1.
    destruct (slice_bbox x_in bb) as [x_tile|] eqn:Es; [|discriminate].
    cbn [res_bind] in E1.
    assert (Hx : x_tile_list l1 = x_tile_list l ++ [x_tile]).
    { destruct cond as [|d|t]; try (injection E1 as <-; reflexivity).
      destruct (cond_first d "c_concat"); [|discriminate]. cbn [res_bind] in E1.
      destruct (list_get _ 2); [|discriminate]. cbn [res_bind] in E1.
      match type of E1 with
      | res_bind ?m _ = _ => destruct m; [|discriminate]
      end.
      cbn [res_bind] in E1.
      destruct (cond_first d "c_crossattn"); [|discriminate].
      cbn [res_bind] in E1. injection E1 as <-. reflexivity. }
    exists (x_tile :: xs). split.
    + rewrite Exs, Hx, <- app_assoc. reflexivity.
    + constructor; assumption.
Qed.

(** Rows of a concatenation of tensors that all have [n] rows. *)
Lemma cat_data_block (h : list tensor) (rs : list tref) (n : nat) :
  Forall (fun r => hd 0 (ref_shape r) = n) rs ->
  forall i r k idx, rs !! i = Some r -> k < n ->
    cat_data h rs (i * n + k) idx = tread h r (k :: idx).
Proof.
  induction rs as [|r0 rs IH]; intros Hall i r k idx Hi Hk.
  - discriminate.
  - pose proof (Forall_inv Hall) as H0. cbn beta in H0.
    pose proof (Forall_inv_tail Hall) as Hrest.
    cbn [cat_data]. rewrite H0.
    destruct i as [|i].
    + cbn in Hi. injection Hi as <-. cbn [Nat.mul Nat.add].
      rewrite (proj2 (Nat.ltb_lt _ _)) by lia. reflexivity.
    + cbn in Hi.
      rewrite (proj2 (Nat.ltb_ge _ _)) by (cbn; lia).
      replace (S i * n + k - n) with (i * n + k) by (cbn; lia).
      apply (IH Hrest i r k idx Hi Hk).
Qed.

Lemma sum_list_const (l : list nat) (n : nat) :
  Forall (fun a => a = n) l -> sum_list l = length l * n.
Proof.
  induction l as [|a l IH]; intros Hall; [reflexivity|].
  pose proof (Forall_inv Hall) as H0. cbn beta in H0.
  pose proof (Forall_inv_tail Hall) as Hrest.
  cbn [sum_list length]. rewrite (IH Hrest), H0. cbn. lia.
Qed.

(** X20.  The layout of the batch. For tiles of one size inside the canvas,
    the tensor [x_tile] that a batch hands to the model is a new tensor of
    [len(bboxes) * N] rows, and rows [i*N .. (i+1)*N) of it hold the canvas
    under tile [i]: the rows that the fusion loop later reads back for that
    tile from the model's output. *)
Theorem tile_batch_layout (s : Self) (x_in t_in : tref) (cond : PyCond)
    (bboxes : list bbox) (l : TileLists) (wd : World)
    (N Ch H W th tw : nat) :
  ref_shape x_in = [N; Ch; H; W] ->
  base x_in < length (store wd) ->
  bboxes <> [] ->
  Forall (fun bb => bbox_in bb H W /\
                    Z.to_nat (b3 bb - b1 bb) = th /\
                    Z.to_nat (b2 bb - b0 bb) = tw) bboxes ->
  gather_tiles s x_in t_in cond bboxes (MkTileLists [] [] [] []) = Ok l ->
  exists x_tile wd1,
    cat (x_tile_list l) wd = Done x_tile wd1 /\
    base x_tile = length (store wd) /\
    ref_shape x_tile = [length bboxes * N; Ch; th; tw] /\
    forall i bb n c y x,
      bboxes !! i = Some bb -> n < N -> c < Ch -> y < th -> x < tw ->
      tread (store wd1) x_tile [i * N + n; c; y; x] =
        tread (store wd) x_in
          [n; c; Z.to_nat (b1 bb) + y; Z.to_nat (b0 bb) + x].
Proof.
  intros Hshp Hx Hne Hall Hg.
  destruct (gather_tiles_x s x_in t_in cond bboxes _ _ Hg) as (xs & Exs & Hxs).
  cbn [x_tile_list app] in Exs. rewrite Exs.
  (* every tile is a view of the canvas, of the common shape *)
  assert (Htiles : forall i bb, bboxes !! i = Some bb ->
            exists x_tile,
              xs !! i = Some x_tile /\ base x_tile = base x_in /\
              ref_shape x_tile = [N; Ch; th; tw] /\
              forall n c y x,
                to_base (view x_tile) [n; c; y; x] =
                  to_base (view x_in)
                    [n; c; Z.to_nat (b1 bb) + y; Z.to_nat (b0 bb) + x]).
  { intros i bb Hi.
    destruct (Forall2_lookup_l _ _ _ _ _ Hxs Hi) as (x_tile & Hxi & Hsl).
    exists x_tile. split; [exact Hxi|].
    split; [exact (slice_view_ok_base _ _ _ Hsl)|].
    pose proof (Forall_lookup_1 _ _ _ _ Hall Hi) as (Hbb & Hth & Htw).
    cbn in Hbb, Hth, Htw.
    destruct (slice_bbox_canvas x_in bb N Ch H W Hshp Hbb) as (r & Hr & Sr & Br).
    rewrite Hr in Hsl. injection Hsl as <-.
    rewrite Sr, Hth, Htw. split; [reflexivity|]. exact Br. }
  assert (Hlen : length xs = length bboxes)
    by (symmetry; exact (Forall2_length _ _ _ Hxs)).
  assert (Hshapes : Forall (fun r => ref_shape r = [N; Ch; th; tw] /\
                                     base r = base x_in) xs).
  { apply Forall_lookup_2. intros i r Hi.
    destruct (lookup_lt_is_Some_2 bboxes i) as [bb Hbb].
    { rewrite <- Hlen. eapply lookup_lt_Some. exact Hi. }
    destruct (Htiles i bb Hbb) as (r' & Hr' & Br & Sr & _).
    rewrite Hi in Hr'. injection Hr' as <-. auto. }
  destruct xs as [|r0 xs']; [destruct bboxes; [contradiction|discriminate]|].
  pose proof (Forall_inv Hshapes) as (S0 & B0).
  unfold cat, st, cat_h. rewrite S0.
  assert (Hcheck : forallb
            (fun r => match ref_shape r with
                      | [] => false
                      | _ :: rest' => bool_decide (rest' = [Ch; th; tw])
                      end && (ref_device (store wd) r =? ref_device (store wd) r0))
            (r0 :: xs') = true).
  { apply forallb_forall. intros r Hin.
    apply (proj1 (Forall_forall _ _)) with (x := r) in Hshapes;
      [|apply list_elem_of_In; exact Hin].
    destruct Hshapes as (Sr & Br). rewrite Sr.
    rewrite bool_decide_eq_true_2 by reflexivity. cbn [andb].
    apply Nat.eqb_eq. unfold ref_device. rewrite Br, B0. reflexivity. }
  rewrite Hcheck. unfold alloc_h.
  assert (Hsum : sum_list (map (fun r => hd 0 (ref_shape r)) (r0 :: xs'))
                 = length bboxes * N).
  { rewrite <- Hlen, <- (length_map (fun r => hd 0 (ref_shape r))).
    apply sum_list_const. apply Forall_map.
    eapply Forall_impl; [exact Hshapes|]. intros r (Sr & _). cbn.
    rewrite Sr. reflexivity. }
  rewrite Hsum.
  eexists _, _. split; [reflexivity|].
  cbn [store with_store base whole t_shape].
  split; [reflexivity|]. split; [apply ref_shape_whole|].
  intros i bb n c y x Hi Hn Hc Hy Hx'.
  rewrite tread_alloc_new by reflexivity. cbn [t_data].
  destruct (Htiles i bb Hi) as (x_tile & Hxi & Bx & Sx & Tx).
  rewrite (cat_data_block (store wd) (r0 :: xs') N) with (r := x_tile);
    [| |exact Hxi|exact Hn].
  - unfold tread. rewrite Bx, Tx. reflexivity.
  - eapply Forall_impl; [exact Hshapes|]. intros r (Sr & _). cbn.
    rewrite Sr. reflexivity.
Qed.

End TileBatch.

(** ** Conversion of the cached weights *)

Section Conversion.
Context `{C : Collaborators}.

Lemma ref_dtype_update (r r' : tref) g (h : list tensor) :
  ref_dtype (update_view r g h) r' = ref_dtype h r'.
Proof.
  unfold ref_dtype. destruct (decide (base r' = base r)) as [E|E].
  - rewrite E. destruct (h !! base r) as [t|] eqn:Ht.
    + rewrite (update_view_same r g h t Ht). reflexivity.
    + unfold update_view. rewrite Ht. rewrite Ht. reflexivity.
  - rewrite update_view_other by assumption. reflexivity.
Qed.

(** X21.  One round of the loop of [init], as far as aliasing goes. A cached
    weight that already has the device and dtype of the input is rescaled in
    place: the list keeps the same tensor, the one [init_custom_bbox] made,
    and no tensor is added. Otherwise [.to] makes a converted copy, the copy
    is rescaled and takes the place of the original in the list, and the
    original tensor keeps its contents. *)
Theorem init_rescale_in_place_or_copy (wd : World) (x_in : tref) (i : nat)
    (region : Region) (cw : tref) (H W lr : nat) :
  custom_weights (self wd) !! i = Some cw ->
  weight_for cw region -> base cw < length (store wd) ->
  rescale_factor (self wd) = Some (whole lr [1; 1; H; W]) ->
  lr < length (store wd) ->
  bbox_in region.1.1.1 H W ->
  ref_device (store wd) (whole lr [1; 1; H; W]) = ref_device (store wd) x_in ->
  exists wd' cw',
    init_rescale_body x_in i region wd = Done tt wd' /\
    custom_weights (self wd') = <[i := cw']> (custom_weights (self wd)) /\
    if (ref_device (store wd) cw =? ref_device (store wd) x_in)
       && dtype_eqb (ref_dtype (store wd) cw) (ref_dtype (store wd) x_in)
    then cw' = cw /\ length (store wd') = length (store wd)
    else
      base cw' = length (store wd) /\
      length (store wd') = S (length (store wd)) /\
      store wd' !! base cw = store wd !! base cw /\
      ref_device (store wd') cw' = ref_device (store wd) x_in /\
      ref_dtype (store wd') cw' = ref_dtype (store wd) x_in.
Proof.
  intros Hcw Hwf Hl Hrf Hlr Hbb Hdev.
  destruct (init_rescale_body_run wd x_in i region cw H W lr Hcw Hwf Hl Hrf
              Hlr Hbb Hdev) as (wd' & _ & Hrun & _).
  exists wd'.
  destruct region as [[[bb cond] uncond] m].
  pose proof Hrun as Hinv. unfold init_rescale_body in Hinv.
  unfold bind at 1, get_self at 1 in Hinv. cbv beta iota in Hinv.
  unfold list_get at 1 in Hinv. rewrite Hcw in Hinv.
  unfold bind at 1, lift at 1 in Hinv. cbv beta iota in Hinv.
  unfold bind at 1, get_store at 1 in Hinv. cbv beta iota in Hinv.
  apply bind_done_inv in Hinv as (cw1 & wd1 & Hto & Hinv).
  unfold bind at 1, modify_self at 1 in Hinv. cbv beta iota in Hinv.
  unfold bind at 1, get_self at 1 in Hinv. cbv beta iota in Hinv.
  cbn [self with_self set_custom_weights custom_weights] in Hinv.
  unfold list_get at 1 in Hinv.
  rewrite list_lookup_insert_eq in Hinv.
  2:{ destruct (allocating_done _ _ _ _ (allocating_to _ _ _) Hto) as (Es & _).
      rewrite Es. eapply lookup_lt_Some. exact Hcw. }
  unfold bind at 1, lift at 1 in Hinv. cbv beta iota in Hinv.
  cbn [self with_self set_custom_weights custom_weights rescale_factor]
    in Hinv.
  destruct (rescale_factor (self wd1)) as [rf|]; [|discriminate].
  unfold bind at 1, attr at 1, ret at 1 in Hinv. cbv beta iota in Hinv.
  destruct (slice_bbox rf bb) as [sl|]; [|discriminate].
  unfold bind at 1, lift at 1 in Hinv. cbv beta iota in Hinv.
  apply iop_done_store in Hinv.
  cbn [store self with_self with_store] in Hinv.
  exists cw1. split; [exact Hrun|].
  unfold to_, bind, get_store in Hto.
  destruct ((ref_device (store wd) cw =? ref_device (store wd) x_in)
            && dtype_eqb (ref_dtype (store wd) cw) (ref_dtype (store wd) x_in)).
  - unfold ret in Hto. injection Hto as <- <-. subst wd'.
    cbn [self store with_self with_store set_custom_weights custom_weights].
    split; [reflexivity|]. split; [reflexivity|]. apply length_update_view.
  - unfold alloc, st, alloc_h in Hto. injection Hto as <- <-. subst wd'.
    cbn [self store with_self with_store set_custom_weights custom_weights
         base whole].
    split; [reflexivity|]. split; [reflexivity|].
    split; [rewrite length_update_view, length_app; simpl; lia|].
    split.
    { rewrite update_view_other by (cbn [base whole]; lia).
      apply lookup_app_l. exact Hl. }
    rewrite ref_device_update, ref_dtype_update.
    rewrite ref_device_new, ref_dtype_new. auto.
Qed.

End Conversion.

(** * Runs on concrete inputs *)

Section Runs.
Import Example.

Lemma gaussian_weights_formula_witness :
  exists r wd',
    _gaussian_weights (Some 3%Z) (Some 2%Z) world0 = Done r wd' /\
    ref_shape r = [2; 3] /\
    forall y x, y < 2 -> x < 3 ->
      tread (store wd') r [y; x] =
        (g_spec 3 (INR y) (IZR 2 / 2) * g_spec 3 (INR x) (IZR (3 - 1) / 2))%R.
Proof. apply (gaussian_weights_formula world0 3 2); lia. Defined.

(** With [w = 1] and [h = 2] the entry at row 1, column 0 sits on both
    midpoints and is [1/(2*pi*0.01)], which is more than 1. *)
Lemma gaussian_weights_entry_exceeds_one :
  exists r wd',
    _gaussian_weights (Some 1%Z) (Some 2%Z) world0 = Done r wd' /\
    (1 < tread (store wd') r [1%nat; 0%nat])%R.
Proof.
  destruct (gaussian_weights_entries world0 1 2)
    as (r & wd' & Hrun & _ & _ & _ & Hval); [lia|].
  exists r, wd'. split; [exact Hrun|].
  rewrite (Hval 1 0) by (simpl; lia).
  change (Z.of_nat 1) with 1%Z. change (Z.of_nat 0) with 0%Z.
  change (1 - 1)%Z with 0%Z.
  rewrite !f_value_at_midpoint by lra.
  rewrite inv_sqrt_var_square.
  pose proof PI_RGT_0. pose proof PI_4.
  rewrite <- Rinv_1 at 1. apply Rinv_lt_contravar; unfold var_default; lra.
Qed.

Lemma gaussian_weights_bounds_witness :
  exists r wd',
    _gaussian_weights (Some 3%Z) (Some 2%Z) world0 = Done r wd' /\
    ref_shape r = [2; 3] /\
    (forall y x, y < 2 -> x < 3 ->
       (0 <= tread (store wd') r [y; x] <= / (2 * PI * (1 / 100)))%R) /\
    (forall y x y' x',
       y < 2 -> x < 3 -> y' < 2 -> x' < 3 ->
       (Rabs (INR y - IZR 2 / 2) <= Rabs (INR y' - IZR 2 / 2))%R ->
       (Rabs (INR x - IZR (3 - 1) / 2) <= Rabs (INR x' - IZR (3 - 1) / 2))%R ->
       (tread (store wd') r [y'; x'] <= tread (store wd') r [y; x])%R).
Proof. apply (gaussian_weights_bounds world0 3 2); lia. Defined.

(** Width 2 and height 0: the call returns an empty tensor. *)
Lemma gaussian_weights_accepts_zero_height :
  exists r wd',
    _gaussian_weights (Some 2%Z) (Some 0%Z) world0 = Done r wd' /\
    ref_shape r = [0; 2].
Proof.
  destruct (gaussian_weights_entries world0 2 0)
    as (r & wd' & Hrun & Hshp & _); [lia|].
  exists r, wd'. split; [exact Hrun|exact Hshp].
Qed.

Lemma gaussian_weights_nonpositive_witness :
  exists r wd',
    _gaussian_weights (Some (-1)%Z) (Some 2%Z) world0 = Done r wd' /\
    ref_shape r = [2; 0] /\ (2 = 0 \/ 0 = 0).
Proof. apply (gaussian_weights_nonpositive world0 (-1) 2). lia. Defined.

Lemma unhook_after_hook_witness :
  let wd := MkWorld [] self0 (MkObj ∅ {["apply_model" := 7]}) []
                    (MkExState 0 None 0) in
  unhook wd = Done tt wd /\
  exists wd1 wd2,
    hook wd = Done tt wd1 /\
    getattr (sd_model wd1) "apply_model" = Ok self_apply_model /\
    getattr (sd_model wd1) "md_org_apply_model" = Ok 7 /\
    unhook wd1 = Done tt wd2 /\
    getattr (sd_model wd2) "apply_model" = Ok 7 /\
    hasattr (sd_model wd2) "md_org_apply_model" = false /\
    store wd2 = store wd /\ self wd2 = self wd /\ ext wd2 = ext wd.
Proof.
  apply (unhook_after_hook
           (MkWorld [] self0 (MkObj ∅ {["apply_model" := 7]}) []
                    (MkExState 0 None 0)) 7); reflexivity.
Defined.

(** The collaborators of the example behave as functions on tensors. *)
Lemma ex_functional : functional_collaborators.
Proof.
  assert (Hinv : forall g x t c, only_allocates (ex_invoke g x t c)).
  { intros g x t c h e. eexists [_]. reflexivity. }
  assert (Hfresh : forall g x t c, fresh_result (ex_invoke g x t c)).
  { intros g x t c h e r s R. injection R as <- _. simpl. lia. }
  split.
  - exact Hinv.
  - exact Hfresh.
  - intros h e. exists []. simpl. symmetry. apply app_nil_r.
  - intros i n k d. apply only_allocates_ret.
  - intros i n. apply only_allocates_ret.
  - intros x c cd ucd i bb sg g. apply Hinv.
  - intros x c cd ucd i bb sg g. apply Hfresh.
  - intros x c cd ucd bb ts fwd Ha. apply Ha.
  - intros x c cd ucd bb ts fwd Ha Hf. apply Hf.
Qed.

Lemma kernel11_pos : (0 < kernel11)%R.
Proof. apply Rmult_lt_0_compat; apply f_value_pos. Qed.

(** A batch of the two left tiles of the canvas, fused from the output
    for the batch; and the whole batch run from the same world. *)
Lemma fuse_tiles_contribution_witness :
  let wd := batch_world kernel11 in
  let bboxes := [BBox 0 0 1 1; BBox 1 0 2 1] in
  (exists wd',
     fuse_tiles 1 output2 0 bboxes wd = Done tt wd' /\
     self wd' = self wd /\
     length (store wd') = length (store wd) + 2 * length bboxes /\
     (forall l, l < length (store wd) -> l <> 6 ->
        store wd' !! l = store wd !! l) /\
     forall n c y x, n < 1 -> c < 1 -> y < 1 -> x < 3 ->
       tread (store wd') buffer6 [n; c; y; x] =
         add_tiles (tile_term (store wd) 1 output2 kernel5 rescale7 n c y x)
           0 bboxes (tread (store wd) buffer6 [n; c; y; x])) /\
  process_batch x_in0 t_in0 cond0 1 0 bboxes wd
    = Done tt (final (process_batch x_in0 t_in0 cond0 1 0 bboxes wd)) /\
  exists x_tile t_tile c_tile org out wdm wdo wdf,
    getattr (sd_model wdm) "md_org_apply_model" = Ok org /\
    call_ext (invoke org x_tile t_tile c_tile) wdm = Done out wdo /\
    fuse_tiles 1 out 0 bboxes wdo = Done tt wdf /\
    call_ext update_pbar wdf
      = Done tt (final (process_batch x_in0 t_in0 cond0 1 0 bboxes wd)).
Proof.
  intros wd bboxes.
  destruct (fuse_tiles_contribution wd 1 1 1 3 1 1 1 1 2 6 7 5 0 output2
              bboxes) as [HA HB];
    try reflexivity; try (left; reflexivity); try (simpl; lia).
  { repeat constructor; simpl; lia. }
  split; [exact HA|].
  assert (Hrun : process_batch x_in0 t_in0 cond0 1 0 bboxes wd
                 = Done tt (final (process_batch x_in0 t_in0 cond0 1 0
                                                 bboxes wd))).
  { unfold wd, batch_world. generalize kernel11. intros k.
    vm_compute. reflexivity. }
  split; [exact Hrun|]. exact (HB _ _ _ _ _ _ Hrun).
Defined.

Lemma init_custom_bbox_weights_witness :
  let wd := setup_world kernel11 in
  let wd1 := final (super_init_custom_bbox 2%R one_region wd) in
  super_init_custom_bbox 2%R one_region wd = Done tt wd1 /\
  custom_bboxes (self wd1) = [(BBox 0 0 2 1, tt, tt, 3%R)] /\
  exists wd2,
    init_custom_bbox 2%R one_region wd = Done tt wd2 /\
    weights (self wd2) = weights (self wd1) /\
    length (custom_weights (self wd2))
      = length (custom_weights (self wd1)) + length (custom_bboxes (self wd1)) /\
    forall i j y x, i < 1 -> j < 1 -> y < 1 -> x < 3 ->
      tread (store wd2) weights4 [i; j; y; x] =
        add_regions (custom_bboxes (self wd1))
          (tread (store wd1) weights4 [i; j; y; x]) y x.
Proof.
  intros wd wd1. split; [reflexivity|]. split; [reflexivity|].
  apply (init_custom_bbox_weights wd wd1 2%R one_region 1 1 1 3 4).
  - reflexivity.
  - reflexivity.
  - simpl. lia.
  - reflexivity.
  - repeat constructor; simpl; lia.
Defined.

(** A first call on a canvas with one custom region, whose cached weight
    is the view [cached8] of cell 8, and a second call after it. *)
Lemma init_rescales_once_witness :
  let wd := final (init_custom_bbox 2%R one_region (setup_world kernel11)) in
  let wd1 := final (init x_in0 wd) in
  let cached8 := {| base := 8;
                    view := [VNew 1; VNew 1; VSlice 0 1; VSlice 0 2] |} in
  init x_in0 wd = Done tt wd1 /\
  rescale_factor (self wd) = None /\
  custom_weights (self wd) = [cached8] /\
  is_Some (rescale_factor (self wd1)) /\
  (exists rf,
     rescale_factor (self wd1) = Some rf /\
     forall idx, length idx = 4 ->
       tread (store wd1) rf idx = (1 / tread (store wd) weights4 idx)%R) /\
  (exists cw',
     custom_weights (self wd1) !! 0 = Some cw' /\
     forall x, x < 2 ->
       tread (store wd1) cw' [0; 0; 0; x] =
         (tread (store wd) cached8 [0; 0; 0; x]%nat
          * (1 / tread (store wd) weights4 [0; 0; 0; x]%nat))%R) /\
  forall x_in',
    exists wd2,
      init x_in' wd1 = Done tt wd2 /\
      rescale_factor (self wd2) = rescale_factor (self wd1) /\
      custom_weights (self wd2) = custom_weights (self wd1).
Proof.
  intros wd wd1 cached8.
  assert (Hrun : init x_in0 wd = Done tt wd1) by (vm_compute; reflexivity).
  assert (Hnone : rescale_factor (self wd) = None) by (vm_compute; reflexivity).
  assert (Hwt : weights (self wd) = Some weights4) by (vm_compute; reflexivity).
  assert (Hcw : custom_weights (self wd) = [cached8])
    by (vm_compute; reflexivity).
  assert (Hbb : custom_bboxes (self wd) = [(BBox 0 0 2 1, tt, tt, 3%R)])
    by (vm_compute; reflexivity).
  assert (Hlen : length (store wd) = 9) by (vm_compute; reflexivity).
  pose proof (init_rescales_once wd wd1 x_in0 Hrun) as (Hsome & Hrf & Hw & Hnext).
  split; [exact Hrun|]. split; [exact Hnone|]. split; [exact Hcw|].
  split; [exact Hsome|]. split; [|split].
  - destruct (Hrf weights4 Hnone Hwt) as (rf & Hrf1 & _ & Hrf2).
    + rewrite Hlen. simpl. lia.
    + rewrite Hcw, Hlen. repeat constructor.
    + exists rf. split; [exact Hrf1|]. intros idx Hidx. apply Hrf2.
      exact Hidx.
  - destruct (Hw 1 3 4 Hnone Hwt) with (k := 0) (region := (BBox 0 0 2 1, tt, tt, 3%R))
        (cw := cached8) as (cw' & Hcw' & _ & Hv).
    + rewrite Hlen. lia.
    + rewrite Hlen. simpl. lia.
    + vm_compute. reflexivity.
    + rewrite Hbb. repeat constructor; simpl; lia.
    + rewrite Hcw, Hbb. repeat constructor.
    + rewrite Hcw, Hlen. repeat constructor.
    + rewrite Hcw. apply NoDup_singleton.
    + rewrite Hbb. reflexivity.
    + rewrite Hcw. reflexivity.
    + exists cw'. split; [exact Hcw'|]. intros x Hx.
      apply (Hv 0 x); simpl; lia.
  - intros x_in'. destruct (Hnext x_in') as (wd2 & H1 & H2 & H3 & _).
    exists wd2. auto.
Defined.

(** Interruption before the second of three batches. *)
Lemma interrupted_returns_input_witness :
  let wd := canvas_world kernel11 1 (Some 1) in
  let wd0 := final (init x_in0 wd) in
  let wdk := final (global_sampling x_in0 t_in0 cond0 1 0 [[BBox 0 0 1 1]] wd0) in
  batched_bboxes (self wd0)
    = [[BBox 0 0 1 1]] ++ [BBox 1 0 2 1] :: [[BBox 2 0 3 1]] /\
  global_sampling x_in0 t_in0 cond0 1 0 [[BBox 0 0 1 1]] wd0 = Done None wdk /\
  interrupted (ext wd0) = false /\ interrupted (ext wdk) = true /\
  apply_model x_in0 t_in0 cond0 wd = Done x_in0 wdk /\
  forall idx, tread (store wdk) x_in0 idx = tread (store wd) x_in0 idx.
Proof.
  intros wd wd0 wdk.
  assert (Hinit : init x_in0 wd = Done tt wd0) by (vm_compute; reflexivity).
  assert (Hpre : global_sampling x_in0 t_in0 cond0 1 0 [[BBox 0 0 1 1]] wd0
                 = Done None wdk) by (vm_compute; reflexivity).
  assert (Hirq : interrupted (ext wdk) = true) by (vm_compute; reflexivity).
  assert (Hb : batched_bboxes (self wd0)
               = [[BBox 0 0 1 1]] ++ [BBox 1 0 2 1] :: [[BBox 2 0 3 1]])
    by (vm_compute; reflexivity).
  split; [exact Hb|]. split; [exact Hpre|].
  split; [vm_compute; reflexivity|]. split; [exact Hirq|].
  apply (interrupted_returns_input ex_functional wd wd0 wdk x_in0 t_in0 cond0
           1 1 1 3 [[BBox 0 0 1 1]] [BBox 1 0 2 1] [[BBox 2 0 3 1]]).
  - reflexivity.
  - reflexivity.
  - reflexivity.
  - simpl. lia.
  - constructor.
  - exact Hinit.
  - replace (global_multiplier (self wd0)) with 1%R by (vm_compute; reflexivity).
    lra.
  - exact Hb.
  - exact Hpre.
  - exact Hirq.
Defined.

(** A step with one custom region and collaborators that return new
    tensors: the canvas is as it was. *)
Lemma apply_model_keeps_input_witness :
  let wd := final (init_custom_bbox 2%R one_region (setup_world kernel11)) in
  length (custom_bboxes (self wd)) = 1 /\
  forall idx,
    tread (store (final (apply_model x_in0 t_in0 cond0 wd))) x_in0 idx
      = tread (store wd) x_in0 idx.
Proof.
  intros wd. split; [vm_compute; reflexivity|].
  apply (apply_model_keeps_input ex_functional wd x_in0 t_in0 cond0).
  - vm_compute. lia.
  - vm_compute. repeat constructor; discriminate.
Defined.

(** An adapter that returns the tile it was given: the cached weights are
    tensors of their own, yet [x_tile_out *= self.custom_weights[bbox_id]]
    then writes through the tile into the canvas.  The element of [x_in] in
    column 1 is 1 before the call and 2 after it. *)
Lemma adapter_result_aliases_input :
  let wd := echo_world in
  base x_in0 < length (store wd) /\
  Forall (fun r => base r <> base x_in0) (custom_weights (self wd)) /\
  exists r wd',
    apply_model (C := echo_collaborators) x_in0 t_in0 cond0 wd = Done r wd' /\
    tread (store wd) x_in0 [0; 0; 0; 1] = 1%R /\
    tread (store wd') x_in0 [0; 0; 0; 1] = (1 * 2)%R.
Proof.
  intros wd. split; [vm_compute; lia|].
  split; [repeat constructor; discriminate|].
  set (wd0 := final (init x_in0 wd)).
  assert (Hinit : init x_in0 wd = Done tt wd0)
    by (vm_compute; reflexivity).
  assert (Hg : global_phase (C := echo_collaborators) x_in0 t_in0 cond0 1 wd0
               = Done None wd0).
  { unfold global_phase, bind, get_self.
    change (global_multiplier (self wd0)) with 0%R.
    destruct (Rlt_dec 0 0) as [Hlt|_]; [lra|reflexivity]. }
  set (wd1 := final (custom_sampling (C := echo_collaborators) x_in0 t_in0
                       cond0 0 [(BBox 0 0 2 1, tt, tt, 3%R)] wd0)).
  assert (Hc : custom_phase (C := echo_collaborators) x_in0 t_in0 cond0 wd0
               = Done tt wd1).
  { unfold custom_phase. unfold bind at 1, get_self at 1. cbv beta iota.
    change (0 <? length (custom_bboxes (self wd0))) with true. cbv iota.
    assert (Hr : rescale_buffer wd0 = Done tt wd0).
    { unfold rescale_buffer, bind, get_self.
      change (global_multiplier (self wd0)) with 0%R.
      destruct (Rlt_dec 0 0) as [Hlt|_]; [lra|reflexivity]. }
    rewrite (bind_done _ _ _ _ _ Hr).
    vm_compute. reflexivity. }
  exists (whole 8 [1; 1; 1; 3]), wd1. split.
  { rewrite (apply_model_phases wd wd0 wd0 x_in0 t_in0 cond0 1 1 1 3
               eq_refl eq_refl eq_refl Hinit Hg).
    rewrite (bind_done _ _ _ _ _ Hc). vm_compute. reflexivity. }
  split; vm_compute; reflexivity.
Qed.

(** Multiplier 2 and no custom region: the uniform-tile phase runs, and
    the call returns the buffer exactly as that phase left it.  Its first
    element is the 1 that was accumulated (prediction 1, weight
    [k * (1 / k)]), not 2. *)
Lemma buffer_not_rescaled_without_regions :
  let wd := canvas_world kernel11 2 None in
  let wd0 := final (init x_in0 wd) in
  let wdg := final (global_sampling x_in0 t_in0 cond0 1 0 three_batches wd0) in
  init x_in0 wd = Done tt wd0 /\
  global_phase x_in0 t_in0 cond0 1 wd0 = Done None wdg /\
  global_multiplier (self wdg) = 2%R /\
  (eps < Rabs (2 - 1))%R /\
  tread (store wdg) buffer6 [0; 0; 0; 0] = 1%R /\
  apply_model x_in0 t_in0 cond0 wd = Done buffer6 wdg.
Proof.
  pose proof kernel11_pos as Hk. revert Hk. generalize kernel11. intros k Hk.
  intros wd wd0 wdg.
  assert (Hinit : init x_in0 wd = Done tt wd0) by (vm_compute; reflexivity).
  assert (Hgm0 : global_multiplier (self wd0) = 2%R) by (vm_compute; reflexivity).
  assert (Hglobal : global_phase x_in0 t_in0 cond0 1 wd0 = Done None wdg).
  { unfold global_phase, bind, get_self. rewrite Hgm0.
    destruct (Rlt_dec 0 2) as [_|Hn]; [|lra].
    vm_compute. reflexivity. }
  split; [exact Hinit|]. split; [exact Hglobal|].
  split; [vm_compute; reflexivity|].
  split; [unfold eps; rewrite Rabs_pos_eq; lra|].
  split.
  { vm_compute. field. lra. }
  rewrite (apply_model_phases wd wd0 wdg x_in0 t_in0 cond0 1 1 1 3
             eq_refl eq_refl eq_refl Hinit Hglobal).
  vm_compute. reflexivity.
Qed.

(** Multiplier 2 and one custom region. *)
Lemma apply_model_rescales_witness :
  let wd := final (init_custom_bbox 2%R one_region (setup_world kernel11)) in
  let wd0 := final (init x_in0 wd) in
  let wdg := final (global_sampling x_in0 t_in0 cond0 1 0 three_batches wd0) in
  let xb := whole 9 [1; 1; 1; 3] in
  let gm := global_multiplier (self wdg) in
  let regions := custom_bboxes (self wdg) in
  init x_in0 wd = Done tt wd0 /\
  global_phase x_in0 t_in0 cond0 1 wd0 = Done None wdg /\
  x_buffer (self wdg) = Some xb /\
  gm = 2%R /\ length regions = 1 /\
  (regions = [] -> apply_model x_in0 t_in0 cond0 wd = Done xb wdg) /\
  (regions <> [] -> (0 < gm)%R -> (eps < Rabs (gm - 1))%R ->
     (forall idx, in_shape idx (ref_shape xb) ->
        tread (store (scaled xb gm wdg)) xb idx
          = (tread (store wdg) xb idx * gm)%R) /\
     (forall l, l <> base xb -> store (scaled xb gm wdg) !! l = store wdg !! l) /\
     apply_model x_in0 t_in0 cond0 wd =
       (let* _ := custom_sampling x_in0 t_in0 cond0 0 regions in
        let* s := get_self in
        attr (x_buffer s)) (scaled xb gm wdg)) /\
  (regions <> [] -> (gm <= 0 \/ Rabs (gm - 1) <= eps)%R ->
     apply_model x_in0 t_in0 cond0 wd =
       (let* _ := custom_sampling x_in0 t_in0 cond0 0 regions in
        let* s := get_self in
        attr (x_buffer s)) wdg).
Proof.
  intros wd wd0 wdg xb gm regions.
  assert (Hinit : init x_in0 wd = Done tt wd0) by (vm_compute; reflexivity).
  assert (Hgm0 : global_multiplier (self wd0) = 2%R) by (vm_compute; reflexivity).
  assert (Hglobal : global_phase x_in0 t_in0 cond0 1 wd0 = Done None wdg).
  { unfold global_phase, bind, get_self. rewrite Hgm0.
    destruct (Rlt_dec 0 2) as [_|Hn]; [|lra].
    vm_compute. reflexivity. }
  assert (Hxb : x_buffer (self wdg) = Some xb) by (vm_compute; reflexivity).
  split; [exact Hinit|]. split; [exact Hglobal|]. split; [exact Hxb|].
  split; [vm_compute; reflexivity|]. split; [vm_compute; reflexivity|].
  apply (apply_model_rescales wd wd0 wdg x_in0 t_in0 cond0 1 1 1 3 xb).
  - reflexivity.
  - vm_compute. reflexivity.
  - vm_compute. reflexivity.
  - exact Hinit.
  - exact Hglobal.
  - exact Hxb.
  - vm_compute. lia.
Defined.

End Runs.

(** * Runs of the further properties *)

Section MoreRuns.
Import Example.

Lemma gaussian_weights_mirror_witness :
  exists r wd',
    _gaussian_weights (Some 3%Z) (Some 2%Z) world0 = Done r wd' /\
    forall y x, y < Z.to_nat 2 -> x < Z.to_nat 3 ->
      tread (store wd') r [y; Z.to_nat 3 - 1 - x] = tread (store wd') r [y; x].
Proof. apply (gaussian_weights_mirror world0 3 2); lia. Defined.

Lemma gaussian_weights_off_centre_witness :
  exists r wd',
    _gaussian_weights (Some 3%Z) (Some 2%Z) world0 = Done r wd' /\
    (forall y x, 0 < y -> y < Z.to_nat 2 -> x < Z.to_nat 3 ->
       tread (store wd') r [Z.to_nat 2 - y; x] = tread (store wd') r [y; x]).
Proof. apply (gaussian_weights_off_centre world0 3 2); lia. Defined.

(** The first call on an instance with 2-by-2 tiles, and a second one. *)
Lemma get_global_weights_cached_witness :
  let wd1 := final (get_global_weights world0) in
  let r := whole 1 [2; 2] in
  get_global_weights world0 = Done r wd1 /\
  per_tile_weights (self world0) = None /\
  per_tile_weights (self wd1) = Some r /\
  get_global_weights wd1 = Done r wd1 /\
  length (store wd1) = 2.
Proof.
  intros wd1 r.
  assert (Hrun : get_global_weights world0 = Done r wd1)
    by (vm_compute; reflexivity).
  destruct (get_global_weights_cached world0 wd1 r Hrun) as (Hp & Hlater & Hnew).
  split; [exact Hrun|]. split; [reflexivity|]. split; [exact Hp|].
  split; [exact (Hlater wd1 Hp)|].
  destruct (Hnew eq_refl) as (_ & _ & Hlen & _). exact Hlen.
Defined.

Lemma hook_twice_witness :
  let wd := MkWorld [] self0 (MkObj ∅ {["apply_model" := 7]}) []
                    (MkExState 0 None 0) in
  exists wd1 wd2 wd3,
    hook wd = Done tt wd1 /\
    hook wd1 = Done tt wd2 /\
    sd_model wd2 = sd_model wd1 /\
    getattr (sd_model wd2) "md_org_apply_model" = Ok 7 /\
    unhook wd2 = Done tt wd3 /\
    getattr (sd_model wd3) "apply_model" = Ok 7 /\
    hasattr (sd_model wd3) "md_org_apply_model" = false.
Proof.
  apply (hook_twice
           (MkWorld [] self0 (MkObj ∅ {["apply_model" := 7]}) []
                    (MkExState 0 None 0)) 7); reflexivity.
Defined.

(** A region without a cached weight: the first [init] raises
    [IndexError], the second returns. *)
Lemma init_failure_not_retried_witness :
  let wd1 := final (init x_in0 unprepared_world) in
  init x_in0 unprepared_world = Fail IndexError wd1 /\
  rescale_factor (self unprepared_world) = None /\
  is_Some (rescale_factor (self wd1)) /\
  forall x_in',
    exists wd2,
      init x_in' wd1 = Done tt wd2 /\
      rescale_factor (self wd2) = rescale_factor (self wd1) /\
      custom_weights (self wd2) = custom_weights (self wd1) /\
      forall r idx, base r < length (store wd1) ->
        tread (store wd2) r idx = tread (store wd1) r idx.
Proof.
  intros wd1.
  assert (Hrun : init x_in0 unprepared_world = Fail IndexError wd1)
    by (vm_compute; reflexivity).
  split; [exact Hrun|]. split; [reflexivity|].
  apply (init_failure_not_retried unprepared_world wd1 x_in0 IndexError Hrun).
  vm_compute. eauto.
Defined.

Lemma init_custom_bbox_caches_witness :
  let wd := setup_world kernel11 in
  let wd1 := final (super_init_custom_bbox 2%R one_region wd) in
  super_init_custom_bbox 2%R one_region wd = Done tt wd1 /\
  custom_bboxes (self wd1) = [(BBox 0 0 2 1, tt, tt, 3%R)] /\
  custom_weights (self wd1) = [] /\
  exists wd2 cw,
    init_custom_bbox 2%R one_region wd = Done tt wd2 /\
    custom_weights (self wd2) !! 0 = Some cw /\
    ref_shape cw = [1; 1; 1; 2] /\
    forall x, x < 2 ->
      tread (store wd2) cw [0; 0; 0; x] =
        (kernel_at (BBox 0 0 2 1) 0 x * 3)%R.
Proof.
  intros wd wd1. split; [reflexivity|]. split; [reflexivity|].
  split; [reflexivity|].
  destruct (init_custom_bbox_caches wd wd1 2%R one_region 1 1 1 3 4)
    as (wd2 & Hrun & _ & _ & Hcw).
  - reflexivity.
  - reflexivity.
  - simpl. lia.
  - reflexivity.
  - repeat constructor; simpl; lia.
  - destruct (Hcw 0 (BBox 0 0 2 1, tt, tt, 3%R) eq_refl)
      as (cw & Hk & (Hshp & _) & _ & _ & Hv).
    exists wd2, cw. split; [exact Hrun|]. split; [exact Hk|].
    split; [exact Hshp|]. intros x Hx. apply (Hv 0 x); simpl; lia.
Defined.

Lemma custom_weights_finalised_witness :
  let wd := setup_world kernel11 in
  let wd1 := final (super_init_custom_bbox 2%R one_region wd) in
  super_init_custom_bbox 2%R one_region wd = Done tt wd1 /\
  exists wd2 wd3 cw,
    init_custom_bbox 2%R one_region wd = Done tt wd2 /\
    init x_in0 wd2 = Done tt wd3 /\
    custom_weights (self wd3) !! 0 = Some cw /\
    forall x, x < 2 ->
      tread (store wd3) cw [0; 0; 0; x] =
        (kernel_at (BBox 0 0 2 1) 0 x * 3
         * (1 / add_regions (custom_bboxes (self wd1))
                  (tread (store wd1) weights4 [0; 0; 0; x]%nat) 0 x))%R.
Proof.
  intros wd wd1. split; [reflexivity|].
  destruct (custom_weights_finalised wd wd1 2%R one_region 1 3 4 x_in0)
    as (wd2 & wd3 & Hrun & Hinit & _ & Hcw).
  - reflexivity.
  - reflexivity.
  - simpl. lia.
  - reflexivity.
  - repeat constructor; simpl; lia.
  - reflexivity.
  - reflexivity.
  - simpl. lia.
  - reflexivity.
  - destruct (Hcw 0 (BBox 0 0 2 1, tt, tt, 3%R) eq_refl)
      as (cw & Hk & _ & Hv).
    exists wd2, wd3, cw. split; [exact Hrun|]. split; [exact Hinit|].
    split; [exact Hk|]. intros x Hx. apply (Hv 0 x); simpl; lia.
Defined.

(** A canvas of the wrong width, and a three-dimensional input. *)
Lemma apply_model_checks_shape_witness :
  let wd := canvas_world kernel11 1 None in
  apply_model (whole 0 [1; 1; 1; 2]) t_in0 cond0 wd = Fail AssertionError wd /\
  apply_model (whole 0 [1; 1; 3]) t_in0 cond0 wd = Fail ValueError wd.
Proof.
  intros wd. split.
  - apply (proj2 (apply_model_checks_shape (whole 0 [1; 1; 1; 2]) t_in0 cond0 wd)
             1 1 1 2); [reflexivity|]. right. simpl. lia.
  - apply (proj1 (apply_model_checks_shape (whole 0 [1; 1; 3]) t_in0 cond0 wd)).
    simpl. lia.
Defined.

Lemma positive_one : (0 < 1)%R.
Proof. lra. Qed.

Lemma canvas_init (gm : R) :
  init x_in0 (canvas_world kernel11 gm None)
    = Done tt (final (init x_in0 (canvas_world kernel11 gm None))).
Proof. generalize kernel11. intros k. vm_compute. reflexivity. Qed.

Lemma global_sampling_needs_dict_witness :
  let wd := canvas_world kernel11 1 None in
  exists e wd1,
    apply_model x_in0 t_in0 PNone wd = Fail e wd1 /\
    ext wd1 = ext wd.
Proof.
  intros wd.
  apply (global_sampling_needs_dict wd (final (init x_in0 wd)) x_in0 t_in0
           PNone 1 1 1 3 [BBox 0 0 1 1] [[BBox 1 0 2 1]; [BBox 2 0 3 1]]).
  - intros d. discriminate.
  - reflexivity.
  - reflexivity.
  - reflexivity.
  - apply canvas_init.
  - exact positive_one.
  - reflexivity.
  - reflexivity.
Defined.

Lemma global_sampling_needs_c_concat_witness :
  let wd := canvas_world kernel11 1 None in
  let d := [("c_crossattn", CList [whole 3 [1; 2; 2]])] in
  dict_get d "c_concat" = Raise KeyError /\
  apply_model x_in0 t_in0 (PDict d) wd = Fail KeyError (final (init x_in0 wd)).
Proof.
  intros wd d. split; [reflexivity|].
  apply (global_sampling_needs_c_concat wd (final (init x_in0 wd)) x_in0 t_in0
           d 1 1 1 3 (BBox 0 0 1 1) [] [[BBox 1 0 2 1]; [BBox 2 0 3 1]]).
  - reflexivity.
  - reflexivity.
  - reflexivity.
  - reflexivity.
  - apply canvas_init.
  - exact positive_one.
  - reflexivity.
  - reflexivity.
Defined.

Lemma kernelless_init :
  init x_in0 kernelless_world = Done tt (final (init x_in0 kernelless_world)).
Proof. unfold kernelless_world. generalize kernel11. intros k. vm_compute. reflexivity. Qed.

Lemma apply_model_needs_tile_weights_witness :
  per_tile_weights (self kernelless_world) = None /\
  exists e wd1, apply_model x_in0 t_in0 cond0 kernelless_world = Fail e wd1.
Proof.
  split; [reflexivity|].
  apply (apply_model_needs_tile_weights kernelless_world
           (final (init x_in0 kernelless_world)) x_in0 t_in0 cond0 1 1 1 3
           (BBox 0 0 1 1) [] [[BBox 1 0 2 1]; [BBox 2 0 3 1]]).
  - reflexivity.
  - reflexivity.
  - reflexivity.
  - reflexivity.
  - apply kernelless_init.
  - exact positive_one.
  - reflexivity.
  - reflexivity.
Defined.

(** A step with a global multiplier of zero and no custom region. *)
Lemma apply_model_idle_witness :
  let wd := canvas_world kernel11 0 None in
  exists r wd',
    apply_model x_in0 t_in0 cond0 wd = Done r wd' /\
    x_buffer (self wd') = Some r /\
    ext wd' = ext wd /\
    base r = length (store wd) /\ ref_shape r = ref_shape x_in0 /\
    (forall l, l < length (store wd) -> store wd' !! l = store wd !! l) /\
    forall idx, tread (store wd') r idx = 0%R.
Proof.
  intros wd.
  apply (apply_model_idle wd x_in0 t_in0 cond0 1 1 1 3).
  - reflexivity.
  - reflexivity.
  - reflexivity.
  - cbn. lra.
  - reflexivity.
  - left. cbn. eauto.
Defined.

(** A step with a global multiplier of zero and no custom region returns
    the buffer [init] made. *)
Lemma idle_run :
  let wd := canvas_world kernel11 0 None in
  apply_model x_in0 t_in0 cond0 wd = Done buffer6 (final (init x_in0 wd)).
Proof.
  intros wd.
  assert (Hg : global_phase x_in0 t_in0 cond0 1 (final (init x_in0 wd))
               = Done None (final (init x_in0 wd))).
  { unfold global_phase, bind, get_self.
    change (global_multiplier (self (final (init x_in0 wd)))) with 0%R.
    destruct (Rlt_dec 0 0) as [Hlt|_]; [lra|reflexivity]. }
  rewrite (apply_model_phases wd _ _ x_in0 t_in0 cond0 1 1 1 3
             eq_refl eq_refl eq_refl (canvas_init 0) Hg).
  reflexivity.
Qed.

Lemma apply_model_result_witness :
  let wd := canvas_world kernel11 0 None in
  let wd' := final (init x_in0 wd) in
  apply_model x_in0 t_in0 cond0 wd = Done buffer6 wd' /\
  (x_buffer (self wd') = Some buffer6 \/
   (buffer6 = x_in0 /\ interrupted (ext wd') = true)).
Proof.
  intros wd wd'. split; [exact idle_run|].
  apply (apply_model_result wd wd' x_in0 t_in0 buffer6 cond0 idle_run).
Defined.

(** The custom region of the example, at the first step: the adapter's
    prediction lands in cell 11, the buffer is cell 9 and the cached weight
    a view of cell 8. *)
Lemma custom_region_contribution_witness :
  let wd := stepped_world in
  let bb := BBox 0 0 2 1 in
  let x_tile := TRef 0 [VSlice 0 1; VSlice 0 1; VSlice 0 1; VSlice 0 2] in
  let wd1 := final (custom_apply_model x_tile t_in0 cond0 0 bb tt tt wd) in
  let out := whole 11 [1; 1; 1; 2] in
  let xb := whole 9 [1; 1; 1; 3] in
  let cw := TRef 8 [VNew 1; VNew 1; VSlice 0 1; VSlice 0 2] in
  custom_apply_model x_tile t_in0 cond0 0 bb tt tt wd = Done out wd1 /\
  exists wd',
    custom_sampling x_in0 t_in0 cond0 0 [(bb, tt, tt, 3%R)] wd = Done tt wd' /\
    forall x, x < 3 ->
      tread (store wd') xb [0; 0; 0; x] =
        if in_bbox bb 0 x then
          (tread (store wd1) xb [0; 0; 0; x]%nat
           + tread (store wd1) out [0; 0; 0; x]%nat
             * tread (store wd1) cw [0; 0; 0; x]%nat)%R
        else tread (store wd1) xb [0; 0; 0; x].
Proof.
  intros wd bb x_tile wd1 out xb cw.
  assert (Hrun : custom_apply_model x_tile t_in0 cond0 0 bb tt tt wd
                 = Done out wd1) by (vm_compute; reflexivity).
  split; [exact Hrun|].
  pose proof (custom_region_contribution wd wd1 x_in0 t_in0 cond0 0 bb tt tt
                3%R 1 1 1 3 9 11 0 x_tile cw) as Hthm.
  cbv zeta in Hthm.
  destruct Hthm as (wd' & Hc & _ & _ & _ & Hv).
  - vm_compute. reflexivity.
  - vm_compute. reflexivity.
  - split; [reflexivity|]. repeat constructor.
  - unfold bbox_in. simpl. lia.
  - reflexivity.
  - exact Hrun.
  - vm_compute. lia.
  - vm_compute. lia.
  - lia.
  - simpl. lia.
  - vm_compute. reflexivity.
  - vm_compute. reflexivity.
  - vm_compute. reflexivity.
  - intros h e. exists [], (MkExState (model_calls e) (interrupt_after e)
                                      (S (progress e))).
    rewrite app_nil_r. reflexivity.
  - exists wd'. split; [exact Hc|]. intros x Hx.
    pose proof (Hv 0 0 0 x) as Hx0.
    replace (x - Z.to_nat (b0 bb)) with x in Hx0 by (simpl; lia).
    apply Hx0; simpl; lia.
Defined.

(** The unconditional dict has no entry for the key of [c]. *)
Lemma forward_func_missing_key_witness :
  let c := [("c_crossattn", CTensor (whole 3 [1; 2; 2]))] in
  let e := MkExState 0 None 0 in
  exists err h',
    forward_entries [] c [] (canvas_store kernel11) e = Fail err (h', e) /\
    forward_func hooked_model 0 x_in0 c t_in0 [] (canvas_store kernel11) e
      = Fail err (h', e).
Proof.
  intros c e.
  apply (forward_func_missing_key hooked_model 0 x_in0 t_in0 c []
           "c_crossattn" (CTensor (whole 3 [1; 2; 2]))).
  - apply elem_of_cons. left. reflexivity.
  - reflexivity.
  - discriminate.
Defined.

(** The conditioning of the example against itself. *)
Lemma forward_func_dict_witness :
  let d := [("c_concat", CList [whole 2 [1; 4; 1; 3]]);
            ("c_crossattn", CList [whole 3 [1; 2; 2]])] in
  let e : ExtState := MkExState 0 None 0 in
  let h := canvas_store kernel11 in
  let c_in := [("c_concat", CList [whole 6 [2; 4; 1; 3]]);
               ("c_crossattn", CList [whole 7 [2; 2; 2]])] in
  exists h',
    forward_entries d d [] h e = Done c_in (h', e) /\
    length h' = 8 /\
    map fst c_in = map fst d /\
    Forall2 (fun kc kr => entry_rows h' d kc.1 kc.2 kr.2) d c_in.
Proof.
  intros d e h c_in.
  assert (Hrun : forward_entries d d [] h e
                 = Done c_in ((final (forward_entries d d [] h e)).1, e)).
  { unfold h. generalize kernel11. intros k. vm_compute. reflexivity. }
  exists (final (forward_entries d d [] h e)).1.
  split; [exact Hrun|].
  split; [unfold h; generalize kernel11; intros k; vm_compute; reflexivity|].
  destruct (forward_func_dict d d c_in h _ e e Hrun) as (_ & _ & Hk & Hall & _).
  - cbn [map fst d]. apply NoDup_cons. split; [|apply NoDup_singleton].
    intros Hin. apply list_elem_of_singleton in Hin. discriminate.
  - repeat constructor; simpl; lia.
  - repeat constructor; simpl; lia.
  - split; [exact Hk|exact Hall].
Defined.

(** The first two tiles of the canvas, as one batch. *)
Lemma tile_batch_layout_witness :
  let wd := canvas_world kernel11 1 None in
  let bboxes := [BBox 0 0 1 1; BBox 1 0 2 1] in
  let l := MkTileLists
             [TRef 0 [VSlice 0 1; VSlice 0 1; VSlice 0 1; VSlice 0 1];
              TRef 0 [VSlice 0 1; VSlice 0 1; VSlice 0 1; VSlice 1 1]]
             [t_in0; t_in0] [] [] in
  gather_tiles (self wd) x_in0 t_in0 PNone bboxes (MkTileLists [] [] [] [])
    = Ok l /\
  exists x_tile wd1,
    cat (x_tile_list l) wd = Done x_tile wd1 /\
    ref_shape x_tile = [2; 1; 1; 1] /\
    tread (store wd1) x_tile [0; 0; 0; 0] = tread (store wd) x_in0 [0; 0; 0; 0] /\
    tread (store wd1) x_tile [1; 0; 0; 0] = tread (store wd) x_in0 [0; 0; 0; 1].
Proof.
  intros wd bboxes l.
  assert (Hg : gather_tiles (self wd) x_in0 t_in0 PNone bboxes
                 (MkTileLists [] [] [] []) = Ok l) by reflexivity.
  split; [exact Hg|].
  destruct (tile_batch_layout (self wd) x_in0 t_in0 PNone bboxes l wd
              1 1 1 3 1 1) as (x_tile & wd1 & Hcat & _ & Hshp & Hv).
  - reflexivity.
  - simpl. lia.
  - discriminate.
  - repeat constructor; simpl; lia.
  - exact Hg.
  - exists x_tile, wd1. split; [exact Hcat|]. split; [exact Hshp|]. split.
    + apply (Hv 0 (BBox 0 0 1 1) 0 0 0 0); [reflexivity|lia..].
    + apply (Hv 1 (BBox 1 0 2 1) 0 0 0 0); [reflexivity|lia..].
Defined.

(** The cached weight of the example has the device and dtype of the
    input: it is rescaled in place. *)
Lemma init_rescale_in_place_or_copy_witness :
  let wd := stepped_world in
  let cw := TRef 8 [VNew 1; VNew 1; VSlice 0 1; VSlice 0 2] in
  custom_weights (self wd) !! 0 = Some cw /\
  exists wd',
    init_rescale_body x_in0 0 (BBox 0 0 2 1, tt, tt, 3%R) wd = Done tt wd' /\
    custom_weights (self wd') = custom_weights (self wd) /\
    length (store wd') = length (store wd).
Proof.
  intros wd cw.
  assert (Hcw : custom_weights (self wd) !! 0 = Some cw)
    by (vm_compute; reflexivity).
  split; [exact Hcw|].
  destruct (init_rescale_in_place_or_copy wd x_in0 0
              (BBox 0 0 2 1, tt, tt, 3%R) cw 1 3 10)
    as (wd' & cw' & Hrun & Ecw & Hcase).
  - exact Hcw.
  - split; [reflexivity|]. repeat constructor.
  - vm_compute. lia.
  - vm_compute. reflexivity.
  - vm_compute. lia.
  - unfold bbox_in. simpl. lia.
  - vm_compute. reflexivity.
  - exists wd'. split; [exact Hrun|].
    assert (Hcond : (ref_device (store wd) cw =? ref_device (store wd) x_in0)
                    && dtype_eqb (ref_dtype (store wd) cw)
                                 (ref_dtype (store wd) x_in0) = true)
      by (vm_compute; reflexivity).
    rewrite Hcond in Hcase. destruct Hcase as (-> & Hlen).
    split; [|exact Hlen].
    rewrite Ecw. apply list_insert_id. exact Hcw.
Defined.

End MoreRuns.
